(** * dir_sizer: the S3 scan engine of [s3_abstraction.py]

    A shallow embedding of the inventory-report selector, the report reader,
    the object lister, the single-bucket scan and the account-wide metrics
    aggregation of [s3_abstraction.py], with the properties the
    specification states about them.

    Conventions of the embedding.
    - A Python [str] is a [string]: one [ascii] per character, [len] is
      [String.length].
    - A Python [int] is a [Z]; a Python [float] is a binary64 primitive
      [float]; a value that may be either is a [pynum].
    - A call that may raise returns a [result]; a generator is a [gen]: the
      events it produced, in order, and how it ended.
    - The remote services (S3, CloudWatch) are records of functions that
      give, for each request, the response or the error of the service.
    - [msg(...)], the progress display of [utils.TempMessage], is left out;
      the totals that the closing message reports are the value a scan
      returns. *)

From Stdlib Require Import ZArith List String Ascii Bool Lia Permutation Sorted.
From Stdlib Require Import Floats.
From stdpp Require Import base option list gmap strings pretty.

Set Warnings "-inexact-float,-clear-no-such-hyp".
Local Open Scope string_scope.
Local Open Scope list_scope.
Local Open Scope Z_scope.

(** String concatenation, [s + t] in Python. *)
Infix "+++" := String.append (at level 60, right associativity).

(** ** Exceptions, results and generators *)

Inductive exn : Type :=
| KeyError (key : string)
| IndexError (what : string)
| TypeError (what : string)
| AttributeError (what : string)
| ValueError (what : string)
| OverflowError (what : string)
| ClientError (code : string)
| RemoteError (what : string)
| Exception (message : string).

Inductive result (A : Type) : Type :=
| Ok (a : A)
| Raise (e : exn).
Arguments Ok {A} a.
Arguments Raise {A} e.

Definition result_bind {A B} (m : result A) (k : A -> result B) : result B :=
  match m with
  | Ok a => k a
  | Raise e => Raise e
  end.

Notation "'let!' x ':=' m 'in' k" := (result_bind m (fun x => k))
  (at level 10, x pattern, m at level 100, k at level 200,
   format "'[v' 'let!'  x  ':='  m  'in' '/' k ']'").

(** [d[key]] on a field that may be absent. *)
Definition item {A} (key : string) (o : option A) : result A :=
  match o with
  | Some a => Ok a
  | None => Raise (KeyError key)
  end.

(** A generator run to its end: the events it produced and its outcome. *)
Definition gen (E A : Type) : Type := (list E * result A)%type.

Definition gen_ret {E A} (a : A) : gen E A := ([], Ok a).
Definition gen_raise {E A} (e : exn) : gen E A := ([], Raise e).
Definition gen_emit {E} (ev : E) : gen E unit := ([ev], Ok tt).
Definition gen_lift {E A} (m : result A) : gen E A := ([], m).

Definition gen_bind {E A B} (m : gen E A) (k : A -> gen E B) : gen E B :=
  match m with
  | (evs, Ok a) => let '(evs', r) := k a in (evs ++ evs', r)
  | (evs, Raise e) => (evs, Raise e)
  end.

Notation "'let*' x ':=' m 'in' k" := (gen_bind m (fun x => k))
  (at level 10, x pattern, m at level 100, k at level 200,
   format "'[v' 'let*'  x  ':='  m  'in' '/' k ']'").

(** [for x in xs: body], with the loop state threaded through. *)
Fixpoint gen_for {E X S} (xs : list X) (body : S -> X -> gen E S) (s : S)
  : gen E S :=
  match xs with
  | [] => gen_ret s
  | x :: xs' => let* s' := body s x in gen_for xs' body s'
  end.

Fixpoint result_for {X S} (xs : list X) (body : S -> X -> result S) (s : S)
  : result S :=
  match xs with
  | [] => Ok s
  | x :: xs' => let! s' := body s x in result_for xs' body s'
  end.

(** A stream handed over by a service or a producer: the items received
    and the error that ended it, if one did. *)
Definition stream (A : Type) : Type := (list A * option exn)%type.

(** [for x in producer: body]: the items are consumed in order; the error
    of the producer is met after its last item. *)
Definition gen_for_stream {E X S} (xs : stream X) (body : S -> X -> gen E S)
  (s : S) : gen E S :=
  let* s' := gen_for (fst xs) body s in
  match snd xs with
  | None => gen_ret s'
  | Some e => gen_raise e
  end.

(** ** Strings *)

(** [s.startswith(p)] *)
Definition startswith (s p : string) : bool := String.prefix p s.

(** [s[n:]] *)
Fixpoint slice_from (n : nat) (s : string) : string :=
  match n, s with
  | O, _ => s
  | S n', String _ s' => slice_from n' s'
  | S _, EmptyString => EmptyString
  end.

(** [needle in hay], for two strings. *)
Fixpoint contains (needle hay : string) : bool :=
  String.prefix needle hay ||
  match hay with
  | EmptyString => false
  | String _ hay' => contains needle hay'
  end.

(** [s.split(sep)] for a separator of one character. *)
Fixpoint split_on (sep : ascii) (s : string) : list string :=
  match s with
  | EmptyString => [EmptyString]
  | String c s' =>
      if Ascii.eqb c sep then EmptyString :: split_on sep s'
      else match split_on sep s' with
           | w :: ws => String c w :: ws
           | [] => [String c EmptyString]
           end
  end.

(** [sep.join(parts)] *)
Fixpoint join (sep : string) (parts : list string) : string :=
  match parts with
  | [] => EmptyString
  | [p] => p
  | p :: ps => p +++ sep +++ join sep ps
  end.

(** The characters [str.strip()] removes, among the 8-bit ones. *)
Definition is_space (c : ascii) : bool :=
  let n := nat_of_ascii c in
  ((9 <=? n) && (n <=? 13) || (28 <=? n) && (n <=? 32)
   || (n =? 133) || (n =? 160))%nat.

Fixpoint lstrip (s : string) : string :=
  match s with
  | String c s' => if is_space c then lstrip s' else s
  | EmptyString => EmptyString
  end.

Fixpoint rstrip (s : string) : string :=
  match s with
  | EmptyString => EmptyString
  | String c s' =>
      match rstrip s' with
      | EmptyString => if is_space c then EmptyString else String c EmptyString
      | t => String c t
      end
  end.

Definition strip (s : string) : string := rstrip (lstrip s).

(** ["%02d" % n] *)
Definition fmt_02d (n : nat) : string :=
  if (n <? 10)%nat then "0" +++ pretty n else pretty n.

(** ** Numbers *)

Inductive pynum : Type :=
| PInt (n : Z)
| PFloat (f : float).

(** [float(n)] for an integer, rounded to nearest even. *)
Definition float_of_Z (n : Z) : float :=
  SF2Prim (binary_normalize prec emax n 0 false).

(** [n / 2**k] for two Python integers: the quotient is rounded once, to
    the nearest float; Python raises when it is too large for one. *)
Definition int_truediv_pow2 (n k : Z) : result float :=
  let q := SF2Prim (binary_normalize prec emax n (- k) false) in
  if is_infinity q
  then Raise (OverflowError "integer division result too large for a float")
  else Ok q.

(** [n / 1073741824]; the divisor is [2 ** 30]. *)
Definition GiB : Z := 1073741824.
Definition div_GiB (n : Z) : result float := int_truediv_pow2 n (Z.log2 GiB).

(** [int(f)] for a float: truncation towards zero. *)
Definition int_of_float (f : float) : result Z :=
  match Prim2SF f with
  | S754_nan => Raise (ValueError "cannot convert float NaN to integer")
  | S754_infinity _ =>
      Raise (OverflowError "cannot convert float infinity to integer")
  | S754_zero _ => Ok 0
  | S754_finite s m e =>
      let v := if 0 <=? e then Z.pos m * 2 ^ e else Z.pos m / 2 ^ (- e) in
      Ok (if s then - v else v)
  end.

Definition to_float (x : pynum) : float :=
  match x with
  | PInt n => float_of_Z n
  | PFloat f => f
  end.

(** [x + y]: integer addition when both are integers, float addition
    otherwise.  The scans only ever convert the integer [0] that starts an
    accumulator. *)
Definition num_add (x y : pynum) : pynum :=
  match x, y with
  | PInt a, PInt b => PInt (a + b)
  | _, _ => PFloat (to_float x + to_float y)
  end.

(** [x > 0] *)
Definition num_pos (x : pynum) : bool :=
  match x with
  | PInt n => 0 <? n
  | PFloat f => (0 <? f)%float
  end.

(** ** S3 as the scan sees it *)

(** [cur['Destination'].get('S3BucketDestination')] *)
Record S3BucketDestination := {
  dest_Bucket : option string;
  dest_Prefix : option string;
  dest_Format : option string }.

(** One entry of [InventoryConfigurationList].  A field the service may
    leave out is an [option]; [Filter_Prefix] is [Filter.Prefix] and
    [Schedule_Frequency] is [Schedule.Frequency], which the code only
    reads through [.get] with a default. *)
Record InventoryConfiguration := {
  Id : string;
  IsEnabled : bool;
  Destination : option S3BucketDestination;
  OptionalFields : option (list string);
  Filter_Prefix : option string;
  Schedule_Frequency : option string;
  IncludedObjectVersions : option string }.

(** One entry of the [Contents] of a listing page. *)
Record ObjectSummary := {
  obj_Key : string;
  obj_Size : Z;
  obj_StorageClass : string }.

(** A client returned by [get_s3]: what the service answers to each call
    the scan makes.  Pages come in the order the paginator gives them. *)
Record S3 := {
  (** [list_bucket_inventory_configurations(Bucket)], page by page *)
  inventory_pages : string -> stream (list InventoryConfiguration);
  (** [list_objects_v2(Bucket, Prefix, Delimiter="/")]: the [CommonPrefixes]
      of each page *)
  common_prefix_pages : string -> string -> result (list (list string));
  (** [list_objects_v2(Bucket[, Prefix])]: the [Contents] of each page,
      [None] where the page has no such entry *)
  object_pages :
    string -> option string -> stream (option (list ObjectSummary));
  (** [get_object(Bucket, Key)['Body']] *)
  get_object : string -> string -> result string;
  (** [get_bucket_location(Bucket)['LocationConstraint']] *)
  location_constraint : string -> result (option string);
  (** [list_buckets()['Buckets']], the names *)
  list_buckets : result (list string) }.

(** What a scan does that can be observed from outside: the objects it
    asks S3 for and the items it yields. *)
Inductive event (A : Type) : Type :=
| Fetched (bucket key : string)
| Yielded (a : A).
Arguments Fetched {A} bucket key.
Arguments Yielded {A} a.

Definition yields {A} (evs : list (event A)) : list A :=
  omap (fun ev => match ev with Yielded a => Some a | Fetched _ _ => None end)
       evs.

(** [list_bucket_inventory_configurations]: every page flattened, the
    enabled configurations only. *)
Definition list_bucket_inventory_configurations (s3 : S3) (bucket : string)
  : stream InventoryConfiguration :=
  let '(pages, err) := inventory_pages s3 bucket in
  (List.filter IsEnabled (concat pages), err).

(** ** The inventory selector: first half of [get_bucket_inventory] *)

Definition config_format (cur : InventoryConfiguration) : string :=
  default "" (Destination cur ≫= dest_Format).

Definition config_prefix (cur : InventoryConfiguration) : string :=
  default "" (Filter_Prefix cur).

(** The body of the loop over the listed configurations: is [cur] one of
    the [possible_configs]? *)
Definition is_valid (required_fields : gset string) (prefix : string)
  (cur : InventoryConfiguration) : result bool :=
  if negb (String.eqb (config_format cur) "CSV") then Ok false
  else
    let! fields := item "OptionalFields" (OptionalFields cur) in
    if negb (Nat.eqb (size (list_to_set fields ∩ required_fields))
                     (size required_fields))
    then Ok false
    else if negb (startswith prefix (config_prefix cur)) then Ok false
    else Ok true.

Definition possible_configs (required_fields : gset string) (prefix : string)
  (listed : stream InventoryConfiguration)
  : result (list InventoryConfiguration) :=
  let! possible :=
    result_for (fst listed)
      (fun possible cur =>
         let! valid := is_valid required_fields prefix cur in
         Ok (if valid then possible ++ [cur] else possible))
      [] in
  match snd listed with
  | None => Ok possible
  | Some e => Raise e
  end.

(** The key of [possible_configs.sort(key=...)]. *)
Definition sort_key (x : InventoryConfiguration) : Z * Z * Z * Z :=
  (- Z.of_nat (String.length (config_prefix x)),
   if String.eqb (default "" (Schedule_Frequency x)) "Daily" then 1 else 2,
   if String.eqb (default "" (IncludedObjectVersions x)) "Current"
   then 1 else 2,
   - Z.of_nat (List.length (default [] (OptionalFields x)))).

(** [k1 < k2] on tuples of integers. *)
Definition key_ltb (k1 k2 : Z * Z * Z * Z) : bool :=
  let '(a1, b1, c1, d1) := k1 in
  let '(a2, b2, c2, d2) := k2 in
  (a1 <? a2) || (a1 =? a2) &&
  ((b1 <? b2) || (b1 =? b2) &&
   ((c1 <? c2) || (c1 =? c2) && (d1 <? d2))).

(** [list.sort(key=...)] is stable: an element goes before the first one
    already placed whose key is not smaller than its own.  A stable sort is
    determined by its input, so this is the list Python's sort produces. *)
Fixpoint insert_sorted {A} (key : A -> Z * Z * Z * Z) (x : A) (l : list A)
  : list A :=
  match l with
  | [] => [x]
  | y :: l' =>
      if key_ltb (key y) (key x) then y :: insert_sorted key x l'
      else x :: l
  end.

Fixpoint sort_by {A} (key : A -> Z * Z * Z * Z) (l : list A) : list A :=
  match l with
  | [] => []
  | x :: l' => insert_sorted key x (sort_by key l')
  end.

Definition quoted_list (fields : list string) : string :=
  join ", " (map (fun x => "'" +++ x +++ "'") fields).

(** The message of the error raised when no configuration is left.  The
    fields are joined in the order in which the set is iterated, which
    Python does not fix; the model takes the order of [elements], and no
    property below states that order. *)
Definition no_config_message (bucket prefix : string)
  (required_fields : gset string) : string :=
  "Unable to find S3 Inventory report for '" +++ bucket +++ "'"
  +++ (if (0 <? String.length prefix)%nat
       then ", that includes at least the prefix '" +++ prefix +++ "'"
       else "")
  +++ ", in the CSV format"
  +++ (if (0 <? size required_fields)%nat
       then ", with the optional fields of "
            +++ quoted_list (elements required_fields)
       else "").

(** The selector: the configuration [get_bucket_inventory] reads its
    report from, or the error it raises. *)
Definition select_config (s3 : S3) (bucket : string)
  (required_fields : gset string) (prefix : string)
  : result InventoryConfiguration :=
  let! possible :=
    possible_configs required_fields prefix
      (list_bucket_inventory_configurations s3 bucket) in
  match sort_by sort_key possible with
  | config :: _ => Ok config
  | [] => Raise (Exception (no_config_message bucket prefix required_fields))
  end.

(** ** The report reader: second half of [get_bucket_inventory] *)

(** The pieces of
    [[0-9]{4}-[0-9]{2}-[0-9]{2}T[0-9]{2}-[0-9]{2}Z/$]. *)
Inductive atom : Type :=
| Digit
| Lit (c : ascii).

Definition is_digit (c : ascii) : bool :=
  let n := nat_of_ascii c in ((48 <=? n) && (n <=? 57))%nat.

Definition atom_matches (a : atom) (c : ascii) : bool :=
  match a with
  | Digit => is_digit c
  | Lit c' => Ascii.eqb c c'
  end.

Definition report_pattern : list atom :=
  [Digit; Digit; Digit; Digit; Lit "-"; Digit; Digit; Lit "-"; Digit; Digit;
   Lit "T"; Digit; Digit; Lit "-"; Digit; Digit; Lit "Z"; Lit "/"].

(** Match the atoms at the start of [s]; what is left of [s] after them. *)
Fixpoint match_atoms (pat : list atom) (s : string) : option string :=
  match pat, s with
  | [], _ => Some s
  | a :: pat', String c s' =>
      if atom_matches a c then match_atoms pat' s' else None
  | _ :: _, EmptyString => None
  end.

(** [$]: the end of the string, or just before a newline that ends it. *)
Definition at_end (s : string) : bool :=
  String.eqb s "" || String.eqb s (String "010" "").

Definition match_here (s : string) : bool :=
  match match_atoms report_pattern s with
  | Some rest => at_end rest
  | None => false
  end.

(** [re.search(pattern, s) is not None]: a match at some position. *)
Fixpoint re_search_report (s : string) : bool :=
  match_here s ||
  match s with
  | EmptyString => false
  | String _ s' => re_search_report s'
  end.

(** The [reports] list: the manifest of every listed folder that the
    pattern finds. *)
Definition list_reports (pages : list (list string)) : list string :=
  map (fun p => p +++ "manifest.json")
      (List.filter re_search_report (concat pages)).

Record Manifest := {
  creationTimestamp : Z;
  fileSchema : string;
  files : list string }.

(** A row of a data file under the schema of the manifest:
    [{x: y for x, y in zip(schema, row)}]. *)
Definition row_dict (schema row : list string) : gmap string string :=
  foldl (fun d xy => <[xy.1 := xy.2]> d) ∅ (zip schema row).

Definition no_data_message (id : string) : string :=
  "Unable to find any inventory report data files for report '" +++ id
  +++ "', has it run?".

(** [{'Key': ..., 'Size': ..., 'StorageClass': ...}], what
    [s3_list_objects] yields. *)
Record ObjectRecord := {
  Key : string;
  Size : Z;
  StorageClass : string }.

(** The options [handle_args] can set.  [None] is a key that is absent. *)
Record Opts := {
  s3_profile : option string;
  s3_bucket : option string;
  s3_prefix : option string;
  s3_all_buckets : option bool;
  s3_cost : option bool;
  s3_inventory : option bool;
  s3_endpoint : option string }.

(** What [get_s3] is handed: the options, or (from [get_profiles]) a bare
    string. *)
Inductive pyobj : Type :=
| PyOpts (o : Opts)
| PyStr (s : string).

(** One entry of [aws_constants.S3_COST_CLASSES]. *)
Record CostClass := {
  cc_s3 : string;
  cc_cw : string;
  cc_desc : string }.

(** What a scan yields: a path and, in single-bucket mode, a size or a
    cost; in account-wide mode, a (size, count) pair. *)
Inductive value : Type :=
| Plain (x : pynum)
| SizeCount (size count : pynum).

(** [for x in producer: body] where the producer is itself a generator:
    its fetches happen as it is pulled, its items go to the body, and a
    failure of the body ends the scan at that item. *)
Fixpoint gen_pipe_events {A B S} (evs : list (event A))
  (body : S -> A -> gen (event B) S) (s : S) : gen (event B) S :=
  match evs with
  | [] => gen_ret s
  | Fetched b k :: evs' =>
      let* _ := gen_emit (Fetched b k) in gen_pipe_events evs' body s
  | Yielded a :: evs' =>
      let* s' := body s a in gen_pipe_events evs' body s'
  end.

Definition gen_pipe {A B S} (producer : gen (event A) unit)
  (body : S -> A -> gen (event B) S) (s : S) : gen (event B) S :=
  let* s' := gen_pipe_events (fst producer) body s in
  let* _ := gen_lift (snd producer) in
  gen_ret s'.

Section Scan.

(** What the code takes from outside [s3_abstraction.py]. *)

(** [aws_constants.S3_COST_CLASSES] *)
Variable S3_COST_CLASSES : list CostClass.
(** [load_pricing_data()]: region, then description, then the price
    as text *)
Variable pricing_data : gmap string (gmap string string).
(** [float(text)] *)
Variable float_of_str : string -> result float.
(** [int(text)] *)
Variable int_of_str : string -> result Z.
(** [urllib.parse.unquote] *)
Variable unquote : string -> string.
(** [json.loads] of a manifest and the fields the reader takes from it *)
Variable json_loads_manifest : string -> result Manifest.
(** [csv.reader] over the unzipped contents of a data file *)
Variable read_csv_gz : string -> stream (list string).
(** [boto3.Session(profile_name=profile).client('s3', ...)], or
    [boto3.client('s3', ...)] for the empty profile; the second
    argument is [endpoint_url] *)
Variable boto3_s3 : string -> option string -> result S3.

(** *** [get_bucket_inventory], the reader *)

Definition report_location (bucket : string)
  (config : InventoryConfiguration) : result (string * string) :=
  let! dest := item "S3BucketDestination" (Destination config) in
  let! arn := item "Bucket" (dest_Bucket dest) in
  let! inv_bucket :=
    match split_on ":" arn !! 5%nat with
    | Some b => Ok b
    | None => Raise (IndexError "list index out of range")
    end in
  let! inv_prefix := item "Prefix" (dest_Prefix dest) in
  let inv_prefix :=
    if (0 <? String.length inv_prefix)%nat then inv_prefix +++ "/"
    else inv_prefix in
  Ok (inv_bucket, inv_prefix +++ bucket +++ "/" +++ Id config +++ "/").

(** The rows of one data file of the manifest. *)
Definition read_data_file (s3 : S3) (inv_bucket : string)
  (schema : list string) (key : string)
  : gen (event (gmap string string)) unit :=
  let* _ := gen_emit (Fetched inv_bucket key) in
  let* csv_gz := gen_lift (get_object s3 inv_bucket key) in
  gen_for_stream (read_csv_gz csv_gz)
    (fun _ row => gen_emit (Yielded (row_dict schema row))) tt.

(** [for report in reports[::-1]: ...], given the reversed list; the
    value is [found]. *)
Fixpoint read_reports (s3 : S3) (inv_bucket : string)
  (reports : list string) : gen (event (gmap string string)) bool :=
  match reports with
  | [] => gen_ret false
  | report :: older =>
      let* _ := gen_emit (Fetched inv_bucket report) in
      match get_object s3 inv_bucket report with
      | Raise (ClientError code) =>
          if String.eqb code "NoSuchKey"
          then read_reports s3 inv_bucket older
          else gen_raise (ClientError code)
      | Raise e => gen_raise e
      | Ok body =>
          let* resp := gen_lift (json_loads_manifest body) in
          let schema := map strip (split_on "," (fileSchema resp)) in
          let* _ :=
            gen_for (files resp)
              (fun _ key => read_data_file s3 inv_bucket schema key) tt in
          gen_ret true
      end
  end.

Definition get_bucket_inventory (s3 : S3) (bucket : string)
  (required_fields : gset string) (prefix : string)
  : gen (event (gmap string string)) unit :=
  let* config :=
    gen_lift (select_config s3 bucket required_fields prefix) in
  let* location := gen_lift (report_location bucket config) in
  let inv_bucket := location.1 in
  let inv_prefix := location.2 in
  let* pages := gen_lift (common_prefix_pages s3 inv_bucket inv_prefix) in
  let reports := list_reports pages in
  let* found := read_reports s3 inv_bucket (rev reports) in
  if found : bool then gen_ret tt
  else gen_raise (Exception (no_data_message (Id config))).

(** *** [s3_list_objects] *)

Definition truthy (flag : option bool) : bool := default false flag.

(** The body of the loop over the rows of the inventory report. *)
Definition inventory_row (prefix : string) (prefix_len : nat)
  (row : gmap string string) : gen (event ObjectRecord) unit :=
  let* quoted := gen_lift (item "Key" (row !! "Key")) in
  let key := unquote quoted in
  if startswith key prefix then
    let* size_text := gen_lift (item "Size" (row !! "Size")) in
    let* size := gen_lift (int_of_str size_text) in
    gen_emit (Yielded {| Key := slice_from prefix_len key;
                         Size := size;
                         StorageClass := default "" (row !! "StorageClass") |})
  else gen_ret tt.

(** The body of the loop over the pages of a direct listing. *)
Definition listing_page (prefix_len : nat)
  (page : option (list ObjectSummary)) : gen (event ObjectRecord) unit :=
  let* contents := gen_lift (item "Contents" page) in
  gen_for contents
    (fun _ cur =>
       gen_emit (Yielded {| Key := slice_from prefix_len (obj_Key cur);
                            Size := obj_Size cur;
                            StorageClass := obj_StorageClass cur |})) tt.

Definition s3_list_objects (opts : Opts) (s3 : S3)
  : gen (event ObjectRecord) unit :=
  let prefix_len := String.length (default "" (s3_prefix opts)) in
  if truthy (s3_inventory opts) then
    let required_fields : gset string :=
      if truthy (s3_cost opts) then {["Size"]} ∪ {["StorageClass"]}
      else {["Size"]} in
    let prefix := default "" (s3_prefix opts) in
    let* bucket := gen_lift (item "s3_bucket" (s3_bucket opts)) in
    gen_pipe (get_bucket_inventory s3 bucket required_fields prefix)
      (fun _ row => inventory_row prefix prefix_len row) tt
  else
    let* bucket := gen_lift (item "s3_bucket" (s3_bucket opts)) in
    gen_for_stream (object_pages s3 bucket (s3_prefix opts))
      (fun _ page => listing_page prefix_len page) tt.

(** *** [get_s3], [get_bucket_location] and the price tables *)

Definition get_s3 (opts : pyobj) : result S3 :=
  match opts with
  | PyOpts o => boto3_s3 (default "" (s3_profile o)) (s3_endpoint o)
  | PyStr s =>
      (* ['s3_endpoint' in opts] on a string looks for a substring *)
      if contains "s3_endpoint" s
      then Raise (TypeError "string indices must be integers")
      else Raise (AttributeError "'str' object has no attribute 'get'")
  end.

Definition get_bucket_location (s3 : S3) (bucket : string)
  : result string :=
  let! location := location_constraint s3 bucket in
  Ok (match location with
      | None => "us-east-1"
      | Some l => if String.eqb l "EU" then "eu-west-1" else l
      end).

Definition unknown_region (region : string) : exn :=
  Exception ("Unknown costs for region " +++ region +++ "!").

(** [{x[key]: float(temp[region][x['desc']]) for x in S3_COST_CLASSES}] *)
Definition price_table (key : CostClass -> string) (region : string)
  : result (gmap string float) :=
  let! prices := item region (pricing_data !! region) in
  result_for S3_COST_CLASSES
    (fun costs x =>
       let! text := item (cc_desc x) (prices !! cc_desc x) in
       let! price := float_of_str text in
       Ok (<[key x := price]> costs))
    ∅.

(** *** [scan_folder], one bucket *)

(** The size, or the cost, of one object. *)
Definition contribution (costs : option (gmap string float))
  (cur : ObjectRecord) : result pynum :=
  match costs with
  | None => Ok (PInt (Size cur))
  | Some costs =>
      (* (<size> / 1 GiB) * <price per GiB> *)
      let! gib := div_GiB (Size cur) in
      let! price := item (StorageClass cur) (costs !! StorageClass cur) in
      Ok (PFloat (gib * price))
  end.

(** The body of the loop over the records; the state is
    [(total_objects, total_size)]. *)
Definition scan_object (costs : option (gmap string float))
  (totals : pynum * pynum) (cur : ObjectRecord)
  : gen (event (list string * value)) (pynum * pynum) :=
  let* size := gen_lift (contribution costs cur) in
  let totals' := (num_add totals.1 (PInt 1), num_add totals.2 size) in
  let* _ := gen_emit (Yielded (split_on "/" (Key cur), Plain size)) in
  gen_ret totals'.

Definition scan_bucket (opts : Opts) (bucket : string)
  : gen (event (list string * value)) (pynum * pynum) :=
  let* s3 := gen_lift (get_s3 (PyOpts opts)) in
  let* costs :=
    if truthy (s3_cost opts) then
      let* location := gen_lift (get_bucket_location s3 bucket) in
      match pricing_data !! location with
      | None => gen_raise (unknown_region location)
      | Some _ =>
          let* costs := gen_lift (price_table cc_s3 location) in
          gen_ret (Some costs)
      end
    else gen_ret None in
  gen_pipe (s3_list_objects opts s3) (scan_object costs) (PInt 0, PInt 0).

(** *** [scan_folder], every bucket *)

(** A dictionary that is iterated: the keys in the order of their
    first insertion. *)
Fixpoint od_alter {V} (f : option V -> V) (k : string)
  (d : list (string * V)) : list (string * V) :=
  match d with
  | [] => [(k, f None)]
  | (k', v) :: d' =>
      if String.eqb k k' then (k', f (Some v)) :: d'
      else (k', v) :: od_alter f k d'
  end.

Fixpoint od_get {V} (k : string) (d : list (string * V)) : option V :=
  match d with
  | [] => None
  | (k', v) :: d' => if String.eqb k k' then Some v else od_get k d'
  end.

Definition with_profile (opts : Opts) (profile : string) : Opts :=
  {| s3_profile := Some profile;
     s3_bucket := s3_bucket opts;
     s3_prefix := s3_prefix opts;
     s3_all_buckets := s3_all_buckets opts;
     s3_cost := s3_cost opts;
     s3_inventory := s3_inventory opts;
     s3_endpoint := s3_endpoint opts |}.

(** [get_profiles]: the copy of the options is made, and the name of
    the profile is what is yielded. *)
Definition get_profiles (opts : Opts) : list pyobj :=
  map (fun cur =>
         let temp := with_profile opts cur in
         PyStr cur)
      (split_on "," (default "" (s3_profile opts))).

(** [get_bucket_location_worker] *)
Definition get_bucket_location_worker (job : pyobj * string)
  : result (string * string) :=
  let '(opts, bucket) := job in
  let! s3 := get_s3 opts in
  let! location := get_bucket_location s3 bucket in
  Ok (bucket, location).

(** The order in which [pool.imap_unordered] hands back the results. *)
Variable imap_order :
  list (result (string * string)) -> list (result (string * string)).

(** A value used as the key of a dictionary. *)
Definition as_key (profile : pyobj) : result string :=
  match profile with
  | PyStr s => Ok s
  | PyOpts _ => Raise (TypeError "unhashable type: 'dict'")
  end.

(** [buckets]: profile, then region, then the buckets found. *)
Definition Buckets : Type := list (string * list (string * list string)).

Definition add_bucket (profile location bucket : string) (buckets : Buckets)
  : Buckets :=
  od_alter
    (fun regions =>
       od_alter (fun found => default [] found ++ [bucket]) location
                (default [] regions))
    profile buckets.

(** The body of [for profile in get_profiles(opts)]. *)
Definition discover_profile (buckets : Buckets) (profile : pyobj)
  : result Buckets :=
  let! s3 := get_s3 profile in
  let! names := list_buckets s3 in
  let jobs := map (fun name => (profile, name)) names in
  result_for (imap_order (map get_bucket_location_worker jobs))
    (fun buckets done =>
       let! found := done in
       let! key := as_key profile in
       Ok (add_bucket key found.2 found.1 buckets))
    buckets.

Definition discover (opts : Opts) : result Buckets :=
  result_for (get_profiles opts) discover_profile [].

(** One query and one result of [get_metric_data].  The namespace
    (AWS/S3), the period (86400) and the statistic (Average) are the same
    in every query.  A timestamp is kept as its [strftime("%Y-%m-%d")],
    the only thing the code reads of it. *)
Record MetricDataQuery := {
  q_Id : string;
  q_MetricName : string;
  q_StorageType : string;
  q_BucketName : string }.

Record MetricDataResult := {
  r_Id : string;
  r_Timestamps : list string;
  r_Values : list float }.

(** [get_cw(profile, region)]: the answer of
    [get_metric_data(MetricDataQueries, StartTime, EndTime)] for the day
    of the scan. *)
Variable get_cw :
  string -> string -> result (list MetricDataQuery -> result (list MetricDataResult)).
(** [start_date.strftime("%Y-%m-%d")] *)
Variable temp_cur : string.

(** Modelled from the spec: [utils.chunks], which is not part of the
    sources at hand; queries are batched at a hard cap of [n] per remote
    call. *)
Fixpoint chunks_upto {A} (fuel : nat) (l : list A) (n : nat)
  : list (list A) :=
  match fuel, l with
  | O, _ | _, [] => []
  | S fuel', _ => take n l :: chunks_upto fuel' (drop n l) n
  end.

Definition chunks {A} (l : list A) (n : nat) : list (list A) :=
  chunks_upto (List.length l) l n.

Definition storages : list (string * string * bool) :=
  map (fun x => (cc_cw x, "BucketSizeBytes", true)) S3_COST_CLASSES
  ++ [("AllStorageTypes", "NumberOfObjects", false)].

(** [stats]: bucket, then storage class (or [_size], [_count]), then the
    number. *)
Definition Stats : Type := list (string * gmap string pynum).

Record Aggregate := {
  stats : Stats;
  bucket_to_region : gmap string string }.

(** The queries for the buckets of one region. *)
Definition region_queries (found : list string)
  : gmap string string * list MetricDataQuery :=
  foldl
    (fun acc bucket =>
       let bucket_ids := <[bucket := fmt_02d (size acc.1)]> acc.1 in
       (bucket_ids,
        acc.2 ++
        map (fun s =>
               {| q_Id := "i" +++ default "" (bucket_ids !! bucket) +++ s.1.1;
                  q_MetricName := s.1.2;
                  q_StorageType := s.1.1;
                  q_BucketName := bucket |})
            storages))
    (∅, []) found.

(** The value of the day of the scan among the observations; [0.0] when
    there is none. *)
Fixpoint day_value (timestamps : list string) (values : list float)
  : result float :=
  match timestamps with
  | [] => Ok 0%float
  | t :: timestamps' =>
      if String.eqb t temp_cur then
        match values with
        | v :: _ => Ok v
        | [] => Raise (IndexError "list index out of range")
        end
      else day_value timestamps' (tail values)
  end.

Definition set_stat (bucket storage : string) (x : pynum) (st : Stats)
  : Stats :=
  od_alter (fun bucket_stats => <[storage := x]> (default ∅ bucket_stats))
           bucket st.

(** The body of [for region in buckets[profile]]. *)
Definition scan_region (profile : string) (agg : Aggregate)
  (entry : string * list string) : result Aggregate :=
  let '(region, found) := entry in
  let! cw := get_cw profile region in
  let to_region :=
    foldl (fun m bucket => <[bucket := region]> m)
          (bucket_to_region agg) found in
  let '(bucket_ids, queries) := region_queries found in
  let! final_metrics :=
    result_for (chunks queries 100)
      (fun final_metrics queries_chunk =>
         let! metrics := cw queries_chunk in
         Ok (foldl (fun m cur => <[r_Id cur := cur]> m) final_metrics metrics))
      (∅ : gmap string MetricDataResult) in
  let! st :=
    result_for found
      (fun st bucket =>
         result_for storages
           (fun st s =>
              let! id := item bucket (bucket_ids !! bucket) in
              let name := "i" +++ id +++ s.1.1 in
              let! temp_metrics := item name (final_metrics !! name) in
              let! value :=
                day_value (r_Timestamps temp_metrics) (r_Values temp_metrics) in
              let! n := int_of_float value in
              Ok (set_stat bucket s.1.1 (PInt n) st))
           st)
      (stats agg) in
  Ok {| stats := st; bucket_to_region := to_region |}.

(** [costs] of a profile: region, then storage class, then the price. *)
Definition profile_costs (opts : Opts) (regions : list string)
  : result (option (gmap string (gmap string float))) :=
  if truthy (s3_cost opts) then
    let! costs :=
      result_for regions
        (fun costs region =>
           match pricing_data !! region with
           | None => Raise (unknown_region region)
           | Some _ =>
               let! table := price_table cc_cw region in
               Ok (<[region := table]> costs)
           end)
        (∅ : gmap string (gmap string float)) in
    Ok (Some costs)
  else Ok None.

(** [x / 1073741824] for a number of the statistics. *)
Definition num_div_GiB (x : pynum) : result float :=
  match x with
  | PInt n => div_GiB n
  | PFloat f => Ok (f / float_of_Z GiB)%float
  end.

(** The summary of one bucket: nothing for one that has its [_count]. *)
Definition summarize (costs : option (gmap string (gmap string float)))
  (to_region : gmap string string) (bucket : string)
  (bucket_stats : gmap string pynum) : result (gmap string pynum) :=
  match bucket_stats !! "_count" with
  | Some _ => Ok bucket_stats
  | None =>
      let! totals :=
        result_for storages
          (fun totals s =>
             let stat := default (PInt 0) (bucket_stats !! s.1.1) in
             if s.2 : bool then
               match costs with
               | None => Ok (num_add totals.1 stat, totals.2)
               | Some costs =>
                   let! gib := num_div_GiB stat in
                   let! region := item bucket (to_region !! bucket) in
                   let! table := item region (costs !! region) in
                   let! price := item s.1.1 (table !! s.1.1) in
                   Ok (num_add totals.1 (PFloat (gib * price)), totals.2)
               end
             else Ok (totals.1, num_add totals.2 stat))
          (PInt 0, PInt 0) in
      Ok (<["_size" := totals.1]> (<["_count" := totals.2]> bucket_stats))
  end.

(** [for bucket, bucket_stats in stats.items()]: the summary of every
    bucket, in place. *)
Fixpoint summarize_all (costs : option (gmap string (gmap string float)))
  (to_region : gmap string string) (st : Stats) : result Stats :=
  match st with
  | [] => Ok []
  | (bucket, bucket_stats) :: st' =>
      let! done := summarize costs to_region bucket bucket_stats in
      let! rest := summarize_all costs to_region st' in
      Ok ((bucket, done) :: rest)
  end.

(** The body of [for profile in buckets]. *)
Definition scan_profile (opts : Opts) (agg : Aggregate)
  (entry : string * list (string * list string)) : result Aggregate :=
  let '(profile, regions) := entry in
  let! agg' := result_for regions (scan_region profile) agg in
  let! costs := profile_costs opts (map fst regions) in
  let! st := summarize_all costs (bucket_to_region agg') (stats agg') in
  Ok {| stats := st; bucket_to_region := bucket_to_region agg' |}.

Definition aggregate (opts : Opts) (buckets : Buckets) : result Aggregate :=
  result_for buckets (scan_profile opts)
    {| stats := []; bucket_to_region := ∅ |}.

(** The body of the closing loop over [stats.items()]. *)
Definition emit_bucket (totals : pynum * pynum)
  (entry : string * gmap string pynum)
  : gen (event (list string * value)) (pynum * pynum) :=
  let '(bucket, bucket_stats) := entry in
  let* size := gen_lift (item "_size" (bucket_stats !! "_size")) in
  if num_pos size then
    let* count := gen_lift (item "_count" (bucket_stats !! "_count")) in
    if num_pos count then
      let* _ := gen_emit (Yielded ([bucket; ""], SizeCount size count)) in
      gen_ret (num_add totals.1 count, num_add totals.2 size)
    else gen_ret totals
  else gen_ret totals.

Definition emit_buckets (st : Stats)
  : gen (event (list string * value)) (pynum * pynum) :=
  gen_for st emit_bucket (PInt 0, PInt 0).

(** What follows the discovery: the statistics of the buckets found,
    then the closing loop. *)
Definition scan_discovered (opts : Opts) (buckets : Buckets)
  : gen (event (list string * value)) (pynum * pynum) :=
  let* agg := gen_lift (aggregate opts buckets) in
  emit_buckets (stats agg).

Definition scan_all_buckets (opts : Opts)
  : gen (event (list string * value)) (pynum * pynum) :=
  let* buckets := gen_lift (discover opts) in
  scan_discovered opts buckets.

(** [scan_folder]: what it yields, and the totals of its closing
    message. *)
Definition scan_folder (opts : Opts)
  : gen (event (list string * value)) (pynum * pynum) :=
  match s3_bucket opts with
  | Some bucket => scan_bucket opts bucket
  | None => scan_all_buckets opts
  end.

End Scan.

(** ** [handle_args], [split] and [join] *)

(** The options, [opts['show_help']] and what has been printed. *)
Record ArgState := {
  arg_opts : Opts;
  show_help : bool;
  printed : list string }.

Definition set_profile (o : Opts) (v : string) : Opts :=
  {| s3_profile := Some v; s3_bucket := s3_bucket o; s3_prefix := s3_prefix o;
     s3_all_buckets := s3_all_buckets o; s3_cost := s3_cost o;
     s3_inventory := s3_inventory o; s3_endpoint := s3_endpoint o |}.

Definition set_bucket (o : Opts) (v : string) : Opts :=
  {| s3_profile := s3_profile o; s3_bucket := Some v; s3_prefix := s3_prefix o;
     s3_all_buckets := s3_all_buckets o; s3_cost := s3_cost o;
     s3_inventory := s3_inventory o; s3_endpoint := s3_endpoint o |}.

Definition set_prefix (o : Opts) (v : string) : Opts :=
  {| s3_profile := s3_profile o; s3_bucket := s3_bucket o; s3_prefix := Some v;
     s3_all_buckets := s3_all_buckets o; s3_cost := s3_cost o;
     s3_inventory := s3_inventory o; s3_endpoint := s3_endpoint o |}.

Definition set_all_buckets (o : Opts) : Opts :=
  {| s3_profile := s3_profile o; s3_bucket := s3_bucket o;
     s3_prefix := s3_prefix o; s3_all_buckets := Some true;
     s3_cost := s3_cost o; s3_inventory := s3_inventory o;
     s3_endpoint := s3_endpoint o |}.

Definition set_cost (o : Opts) : Opts :=
  {| s3_profile := s3_profile o; s3_bucket := s3_bucket o;
     s3_prefix := s3_prefix o; s3_all_buckets := s3_all_buckets o;
     s3_cost := Some true; s3_inventory := s3_inventory o;
     s3_endpoint := s3_endpoint o |}.

Definition set_inventory (o : Opts) : Opts :=
  {| s3_profile := s3_profile o; s3_bucket := s3_bucket o;
     s3_prefix := s3_prefix o; s3_all_buckets := s3_all_buckets o;
     s3_cost := s3_cost o; s3_inventory := Some true;
     s3_endpoint := s3_endpoint o |}.

Definition set_endpoint (o : Opts) (v : string) : Opts :=
  {| s3_profile := s3_profile o; s3_bucket := s3_bucket o;
     s3_prefix := s3_prefix o; s3_all_buckets := s3_all_buckets o;
     s3_cost := s3_cost o; s3_inventory := s3_inventory o;
     s3_endpoint := Some v |}.

(** The [while] loop of [handle_args], entered with [show_help] false:
    the options set and the arguments left. *)
Fixpoint parse_args (o : Opts) (args : list string) : Opts * list string :=
  match args with
  | [] => (o, args)
  | a :: tl =>
      match tl with
      | v :: rest =>
          if String.eqb a "--profile" then parse_args (set_profile o v) rest
          else if String.eqb a "--bucket" then parse_args (set_bucket o v) rest
          else if String.eqb a "--prefix" then parse_args (set_prefix o v) rest
          else if String.eqb a "--all_buckets"
               then parse_args (set_all_buckets o) tl
          else if String.eqb a "--cost" then parse_args (set_cost o) tl
          else if String.eqb a "--inventory"
               then parse_args (set_inventory o) tl
          else if String.eqb a "--endpoint"
               then parse_args (set_endpoint o v) rest
          else (o, args)
      | [] =>
          if String.eqb a "--all_buckets"
          then parse_args (set_all_buckets o) tl
          else if String.eqb a "--cost" then parse_args (set_cost o) tl
          else if String.eqb a "--inventory"
               then parse_args (set_inventory o) tl
          else (o, args)
      end
  end.

(** [key in opts], for the names the exclusion table uses. *)
Definition has_option (o : Opts) (name : string) : bool :=
  if String.eqb name "bucket" then bool_decide (is_Some (s3_bucket o))
  else if String.eqb name "all_buckets"
       then bool_decide (is_Some (s3_all_buckets o))
  else if String.eqb name "prefix" then bool_decide (is_Some (s3_prefix o))
  else if String.eqb name "inventory"
       then bool_decide (is_Some (s3_inventory o))
  else false.

Definition exclusive : list (string * list string) :=
  [("bucket", ["all_buckets"]);
   ("all_buckets", ["bucket"; "prefix"; "inventory"])].

Definition both_message (opt_a opt_b : string) : string :=
  "ERROR: Both " +++ opt_a +++ " and " +++ opt_b
  +++ " specified, options are mutually exclusive".

(** The two nested loops over [exclusive]: the messages of the pairs that
    are both present, in the order of the table. *)
Definition exclusive_errors (o : Opts) : list string :=
  flat_map
    (fun entry =>
       flat_map
         (fun opt_b =>
            if has_option o entry.1 && has_option o opt_b
            then [both_message entry.1 opt_b] else [])
         entry.2)
    exclusive.

(** The [elif] chain, reached when [show_help] is set after the loop. *)
Definition help_errors (o : Opts) : list string :=
  if negb (bool_decide (is_Some (s3_bucket o)))
     && negb (bool_decide (is_Some (s3_all_buckets o)))
  then ["ERROR: Neither bucket or all_buckets specified"]
  else if bool_decide (is_Some (s3_endpoint o))
          && bool_decide (is_Some (s3_inventory o))
  then ["ERROR: AWS S3 Inventory not supported with custom endpoints"]
  else if bool_decide (is_Some (s3_endpoint o))
          && bool_decide (is_Some (s3_cost o))
  then ["ERROR: AWS S3 cost not supported with custom endpoints"]
  else if bool_decide (is_Some (s3_endpoint o))
          && bool_decide (is_Some (s3_all_buckets o))
  then ["ERROR: AWS S3 bucket list not supported with custom endpoints"]
  else [].

(** [handle_args(opts, args)]: the state of the options afterwards and the
    arguments it returns.  [imports_ok] is [IMPORTS_OK]. *)
Definition handle_args (imports_ok : bool) (st : ArgState)
  (args : list string) : ArgState * list string :=
  let st1 :=
    if imports_ok then st
    else {| arg_opts := arg_opts st; show_help := true;
            printed := printed st
              ++ ["ERROR: Unable to import boto3, unable to call S3 APIs!"] |} in
  let '(o, remaining) :=
    if show_help st1 then (arg_opts st1, args)
    else parse_args (arg_opts st1) args in
  if negb (show_help st1) then
    let errors := exclusive_errors o in
    ({| arg_opts := o;
        show_help := negb (bool_decide (errors = []));
        printed := printed st1 ++ errors |}, remaining)
  else
    ({| arg_opts := o; show_help := true;
        printed := printed st1 ++ help_errors o |}, remaining).

(** [split(path)] and [join(path)], of both abstractions. *)
Definition split_path (path : string) : list string := split_on "/" path.

Definition join_path (path : list string) : string := join "/" path.

(** * The vocabulary of the properties, and the scenarios *)

(** ** What the properties speak of *)

(** *** The selector *)

(** A configuration with the three properties the loop checks. *)
Definition compatible (required_fields : gset string) (prefix : string)
  (cur : InventoryConfiguration) : Prop :=
  (exists dest, Destination cur = Some dest /\ dest_Format dest = Some "CSV")
  /\ (exists fields, OptionalFields cur = Some fields
                     /\ required_fields ⊆ list_to_set fields)
  /\ String.prefix (config_prefix cur) prefix = true.

(** The configurations the loop keeps: those of the listing for which
    [is_valid] answers [True], in the order of the listing. *)
Definition kept (required_fields : gset string) (prefix : string)
  (cur : InventoryConfiguration) : bool :=
  match is_valid required_fields prefix cur with
  | Ok true => true
  | _ => false
  end.

(** The configurations that survive the checks of the loop. *)
Definition survivors (s3 : S3) (bucket : string)
  (required_fields : gset string) (prefix : string)
  : list InventoryConfiguration :=
  List.filter (kept required_fields prefix)
    (fst (list_bucket_inventory_configurations s3 bucket)).

(** *** The reader *)

(** The answer of the service is "no such key". *)
Definition no_such_key (s3 : S3) (inv_bucket report : string) : Prop :=
  get_object s3 inv_bucket report = Raise (ClientError "NoSuchKey").

(** A name of the form [YYYY-MM-DDTHH-MMZ/]: a digit where the form has
    one of the letters Y, M, D, H, and the character of the form
    elsewhere. *)
Definition placeholder (c : ascii) : bool :=
  Ascii.eqb c "Y" || Ascii.eqb c "M" || Ascii.eqb c "D" || Ascii.eqb c "H".

Arguments placeholder : simpl never.

Fixpoint fits (form name : string) : bool :=
  match form, name with
  | EmptyString, EmptyString => true
  | String f form', String c name' =>
      (if placeholder f then is_digit c else Ascii.eqb c f) && fits form' name'
  | _, _ => false
  end.

Definition is_timestamp_name (name : string) : bool :=
  fits "YYYY-MM-DDTHH-MMZ/" name.

(** The name of a listed folder: what follows the last separator before
    the closing one. *)
Definition folder_name (folder : string) : string :=
  match rev (split_on "/" folder) with
  | _ :: name :: _ => name +++ "/"
  | _ => folder
  end.

Definition atom_of_form (f : ascii) : atom :=
  if placeholder f then Digit else Lit f.

(** The digits of [s], read as a decimal number after [acc]; the other
    characters are passed over. *)
Fixpoint digits_number (s : string) (acc : Z) : Z :=
  match s with
  | EmptyString => acc
  | String c s' =>
      digits_number s'
        (if is_digit c then 10 * acc + (Z.of_nat (nat_of_ascii c) - 48)
         else acc)
  end.

(** [s[-n:]], for [n] positive. *)
Definition last_chars (n : nat) (s : string) : string :=
  slice_from (String.length s - n) s.

(** The time a batch folder is named after: the timestamp that closes
    its path, eighteen characters, read as the number YYYYMMDDHHMM. *)
Definition batch_time (folder : string) : Z :=
  digits_number (last_chars 18 folder) 0.

(** The order in which S3 lists keys and common prefixes: ascending, byte
    by byte. *)
Definition key_order (keys : list string) : Prop :=
  StronglySorted (fun a b => String.leb a b = true) keys.

(** From the newest batch to the oldest. *)
Definition newest_first (folders : list string) : Prop :=
  StronglySorted (fun newer older => batch_time older <= batch_time newer)
    folders.

(** The number of digits a form asks for, and a form in which no
    character that stands for itself is a digit. *)
Fixpoint form_digits (form : string) : Z :=
  match form with
  | EmptyString => 0
  | String f form' => (if placeholder f then 1 else 0) + form_digits form'
  end.

Fixpoint form_ok (form : string) : bool :=
  match form with
  | EmptyString => true
  | String f form' => (placeholder f || negb (is_digit f)) && form_ok form'
  end.

(** *** The lister and the loop of the single-bucket scan *)

(** What the specification says a row gives: one record when its
    decoded key starts with the prefix, nothing otherwise. *)
Inductive row_gives (int_of_str : string -> result Z)
  (unquote : string -> string) (prefix : string) (row : gmap string string)
  : list ObjectRecord -> Prop :=
| row_emitted quoted text size :
    row !! "Key" = Some quoted ->
    String.prefix prefix (unquote quoted) = true ->
    row !! "Size" = Some text ->
    int_of_str text = Ok size ->
    row_gives int_of_str unquote prefix row
      [{| Key := slice_from (String.length prefix) (unquote quoted);
          Size := size;
          StorageClass := default "" (row !! "StorageClass") |}]
| row_dropped quoted :
    row !! "Key" = Some quoted ->
    String.prefix prefix (unquote quoted) = false ->
    row_gives int_of_str unquote prefix row [].

(** The fields [s3_list_objects] asks of the report. *)
Definition fields_needed (opts : Opts) : gset string :=
  if truthy (s3_cost opts) then {["Size"]} ∪ {["StorageClass"]}
  else {["Size"]}.

(** What the scan yields for a record whose size or cost is [v]. *)
Definition pair_of (cur : ObjectRecord) (v : pynum) : list string * value :=
  (split_on "/" (Key cur), Plain v).

(** The float [q] is the number [n / 2 ^ k], with no rounding: read as a
    sign, a mantissa and an exponent, [q] times [2 ^ k] is [n]. *)
Definition is_quotient_pow2 (q : float) (n k : Z) : Prop :=
  match Prim2SF q with
  | S754_zero s => s = false /\ n = 0
  | S754_finite s m e =>
      e <= 0 /\ (if s then - Z.pos m else Z.pos m) * 2 ^ k = n * 2 ^ (- e)
  | _ => False
  end.

(** [total_objects += 1; total_size += size] *)
Definition add_totals (totals : pynum * pynum) (v : pynum) : pynum * pynum :=
  (num_add totals.1 (PInt 1), num_add totals.2 v).

(** *** The account-wide scan *)

(** What [get_s3] raises when it is handed the name of a profile. *)
Definition get_s3_on_name (profile : string) : exn :=
  if contains "s3_endpoint" profile
  then TypeError "string indices must be integers"
  else AttributeError "'str' object has no attribute 'get'".

(** A bucket whose summary has been made. *)
Definition finalized (entry : string * gmap string pynum) : Prop :=
  is_Some (entry.2 !! "_size") /\ is_Some (entry.2 !! "_count").

Definition final_size (entry : string * gmap string pynum) : pynum :=
  default (PInt 0) (entry.2 !! "_size").

Definition final_count (entry : string * gmap string pynum) : pynum :=
  default (PInt 0) (entry.2 !! "_count").

Definition both_positive (entry : string * gmap string pynum) : bool :=
  num_pos (final_size entry) && num_pos (final_count entry).

Definition bucket_pair (entry : string * gmap string pynum)
  : list string * value :=
  ([entry.1; ""], SizeCount (final_size entry) (final_count entry)).

(** [total_objects += _count; total_size += _size] *)
Definition add_bucket_totals (totals : pynum * pynum)
  (entry : string * gmap string pynum) : pynum * pynum :=
  (num_add totals.1 (final_count entry), num_add totals.2 (final_size entry)).

(** The [_size] or [_count] of a bucket in the statistics. *)
Definition marker (st : Stats) (bucket key : string) : option pynum :=
  od_get bucket st ≫= (fun bucket_stats => bucket_stats !! key).

(** No cost class is named like one of the two summary fields. *)
Definition reserved_free (classes : list CostClass) : Prop :=
  Forall (fun x => cc_cw x <> "_count" /\ cc_cw x <> "_size") classes.

(** A bucket with a [_count] has a [_size]. *)
Definition consistent (bucket_stats : gmap string pynum) : Prop :=
  is_Some (bucket_stats !! "_count") -> is_Some (bucket_stats !! "_size").

(** The summaries of an aggregate: bucket, [_size], [_count]. *)
Definition summaries (agg : result Aggregate)
  : list (string * option pynum * option pynum) :=
  match agg with
  | Ok agg => map (fun entry => (entry.1, entry.2 !! "_size", entry.2 !! "_count"))
                  (stats agg)
  | Raise _ => []
  end.

(** The statistics of a bucket at the end of the aggregation. *)
Definition final_stat (agg : result Aggregate) (bucket key : string)
  : option pynum :=
  match agg with
  | Ok agg => marker (stats agg) bucket key
  | Raise _ => None
  end.

(** ** Scenarios *)

(** *** Inventory configurations and reports *)

(** Scenario B: two configurations, both with the required fields. *)
Definition csv_destination : S3BucketDestination :=
  {| dest_Bucket := Some "arn:aws:s3:::inventory";
     dest_Prefix := Some "inv";
     dest_Format := Some "CSV" |}.

Definition config_weekly_all : InventoryConfiguration :=
  {| Id := "whole";
     IsEnabled := true;
     Destination := Some csv_destination;
     OptionalFields := Some ["Size"; "StorageClass"; "ETag"];
     Filter_Prefix := Some "";
     Schedule_Frequency := Some "Weekly";
     IncludedObjectVersions := Some "All" |}.

Definition config_daily_data : InventoryConfiguration :=
  {| Id := "data";
     IsEnabled := true;
     Destination := Some csv_destination;
     OptionalFields := Some ["Size"; "StorageClass"];
     Filter_Prefix := Some "data/";
     Schedule_Frequency := Some "Daily";
     IncludedObjectVersions := Some "Current" |}.

(** A client that lists the given configurations, in one page, and
    answers nothing else. *)
Definition s3_listing (configs : list InventoryConfiguration) : S3 :=
  {| inventory_pages := fun _ => ([configs], None);
     common_prefix_pages := fun _ _ => Ok [];
     object_pages := fun _ _ => ([], None);
     get_object := fun _ _ => Raise (ClientError "NoSuchKey");
     location_constraint := fun _ => Ok None;
     list_buckets := Ok [] |}.

Definition size_and_class : gset string := {["Size"]} ∪ {["StorageClass"]}.

Definition demo_manifest : Manifest :=
  {| creationTimestamp := 1704153600000;
     fileSchema := "Bucket, Key, Size";
     files := ["inv/b/data/data/part-1.csv.gz"] |}.

Definition demo_json_loads (body : string) : result Manifest :=
  if String.eqb body "manifest" then Ok demo_manifest
  else Raise (ValueError "Expecting value").

Definition demo_read_csv_gz (body : string) : stream (list string) :=
  if String.eqb body "part-1"
  then ([["b"; "data/a%20b"; "100"];
         ["b"; "other/c"; "7"];
         ["b"; "data/sub/b"; "50"]], None)
  else ([], Some (RemoteError "Not a gzipped file")).

(** A bucket [b] with two configurations and two report batches, of which
    the newest has no manifest yet. *)
Definition inventory_s3 : S3 :=
  {| inventory_pages := fun _ => ([[config_weekly_all; config_daily_data]], None);
     common_prefix_pages := fun _ _ =>
       Ok [["inv/b/data/2024-01-01T00-00Z/"; "inv/b/data/2024-01-02T00-00Z/";
            "inv/b/data/data/"; "inv/b/data/hive/"]];
     object_pages := fun _ _ => ([], None);
     get_object := fun _ key =>
       if String.eqb key "inv/b/data/2024-01-01T00-00Z/manifest.json"
       then Ok "manifest"
       else if String.eqb key "inv/b/data/data/part-1.csv.gz" then Ok "part-1"
       else Raise (ClientError "NoSuchKey");
     location_constraint := fun _ => Ok None;
     list_buckets := Ok ["b"] |}.

(** The bucket of [inventory_s3] before any manifest is written. *)
Definition pending_s3 : S3 :=
  {| inventory_pages := inventory_pages inventory_s3;
     common_prefix_pages := common_prefix_pages inventory_s3;
     object_pages := object_pages inventory_s3;
     get_object := fun _ _ => Raise (ClientError "NoSuchKey");
     location_constraint := location_constraint inventory_s3;
     list_buckets := list_buckets inventory_s3 |}.

(** The bucket [b] with a batch of June and a batch of January that has
    been renamed; both have their manifest. *)
Definition june_folder : string := "inv/b/data/2024-06-01T00-00Z/".

Definition renamed_folder : string := "inv/b/data/old-2024-01-01T00-00Z/".

Definition mixed_s3 : S3 :=
  {| inventory_pages := inventory_pages inventory_s3;
     common_prefix_pages := fun _ _ => Ok [[june_folder; renamed_folder]];
     object_pages := object_pages inventory_s3;
     get_object := fun _ key =>
       if String.eqb key (june_folder +++ "manifest.json") then Ok "manifest"
       else if String.eqb key (renamed_folder +++ "manifest.json")
            then Ok "manifest"
       else if String.eqb key "inv/b/data/data/part-1.csv.gz" then Ok "part-1"
       else Raise (ClientError "NoSuchKey");
     location_constraint := location_constraint inventory_s3;
     list_buckets := list_buckets inventory_s3 |}.

Definition newest_manifest : string :=
  "inv/b/data/2024-01-02T00-00Z/manifest.json".

Definition older_manifest : string :=
  "inv/b/data/2024-01-01T00-00Z/manifest.json".

(** *** Objects, prices and options *)

(** One cost class and its price in one region. *)
Definition demo_classes : list CostClass :=
  [{| cc_s3 := "STANDARD"; cc_cw := "StandardStorage"; cc_desc := "Standard" |}].

Definition demo_pricing : gmap string (gmap string string) :=
  {["us-east-1" := {["Standard" := "0.023"]}]}.

Definition demo_float_of_str (text : string) : result float :=
  if String.eqb text "0.023" then Ok 0.023%float
  else Raise (ValueError "could not convert string to float").

(** Decimal digits, with an optional sign. *)
Fixpoint digits_value (s : string) (acc : Z) : option Z :=
  match s with
  | EmptyString => Some acc
  | String c s' =>
      if is_digit c
      then digits_value s' (10 * acc + Z.of_nat (nat_of_ascii c) - 48)
      else None
  end.

Definition demo_int_of_str (text : string) : result Z :=
  let bad := Raise (ValueError "invalid literal for int() with base 10") in
  match text with
  | EmptyString => bad
  | String "-" digits =>
      match digits, digits_value digits 0 with
      | String _ _, Some n => Ok (- n)
      | _, _ => bad
      end
  | _ => match digits_value text 0 with Some n => Ok n | None => bad end
  end.

(** Percent-decoding of the escapes [%20] and [%2F]; enough for the keys
    of the scenarios. *)
Fixpoint demo_unquote (s : string) : string :=
  match s with
  | String "%" (String "2" (String "0" s')) => String " " (demo_unquote s')
  | String "%" (String "2" (String "F" s')) => String "/" (demo_unquote s')
  | String c s' => String c (demo_unquote s')
  | EmptyString => EmptyString
  end.

(** A bucket whose listing is one page with the given objects. *)
Definition listing_s3 (objects : list ObjectSummary) : S3 :=
  {| inventory_pages := fun _ => ([], None);
     common_prefix_pages := fun _ _ => Ok [];
     object_pages := fun _ _ => ([Some objects], None);
     get_object := fun _ _ => Raise (ClientError "NoSuchKey");
     location_constraint := fun _ => Ok None;
     list_buckets := Ok ["b"] |}.

Definition priced_and_unpriced : list ObjectSummary :=
  [{| obj_Key := "a"; obj_Size := 1073741824; obj_StorageClass := "STANDARD" |};
   {| obj_Key := "b"; obj_Size := 5; obj_StorageClass := "GLACIER" |}].

Definition one_GiB_object : ObjectRecord :=
  {| Key := "one"; Size := 1073741824; StorageClass := "STANDARD" |}.

Definition two_GiB_object : ObjectRecord :=
  {| Key := "two"; Size := 2147483648; StorageClass := "STANDARD" |}.

Definition no_opts : Opts :=
  {| s3_profile := None; s3_bucket := None; s3_prefix := None;
     s3_all_buckets := None; s3_cost := None; s3_inventory := None;
     s3_endpoint := None |}.

Definition bucket_opts (prefix : option string) (cost inventory : option bool)
  : Opts :=
  {| s3_profile := None; s3_bucket := Some "b"; s3_prefix := prefix;
     s3_all_buckets := None; s3_cost := cost; s3_inventory := inventory;
     s3_endpoint := None |}.

Definition two_profiles : Opts :=
  {| s3_profile := Some "dev,prod"; s3_bucket := None; s3_prefix := None;
     s3_all_buckets := Some true; s3_cost := None; s3_inventory := None;
     s3_endpoint := None |}.

(** *** CloudWatch and the scans *)

Definition no_cw (profile region : string) (queries : list MetricDataQuery)
  : result (list MetricDataResult) := Ok [].

(** [scan_folder] in the world of the scenarios: every profile sees the
    client [s3]; CloudWatch answers through [cw]. *)
Definition demo_scan (s3 : S3)
  (cw : string -> string -> list MetricDataQuery -> result (list MetricDataResult))
  (opts : Opts) : gen (event (list string * value)) (pynum * pynum) :=
  scan_folder demo_classes demo_pricing demo_float_of_str demo_int_of_str
    demo_unquote demo_json_loads demo_read_csv_gz (fun _ _ => Ok s3)
    (fun results => results) (fun profile region => Ok (cw profile region))
    "2024-01-01" opts.

(** The answers of CloudWatch in the scenarios: for each query, the value
    of the day before and the value of the day of the scan. *)
Definition demo_metric (profile bucket storage : string) : float :=
  let bytes := String.eqb storage "StandardStorage" in
  if String.eqb bucket "shared" then
    if String.eqb profile "p1" then (if bytes then 100 else 3)%float
    else (if bytes then 999 else 9)%float
  else if String.eqb bucket "sizeonly" then (if bytes then 100 else 0)%float
  else if String.eqb bucket "countonly" then (if bytes then 0 else 4)%float
  else if String.eqb bucket "own" then (if bytes then 50 else 2)%float
  else 0%float.

Definition demo_cw (profile region : string) (queries : list MetricDataQuery)
  : result (list MetricDataResult) :=
  Ok (map (fun q =>
             {| r_Id := q_Id q;
                r_Timestamps := ["2023-12-31"; "2024-01-01"];
                r_Values := [1%float;
                             demo_metric profile (q_BucketName q)
                                         (q_StorageType q)] |})
          queries).

(** The account-wide scan of the scenarios from the buckets found. *)
Definition demo_scan_discovered (opts : Opts) (buckets : Buckets)
  : gen (event (list string * value)) (pynum * pynum) :=
  scan_discovered demo_classes demo_pricing demo_float_of_str
    (fun profile region => Ok (demo_cw profile region)) "2024-01-01"
    opts buckets.

Definition demo_aggregate (opts : Opts) (buckets : Buckets)
  : result Aggregate :=
  aggregate demo_classes demo_pricing demo_float_of_str
    (fun profile region => Ok (demo_cw profile region)) "2024-01-01"
    opts buckets.

(** The bucket [shared] is seen by two profiles, and CloudWatch gives
    the second one other numbers than the first. *)
Definition shared_buckets : Buckets :=
  [("p1", [("us-east-1", ["shared"])]);
   ("p2", [("us-east-1", ["shared"; "own"])])].

(** ** What the further properties speak of *)

(** The character [c] occurs in [s]. *)
Fixpoint has_char (c : ascii) (s : string) : bool :=
  match s with
  | EmptyString => false
  | String c' s' => Ascii.eqb c' c || has_char c s'
  end.

(** One turn of the loop of [handle_args]: the option set and the
    arguments left, or [None] when the loop breaks. *)
Definition parse_step (o : Opts) (args : list string)
  : option (Opts * list string) :=
  match args with
  | [] => None
  | a :: tl =>
      if String.eqb a "--all_buckets" then Some (set_all_buckets o, tl)
      else if String.eqb a "--cost" then Some (set_cost o, tl)
      else if String.eqb a "--inventory" then Some (set_inventory o, tl)
      else
        match tl with
        | [] => None
        | v :: rest =>
            if String.eqb a "--profile" then Some (set_profile o v, rest)
            else if String.eqb a "--bucket" then Some (set_bucket o v, rest)
            else if String.eqb a "--prefix" then Some (set_prefix o v, rest)
            else if String.eqb a "--endpoint"
                 then Some (set_endpoint o v, rest)
            else None
        end
  end.

(** An option [handle_args] knows: the arguments it takes at the front
    of the list, and what it sets. *)
Inductive known_option : list string -> (Opts -> Opts) -> Prop :=
| opt_profile v : known_option ["--profile"; v] (fun o => set_profile o v)
| opt_bucket v : known_option ["--bucket"; v] (fun o => set_bucket o v)
| opt_prefix v : known_option ["--prefix"; v] (fun o => set_prefix o v)
| opt_all_buckets : known_option ["--all_buckets"] set_all_buckets
| opt_cost : known_option ["--cost"] set_cost
| opt_inventory : known_option ["--inventory"] set_inventory
| opt_endpoint v : known_option ["--endpoint"; v] (fun o => set_endpoint o v).

(** A run of known options: the arguments they take, one option after
    the other, and the options once each has been set in turn. *)
Inductive known_options : Opts -> list string -> Opts -> Prop :=
| options_none o : known_options o [] o
| options_cons o taken set rest o' :
    known_option taken set ->
    known_options (set o) rest o' ->
    known_options o (taken ++ rest) o'.

(** The list starts with a known option (and with its value, when it
    takes one). *)
Definition starts_with_option (args : list string) : Prop :=
  exists taken set rest, known_option taken set /\ args = taken ++ rest.

(** Every option of [o] is an option of [o']. *)
Definition options_kept (o o' : Opts) : Prop :=
  (is_Some (s3_profile o) -> is_Some (s3_profile o'))
  /\ (is_Some (s3_bucket o) -> is_Some (s3_bucket o'))
  /\ (is_Some (s3_prefix o) -> is_Some (s3_prefix o'))
  /\ (is_Some (s3_all_buckets o) -> is_Some (s3_all_buckets o'))
  /\ (is_Some (s3_cost o) -> is_Some (s3_cost o'))
  /\ (is_Some (s3_inventory o) -> is_Some (s3_inventory o'))
  /\ (is_Some (s3_endpoint o) -> is_Some (s3_endpoint o')).

(** The schedule of a configuration is daily; its versions are the
    current ones; its optional fields. *)
Definition is_daily (cur : InventoryConfiguration) : bool :=
  String.eqb (default "" (Schedule_Frequency cur)) "Daily".

Definition is_current (cur : InventoryConfiguration) : bool :=
  String.eqb (default "" (IncludedObjectVersions cur)) "Current".

Definition field_count (cur : InventoryConfiguration) : nat :=
  List.length (default [] (OptionalFields cur)).

(** The text of the "Unable to find S3 Inventory report" error when the
    set of the required fields is iterated in the order [fields]. *)
Definition no_config_text (bucket prefix : string) (fields : list string)
  : string :=
  "Unable to find S3 Inventory report for '" +++ bucket +++ "'"
  +++ (if (0 <? String.length prefix)%nat
       then ", that includes at least the prefix '" +++ prefix +++ "'"
       else "")
  +++ ", in the CSV format"
  +++ (if (0 <? List.length fields)%nat
       then ", with the optional fields of " +++ quoted_list fields
       else "").

(** [is_valid] raises on no configuration of the list: each one that has
    the CSV format has its [OptionalFields]. *)
Definition well_formed (configs : list InventoryConfiguration) : Prop :=
  Forall (fun cur => config_format cur = "CSV" -> is_Some (OptionalFields cur))
         configs.

(** Scenario: a second configuration for [data/], with a weekly
    schedule. *)
Definition config_weekly_data : InventoryConfiguration :=
  {| Id := "data-weekly";
     IsEnabled := true;
     Destination := Some csv_destination;
     OptionalFields := Some ["Size"; "StorageClass"];
     Filter_Prefix := Some "data/";
     Schedule_Frequency := Some "Weekly";
     IncludedObjectVersions := Some "Current" |}.

(** The record [s3_list_objects] makes of a listed object. *)
Definition listed_record (prefix_len : nat) (cur : ObjectSummary)
  : ObjectRecord :=
  {| Key := slice_from prefix_len (obj_Key cur);
     Size := obj_Size cur;
     StorageClass := obj_StorageClass cur |}.

(** The options of a scan of one bucket by direct listing, by size. *)
Definition listing_opts (prefix : option string) : Opts :=
  bucket_opts prefix None None.

Definition two_objects : list ObjectSummary :=
  [{| obj_Key := "data/a"; obj_Size := 100; obj_StorageClass := "STANDARD" |};
   {| obj_Key := "data/sub/b"; obj_Size := 50; obj_StorageClass := "STANDARD" |}].

(** The events of a data file that is read to its end. *)
Definition file_events (inv_bucket : string) (schema : list string)
  (key : string) (rows : list (list string))
  : list (event (gmap string string)) :=
  Fetched inv_bucket key
  :: map (fun row => Yielded (row_dict schema row)) rows.

(** The integer kept for a metric of a bucket; [0] when there is none. *)
Definition int_stat (bucket_stats : gmap string pynum) (key : string) : Z :=
  match bucket_stats !! key with
  | Some (PInt n) => n
  | _ => 0
  end.

(** Every statistic of the bucket is an integer, as [scan_folder] stores
    them. *)
Definition all_ints (bucket_stats : gmap string pynum) : Prop :=
  forall key f, bucket_stats !! key <> Some (PFloat f).

(** * Properties *)

(** ** The result and generator monads *)

Lemma result_bind_Ok {A B} (m : result A) (k : A -> result B) (b : B) :
  result_bind m k = Ok b -> exists a, m = Ok a /\ k a = Ok b.
Proof. destruct m as [a|e]; simpl; [eauto | discriminate]. Qed.

Lemma gen_bind_Ok {E A B} (evs : list E) (a : A) (k : A -> gen E B) :
  gen_bind (evs, Ok a) k = (evs ++ fst (k a), snd (k a)).
Proof. simpl. now destruct (k a). Qed.

Lemma gen_bind_Raise {E A B} (evs : list E) (e : exn) (k : A -> gen E B) :
  gen_bind (evs, Raise e) k = (evs, Raise e).
Proof. reflexivity. Qed.

Lemma gen_bind_emit {E B} (ev : E) (k : unit -> gen E B) :
  gen_bind (gen_emit ev) k = (ev :: fst (k tt), snd (k tt)).
Proof. unfold gen_emit. now rewrite gen_bind_Ok. Qed.

Lemma gen_bind_lift_Ok {E A B} (a : A) (k : A -> gen E B) :
  gen_bind (gen_lift (Ok a)) k = k a.
Proof. unfold gen_lift. rewrite gen_bind_Ok. now destruct (k a). Qed.

Lemma gen_bind_ret {E A B} (a : A) (k : A -> gen E B) :
  gen_bind (gen_ret a) k = k a.
Proof. apply gen_bind_lift_Ok. Qed.

Lemma yields_app {A} (evs evs' : list (event A)) :
  yields (evs ++ evs') = yields evs ++ yields evs'.
Proof. apply omap_app. Qed.

Lemma yields_map {A} (l : list A) : yields (map Yielded l) = l.
Proof. induction l; simpl; [reflexivity|]. now f_equal. Qed.

Ltac invert_bind H :=
  let a := fresh "a" in
  let Ha := fresh "Ha" in
  apply result_bind_Ok in H; destruct H as (a & Ha & H).

(** ** Strings *)

Lemma prefix_slice (p s : string) :
  String.prefix p s = true -> p +++ slice_from (String.length p) s = s.
Proof.
  revert s. induction p as [|c p IH]; intros s H.
  - reflexivity.
  - destruct s as [|c' s]; simpl in H; [discriminate|].
    destruct (Ascii.ascii_dec c c') as [->|]; [|discriminate].
    change (String c' (p +++ slice_from (String.length p) s) = String c' s).
    f_equal. auto.
Qed.

(** ** C1, C2: the selector *)

Lemma key_ltb_spec (k1 k2 : Z * Z * Z * Z) :
  key_ltb k1 k2 = true <->
  let '(a1, b1, c1, d1) := k1 in
  let '(a2, b2, c2, d2) := k2 in
  a1 < a2 \/ a1 = a2 /\ (b1 < b2 \/ b1 = b2 /\ (c1 < c2 \/ c1 = c2 /\ d1 < d2)).
Proof.
  destruct k1 as [[[a1 b1] c1] d1], k2 as [[[a2 b2] c2] d2]. unfold key_ltb.
  destruct (Z.ltb_spec a1 a2), (Z.eqb_spec a1 a2), (Z.ltb_spec b1 b2),
    (Z.eqb_spec b1 b2), (Z.ltb_spec c1 c2), (Z.eqb_spec c1 c2),
    (Z.ltb_spec d1 d2); simpl; split; intros; try lia; try discriminate;
    reflexivity.
Qed.

Lemma key_ltb_asym k1 k2 : key_ltb k1 k2 = true -> key_ltb k2 k1 = false.
Proof.
  intros H. apply not_true_is_false. intros H'.
  apply key_ltb_spec in H, H'.
  destruct k1 as [[[a1 b1] c1] d1], k2 as [[[a2 b2] c2] d2]. lia.
Qed.

Lemma key_ltb_negtrans k1 k2 k3 :
  key_ltb k2 k1 = false -> key_ltb k3 k2 = false -> key_ltb k3 k1 = false.
Proof.
  intros H1 H2. apply not_true_is_false. intros H3.
  apply not_true_iff_false in H1, H2.
  rewrite key_ltb_spec in H1, H2, H3.
  destruct k1 as [[[a1 b1] c1] d1], k2 as [[[a2 b2] c2] d2],
           k3 as [[[a3 b3] c3] d3]. lia.
Qed.

Lemma key_ltb_first k1 k2 :
  key_ltb k1 k2 = false -> k2.1.1.1 <= k1.1.1.1.
Proof.
  intros H. apply not_true_iff_false in H. rewrite key_ltb_spec in H.
  destruct k1 as [[[a1 b1] c1] d1], k2 as [[[a2 b2] c2] d2]. simpl. lia.
Qed.

Section Sorting.
Context {A : Type} (key : A -> Z * Z * Z * Z).

Lemma insert_sorted_perm x l : Permutation (insert_sorted key x l) (x :: l).
Proof.
  induction l as [|y l IH]; simpl; [reflexivity|].
  destruct (key_ltb (key y) (key x)); [|reflexivity].
  rewrite IH. apply perm_swap.
Qed.

Lemma sort_by_perm l : Permutation (sort_by key l) l.
Proof.
  induction l as [|x l IH]; simpl; [reflexivity|].
  rewrite insert_sorted_perm. now constructor.
Qed.

(** No element of the list has a key smaller than the first of the
    sorted list. *)
Lemma sort_by_head_least l h t :
  sort_by key l = h :: t ->
  forall y, In y l -> key_ltb (key y) (key h) = false.
Proof.
  revert h t. induction l as [|x l IH]; intros h t Hs y Hy; [destruct Hy|].
  simpl in Hs. destruct (sort_by key l) as [|h' t'] eqn:Hl.
  - assert (l = []) as ->.
    { apply Permutation_nil. rewrite <- Hl. apply sort_by_perm. }
    simpl in Hs. injection Hs as <- <-. destruct Hy as [<-|[]].
    destruct (key_ltb (key x) (key x)) eqn:E; [|reflexivity].
    now rewrite (key_ltb_asym _ _ E) in E.
  - simpl in Hs. destruct (key_ltb (key h') (key x)) eqn:E.
    + injection Hs as <- <-. destruct Hy as [<-|Hy].
      * now apply key_ltb_asym.
      * eapply IH; eauto.
    + injection Hs as <- <-. destruct Hy as [<-|Hy].
      * destruct (key_ltb (key x) (key x)) eqn:E'; [|reflexivity].
        now rewrite (key_ltb_asym _ _ E') in E'.
      * eapply key_ltb_negtrans; [exact E|]. eapply IH; eauto.
Qed.

Lemma sort_by_head_in l h t : sort_by key l = h :: t -> In h l.
Proof.
  intros H. eapply Permutation_in; [apply sort_by_perm|].
  rewrite H. now left.
Qed.

Lemma sort_by_nil l : sort_by key l = [] -> l = [].
Proof.
  intros H. apply Permutation_nil. rewrite <- H. apply sort_by_perm.
Qed.

(** [sort_by] is the stable sort: its result is in the order of the keys,
    and the elements of one key are in the order they had. *)
Lemma insert_sorted_sorted x l :
  StronglySorted (fun a b => key_ltb (key b) (key a) = false) l ->
  StronglySorted (fun a b => key_ltb (key b) (key a) = false)
                 (insert_sorted key x l).
Proof.
  induction 1 as [|y l Hl IH Hy]; simpl.
  - repeat constructor.
  - destruct (key_ltb (key y) (key x)) eqn:E.
    + constructor; [exact IH|].
      eapply Permutation_Forall; [symmetry; apply insert_sorted_perm|].
      constructor; [now apply key_ltb_asym|exact Hy].
    + constructor; [now constructor|].
      constructor; [exact E|].
      eapply List.Forall_impl; [|exact Hy].
      intros z Hz. eapply key_ltb_negtrans; eauto.
Qed.

Lemma sort_by_sorted l :
  StronglySorted (fun a b => key_ltb (key b) (key a) = false) (sort_by key l).
Proof.
  induction l as [|x l IH]; simpl; [constructor|].
  now apply insert_sorted_sorted.
Qed.

Lemma insert_sorted_stable k x l :
  List.filter (fun y => bool_decide (key y = k)) (insert_sorted key x l)
  = List.filter (fun y => bool_decide (key y = k)) (x :: l).
Proof.
  induction l as [|y l IH]; [reflexivity|].
  cbn [insert_sorted]. destruct (key_ltb (key y) (key x)) eqn:E; [|reflexivity].
  cbn [List.filter] in *. rewrite IH.
  destruct (bool_decide_reflect (key y = k)) as [Hy|Hy];
    destruct (bool_decide_reflect (key x = k)) as [Hx|Hx]; try reflexivity.
  rewrite Hy, Hx in E.
  destruct (key_ltb k k) eqn:E'; [|discriminate].
  now rewrite (key_ltb_asym _ _ E') in E'.
Qed.

Lemma sort_by_stable k l :
  List.filter (fun y => bool_decide (key y = k)) (sort_by key l)
  = List.filter (fun y => bool_decide (key y = k)) l.
Proof.
  induction l as [|x l IH]; [reflexivity|].
  cbn [sort_by]. rewrite insert_sorted_stable. cbn [List.filter].
  now rewrite IH.
Qed.
End Sorting.

Lemma is_valid_true required_fields prefix cur :
  is_valid required_fields prefix cur = Ok true ->
  compatible required_fields prefix cur.
Proof.
  unfold is_valid, compatible. intros H.
  destruct (String.eqb (config_format cur) "CSV") eqn:Hf; simpl in H;
    [|discriminate].
  destruct (OptionalFields cur) as [fields|]; simpl in H; [|discriminate].
  destruct (Nat.eqb _ _) eqn:Hn; simpl in H; [|discriminate].
  destruct (startswith prefix (config_prefix cur)) eqn:Hp; simpl in H;
    [|discriminate].
  split; [|split].
  - apply String.eqb_eq in Hf. unfold config_format in Hf.
    destruct (Destination cur) as [dest|]; simpl in Hf; [|discriminate].
    exists dest. split; [reflexivity|].
    destruct (dest_Format dest); simpl in Hf; [now subst|discriminate].
  - exists fields. split; [reflexivity|].
    apply Nat.eqb_eq in Hn.
    assert (list_to_set fields ∩ required_fields = required_fields) as Heq.
    { apply set_subseteq_size_eq; [set_solver|lia]. }
    set_solver.
  - exact Hp.
Qed.

Lemma compatible_is_valid required_fields prefix cur :
  compatible required_fields prefix cur ->
  is_valid required_fields prefix cur = Ok true.
Proof.
  intros [(dest & Hd & Hf) [(fields & Ho & Hsub) Hp]].
  unfold is_valid, config_format. rewrite Hd. simpl. rewrite Hf, Ho. simpl.
  assert (list_to_set fields ∩ required_fields = required_fields) as ->
    by set_solver.
  rewrite Nat.eqb_refl. simpl. unfold startswith. now rewrite Hp.
Qed.

Lemma possible_configs_loop required_fields prefix l acc possible :
  result_for l
    (fun possible cur =>
       let! valid := is_valid required_fields prefix cur in
       Ok (if valid then possible ++ [cur] else possible)) acc = Ok possible ->
  possible = acc ++ List.filter (kept required_fields prefix) l.
Proof.
  revert acc. induction l as [|cur l IH]; intros acc H; simpl in H.
  - injection H as <-. simpl. now rewrite app_nil_r.
  - invert_bind H. invert_bind Ha. injection Ha as <-.
    apply IH in H. subst possible. simpl. unfold kept at 2. rewrite Ha0.
    destruct a0; [now rewrite <- app_assoc | reflexivity].
Qed.

Lemma possible_configs_Ok required_fields prefix listed possible :
  possible_configs required_fields prefix listed = Ok possible ->
  possible = List.filter (kept required_fields prefix) (fst listed).
Proof.
  unfold possible_configs. intros H. invert_bind H.
  apply possible_configs_loop in Ha. simpl in Ha.
  destruct (snd listed); [discriminate|]. now injection H as <-.
Qed.

Lemma listed_enabled s3 bucket cur :
  In cur (fst (list_bucket_inventory_configurations s3 bucket)) ->
  IsEnabled cur = true.
Proof.
  unfold list_bucket_inventory_configurations.
  destruct (inventory_pages s3 bucket) as [pages err]. simpl.
  intros H. now apply filter_In in H.
Qed.

Lemma select_config_Ok s3 bucket required_fields prefix config :
  select_config s3 bucket required_fields prefix = Ok config ->
  exists possible rest,
    possible_configs required_fields prefix
      (list_bucket_inventory_configurations s3 bucket) = Ok possible
    /\ sort_by sort_key possible = config :: rest.
Proof.
  unfold select_config. intros H. invert_bind H.
  destruct (sort_by sort_key a) as [|c rest] eqn:Hs; [discriminate|].
  injection H as <-. eauto.
Qed.

(** C1. Whatever the service lists, whatever fields are required and
    whatever prefix is asked for, a configuration the selector returns is
    enabled, has the CSV format, has every required field among its
    optional fields, and has a filter prefix that the requested prefix
    starts with. *)
Theorem selected_config_is_compatible
  (s3 : S3) (bucket : string) (required_fields : gset string)
  (prefix : string) (config : InventoryConfiguration) :
  select_config s3 bucket required_fields prefix = Ok config ->
  IsEnabled config = true
  /\ (exists dest, Destination config = Some dest
                   /\ dest_Format dest = Some "CSV")
  /\ (exists fields, OptionalFields config = Some fields
                     /\ required_fields ⊆ list_to_set fields)
  /\ String.prefix (config_prefix config) prefix = true.
Proof.
  intros H. apply select_config_Ok in H as (possible & rest & Hp & Hs).
  apply possible_configs_Ok in Hp. apply sort_by_head_in in Hs.
  rewrite Hp in Hs. apply filter_In in Hs as [Hin Hk].
  split; [eapply listed_enabled; eauto|].
  apply is_valid_true. unfold kept in Hk.
  destruct (is_valid required_fields prefix config) as [[]|]; congruence.
Qed.

Lemma selected_config_is_compatible_witness :
  select_config (s3_listing [config_weekly_all; config_daily_data]) "b"
    size_and_class "data/2020/" = Ok config_daily_data
  /\ IsEnabled config_daily_data = true
  /\ String.prefix (config_prefix config_daily_data) "data/2020/" = true.
Proof.
  assert (select_config (s3_listing [config_weekly_all; config_daily_data])
            "b" size_and_class "data/2020/" = Ok config_daily_data) as H
    by (vm_compute; reflexivity).
  split; [exact H|].
  destruct (selected_config_is_compatible _ _ _ _ _ H) as (He & _ & _ & Hp).
  split; assumption.
Defined.

Lemma selected_is_longest s3 bucket required_fields prefix config :
  select_config s3 bucket required_fields prefix = Ok config ->
  In config (survivors s3 bucket required_fields prefix)
  /\ forall other, In other (survivors s3 bucket required_fields prefix) ->
       (String.length (config_prefix other)
        <= String.length (config_prefix config))%nat.
Proof.
  intros H. apply select_config_Ok in H as (possible & rest & Hp & Hs).
  apply possible_configs_Ok in Hp. fold (survivors s3 bucket required_fields prefix) in Hp.
  subst possible. split; [eapply sort_by_head_in; eauto|].
  intros other Ho.
  pose proof (sort_by_head_least _ _ _ _ Hs other Ho) as Hk.
  apply key_ltb_first in Hk. unfold sort_key in Hk. simpl in Hk. lia.
Qed.

Lemma select_config_returns s3 bucket required_fields prefix possible :
  possible_configs required_fields prefix
    (list_bucket_inventory_configurations s3 bucket) = Ok possible ->
  possible <> [] ->
  exists config, select_config s3 bucket required_fields prefix = Ok config.
Proof.
  intros Hp Hne. unfold select_config. rewrite Hp. simpl.
  destruct (sort_by sort_key possible) as [|c rest] eqn:Hs; [|eauto].
  apply sort_by_nil in Hs. contradiction.
Qed.

(** C2. When the loop over the listing ends with its list of surviving
    configurations, the one the selector returns has the longest filter
    prefix among them; so of two survivors [a] and [b] with [b]'s prefix
    the longer, with nothing else surviving, [b] is returned, whatever the
    schedules, version modes and field counts, and in whatever order the
    service lists them.  In scenario B the daily configuration for
    [data/] is returned, listed first or last. *)
Theorem longer_prefix_wins :
  (forall (s3 : S3) (bucket : string) (required_fields : gset string)
          (prefix : string) (possible : list InventoryConfiguration),
      possible_configs required_fields prefix
        (list_bucket_inventory_configurations s3 bucket) = Ok possible ->
      (forall config,
          select_config s3 bucket required_fields prefix = Ok config ->
          forall other, In other possible ->
            (String.length (config_prefix other)
             <= String.length (config_prefix config))%nat)
      /\ (forall a b,
             In a possible -> In b possible ->
             (forall c, In c possible -> c = a \/ c = b) ->
             (String.length (config_prefix a)
              < String.length (config_prefix b))%nat ->
             select_config s3 bucket required_fields prefix = Ok b))
  /\ select_config (s3_listing [config_weekly_all; config_daily_data]) "b"
       size_and_class "data/" = Ok config_daily_data
  /\ select_config (s3_listing [config_daily_data; config_weekly_all]) "b"
       size_and_class "data/" = Ok config_daily_data.
Proof.
  split; [|split; vm_compute; reflexivity].
  intros s3 bucket required_fields prefix possible Hp.
  pose proof (possible_configs_Ok _ _ _ _ Hp) as Hs.
  fold (survivors s3 bucket required_fields prefix) in Hs.
  split.
  - intros config Hc other Ho. subst possible.
    now apply (selected_is_longest _ _ _ _ _ Hc).
  - intros a b Ha Hb Honly Hlt.
    destruct (select_config_returns _ _ _ _ _ Hp) as [config Hc].
    { intros ->. destruct Ha. }
    destruct (selected_is_longest _ _ _ _ _ Hc) as [Hin Hmax].
    rewrite <- Hs in Hin, Hmax.
    destruct (Honly _ Hin) as [->| ->]; [|exact Hc].
    specialize (Hmax _ Hb). lia.
Qed.

Lemma longer_prefix_wins_witness :
  select_config (s3_listing [config_weekly_all; config_daily_data]) "b"
    size_and_class "data/" = Ok config_daily_data.
Proof.
  destruct longer_prefix_wins as [H _].
  destruct (H (s3_listing [config_weekly_all; config_daily_data]) "b"
              size_and_class "data/" [config_weekly_all; config_daily_data])
    as [_ H2]; [vm_compute; reflexivity|].
  apply (H2 config_weekly_all config_daily_data).
  - simpl; auto.
  - simpl; auto.
  - simpl; intros c [<-|[<-|[]]]; auto.
  - simpl; lia.
Defined.

(** ** C3: the loop over the report batches *)

Section Reader.
Variable json_loads_manifest : string -> result Manifest.
Variable read_csv_gz : string -> stream (list string).
Variable s3 : S3.
Variable inv_bucket : string.

Local Abbreviation read :=
  (read_reports json_loads_manifest read_csv_gz s3 inv_bucket).

Lemma read_reports_skip report older :
  no_such_key s3 inv_bucket report ->
  read (report :: older)
  = (Fetched inv_bucket report :: fst (read older), snd (read older)).
Proof.
  unfold no_such_key. intros H. simpl. rewrite H. simpl.
  destruct (read older) as [evs [found|e]]; reflexivity.
Qed.

Lemma read_reports_skip_all skipped rest :
  Forall (no_such_key s3 inv_bucket) skipped ->
  read (skipped ++ rest)
  = (map (Fetched inv_bucket) skipped ++ fst (read rest), snd (read rest)).
Proof.
  induction 1 as [|report skipped Hr _ IH].
  - simpl. now destruct (read rest).
  - rewrite <- app_comm_cons, read_reports_skip by assumption.
    now rewrite IH.
Qed.

Lemma read_reports_abort report older e :
  get_object s3 inv_bucket report = Raise e ->
  e <> ClientError "NoSuchKey" ->
  read (report :: older) = ([Fetched inv_bucket report], Raise e).
Proof.
  intros H Hne. simpl. rewrite H.
  destruct e; try reflexivity.
  destruct (String.eqb_spec code "NoSuchKey") as [->|]; [congruence|].
  reflexivity.
Qed.

Lemma read_reports_found report older older' body :
  get_object s3 inv_bucket report = Ok body ->
  read (report :: older) = read (report :: older')
  /\ snd (read (report :: older)) <> Ok false.
Proof.
  intros H. simpl. rewrite H. split; [reflexivity|].
  destruct (json_loads_manifest body) as [resp|e]; simpl; [|discriminate].
  destruct (gen_for _ _ _) as [evs [[]|e]]; simpl; discriminate.
Qed.

Lemma read_reports_none reports :
  Forall (no_such_key s3 inv_bucket) reports ->
  read reports = (map (Fetched inv_bucket) reports, Ok false).
Proof.
  intros H. rewrite <- (app_nil_r reports) at 1.
  rewrite read_reports_skip_all by assumption. simpl.
  now rewrite app_nil_r.
Qed.
End Reader.

(** *** The pattern of the folder names *)

Lemma report_pattern_form :
  report_pattern = map atom_of_form (list_ascii_of_string "YYYY-MM-DDTHH-MMZ/").
Proof. reflexivity. Qed.

Lemma append_String c s t : String c s +++ t = String c (s +++ t).
Proof. reflexivity. Qed.

Lemma append_empty_l s : "" +++ s = s.
Proof. reflexivity. Qed.

Lemma match_atoms_fits form s rest :
  match_atoms (map atom_of_form (list_ascii_of_string form)) s = Some rest
  <-> exists name, fits form name = true /\ s = name +++ rest.
Proof.
  revert s. induction form as [|f form IH]; intros s; simpl.
  - split.
    + intros [= ->]. now exists "".
    + intros (name & Hf & ->). destruct name; [reflexivity|discriminate].
  - destruct s as [|c s].
    + split; [discriminate|]. intros (name & Hf & Hs).
      destruct name; [discriminate|]. rewrite append_String in Hs. discriminate.
    + unfold atom_of_form at 1, atom_matches.
      split.
      * intros H.
        destruct (placeholder f) eqn:Hp.
        -- destruct (is_digit c) eqn:Hd; [|discriminate].
           apply IH in H as (name & Hf & ->).
           exists (String c name). simpl. rewrite ?Hp, Hd, Hf. now split.
        -- destruct (Ascii.eqb c f) eqn:Hd; [|discriminate].
           apply IH in H as (name & Hf & ->).
           exists (String c name). simpl. rewrite ?Hp, Hd, Hf. now split.
      * intros (name & Hf & Hs). destruct name as [|c' name]; [discriminate|].
        rewrite append_String in Hs. injection Hs as <- ->.
        simpl in Hf. apply andb_true_iff in Hf as [Hc Hf].
        destruct (placeholder f); rewrite Hc; apply IH; eauto.
Qed.

Lemma match_here_spec s :
  match_here s = true
  <-> exists name, is_timestamp_name name = true
                   /\ (s = name \/ s = name +++ String "010" "").
Proof.
  unfold match_here, is_timestamp_name. rewrite report_pattern_form.
  split.
  - destruct (match_atoms _ s) as [rest|] eqn:H; [|discriminate].
    apply match_atoms_fits in H as (name & Hf & ->).
    unfold at_end. intros He. exists name. split; [exact Hf|].
    apply orb_true_iff in He as [He|He]; apply String.eqb_eq in He; subst.
    + left. clear. induction name; [reflexivity|].
      rewrite append_String. now f_equal.
    + now right.
  - intros (name & Hf & [->| ->]).
    + assert (match_atoms
                (map atom_of_form (list_ascii_of_string "YYYY-MM-DDTHH-MMZ/"))
                name = Some "") as ->; [|reflexivity].
      apply match_atoms_fits. exists name. split; [exact Hf|].
      clear. induction name; [reflexivity|].
      rewrite append_String. now f_equal.
    + assert (match_atoms
                (map atom_of_form (list_ascii_of_string "YYYY-MM-DDTHH-MMZ/"))
                (name +++ String "010" "") = Some (String "010" "")) as ->;
        [|reflexivity].
      apply match_atoms_fits. eauto.
Qed.

Lemma re_search_report_spec s :
  re_search_report s = true
  <-> exists before rest, s = before +++ rest /\ match_here rest = true.
Proof.
  induction s as [|c s IH].
  - split.
    + intros H. vm_compute in H. discriminate.
    + intros (before & rest & Hs & Hm).
      destruct before; [|discriminate]. rewrite append_empty_l in Hs.
      subst rest. vm_compute in Hm. discriminate.
  - change (re_search_report (String c s))
      with (match_here (String c s) || re_search_report s).
    rewrite orb_true_iff, IH. split.
    + intros [H|(before & rest & -> & Hm)].
      * now exists "", (String c s).
      * now exists (String c before), rest.
    + intros (before & rest & Hs & Hm). destruct before as [|c' before].
      * rewrite append_empty_l in Hs. subst. now left.
      * rewrite append_String in Hs. injection Hs as <- ->. right. eauto.
Qed.

(** *** The order of the batches *)

Lemma form_digits_nonneg form : 0 <= form_digits form.
Proof.
  induction form as [|f form IH]; simpl; [lia|].
  destruct (placeholder f); lia.
Qed.

Lemma is_digit_value c :
  is_digit c = true -> 0 <= Z.of_nat (nat_of_ascii c) - 48 <= 9.
Proof.
  unfold is_digit. intros H. apply andb_true_iff in H as [H1 H2].
  apply Nat.leb_le in H1, H2. lia.
Qed.

(** The digits of a name that fits a form: a number below the power of
    ten of the form, added to what was read before. *)
Lemma digits_number_fits form :
  form_ok form = true ->
  forall s acc,
    fits form s = true ->
    digits_number s acc = acc * 10 ^ form_digits form + digits_number s 0
    /\ 0 <= digits_number s 0 < 10 ^ form_digits form.
Proof.
  induction form as [|f form IH]; intros Hok s acc Hf; destruct s as [|c s];
    simpl in Hf; try discriminate.
  - simpl. lia.
  - simpl in Hok. apply andb_true_iff in Hok as [Hf1 Hok].
    apply andb_true_iff in Hf as [Hc Hf].
    specialize (IH Hok s).
    pose proof (form_digits_nonneg form) as Hn.
    cbn [digits_number form_digits].
    destruct (placeholder f) eqn:Hp.
    + rewrite Hc. pose proof (is_digit_value c Hc) as Hv.
      destruct (IH (10 * acc + (Z.of_nat (nat_of_ascii c) - 48)) Hf) as [E1 B].
      destruct (IH (10 * 0 + (Z.of_nat (nat_of_ascii c) - 48)) Hf) as [E2 _].
      rewrite E1, E2.
      replace (1 + form_digits form) with (Z.succ (form_digits form)) by lia.
      rewrite Z.pow_succ_r by lia. split; [ring|]. nia.
    + apply Ascii.eqb_eq in Hc. subst c. simpl in Hf1.
      apply negb_true_iff in Hf1. rewrite Hf1.
      rewrite Z.add_0_l. apply IH, Hf.
Qed.

Lemma ascii_compare_refl c : Ascii.compare c c = Eq.
Proof. unfold Ascii.compare. apply N.compare_refl. Qed.

Lemma ascii_compare_value c1 c2 :
  Ascii.compare c1 c2
  = Z.compare (Z.of_nat (nat_of_ascii c1)) (Z.of_nat (nat_of_ascii c2)).
Proof.
  unfold Ascii.compare, nat_of_ascii.
  rewrite !N_nat_Z. symmetry. apply N2Z.inj_compare.
Qed.

(** Two names that fit a form compare, byte by byte, as their digits
    compare as numbers. *)
Lemma compare_fits form :
  form_ok form = true ->
  forall s1 s2 acc,
    fits form s1 = true -> fits form s2 = true ->
    String.compare s1 s2
    = Z.compare (digits_number s1 acc) (digits_number s2 acc).
Proof.
  induction form as [|f form IH]; intros Hok s1 s2 acc H1 H2;
    destruct s1 as [|c1 s1]; destruct s2 as [|c2 s2]; simpl in H1, H2;
    try discriminate.
  - simpl. symmetry. apply Z.compare_refl.
  - simpl in Hok. apply andb_true_iff in Hok as [Hf1 Hok].
    apply andb_true_iff in H1 as [Hc1 H1]. apply andb_true_iff in H2 as [Hc2 H2].
    cbn [String.compare digits_number].
    destruct (placeholder f) eqn:Hp.
    + rewrite Hc1, Hc2.
      pose proof (is_digit_value _ Hc1) as Hv1.
      pose proof (is_digit_value _ Hc2) as Hv2.
      destruct (digits_number_fits form Hok s1
                  (10 * acc + (Z.of_nat (nat_of_ascii c1) - 48)) H1) as [E1 B1].
      destruct (digits_number_fits form Hok s2
                  (10 * acc + (Z.of_nat (nat_of_ascii c2) - 48)) H2) as [E2 B2].
      rewrite ascii_compare_value.
      destruct (Z.compare_spec (Z.of_nat (nat_of_ascii c1))
                  (Z.of_nat (nat_of_ascii c2))) as [E|L|G].
      * rewrite E. apply IH; assumption.
      * symmetry. apply Z.compare_lt_iff. rewrite E1, E2. nia.
      * symmetry. apply Z.compare_gt_iff. rewrite E1, E2. nia.
    + apply Ascii.eqb_eq in Hc1, Hc2. subst c1 c2. rewrite ascii_compare_refl.
      simpl in Hf1. apply negb_true_iff in Hf1. rewrite Hf1.
      apply IH; assumption.
Qed.

Lemma compare_common_prefix p s1 s2 :
  String.compare (p +++ s1) (p +++ s2) = String.compare s1 s2.
Proof.
  induction p as [|c p IH]; [reflexivity|].
  change (String c p +++ s1) with (String c (p +++ s1)).
  change (String c p +++ s2) with (String c (p +++ s2)).
  cbn [String.compare]. now rewrite ascii_compare_refl.
Qed.

Lemma fits_length form s :
  fits form s = true -> String.length s = String.length form.
Proof.
  revert s. induction form as [|f form IH]; intros [|c s] H; simpl in H;
    try discriminate; [reflexivity|].
  apply andb_true_iff in H as [_ H]. simpl. f_equal. now apply IH.
Qed.

Lemma slice_from_append p s : slice_from (String.length p) (p +++ s) = s.
Proof. induction p as [|c p IH]; [reflexivity|]. exact IH. Qed.

Lemma length_append p s :
  String.length (p +++ s) = (String.length p + String.length s)%nat.
Proof.
  induction p as [|c p IH]; [reflexivity|].
  change (String c p +++ s) with (String c (p +++ s)). simpl. now rewrite IH.
Qed.

Lemma batch_time_name inv_prefix name :
  is_timestamp_name name = true ->
  batch_time (inv_prefix +++ name) = digits_number name 0.
Proof.
  intros H. apply fits_length in H. unfold batch_time, last_chars.
  rewrite length_append, H. simpl String.length.
  replace (String.length inv_prefix + 18 - 18)%nat
    with (String.length inv_prefix) by lia.
  now rewrite slice_from_append.
Qed.

(** Under one prefix, the folders named by a timestamp are listed in the
    order of their times. *)
Lemma key_order_is_time_order inv_prefix name1 name2 :
  is_timestamp_name name1 = true -> is_timestamp_name name2 = true ->
  String.leb (inv_prefix +++ name1) (inv_prefix +++ name2) = true ->
  batch_time (inv_prefix +++ name1) <= batch_time (inv_prefix +++ name2).
Proof.
  intros H1 H2. unfold String.leb. rewrite compare_common_prefix.
  rewrite !batch_time_name by assumption.
  rewrite (compare_fits "YYYY-MM-DDTHH-MMZ/" eq_refl name1 name2 0 H1 H2).
  destruct (Z.compare_spec (digits_number name1 0) (digits_number name2 0));
    [lia|lia|discriminate].
Qed.

Lemma StronglySorted_snoc {A} (R : A -> A -> Prop) l a :
  StronglySorted R l -> List.Forall (fun x => R x a) l ->
  StronglySorted R (l ++ [a]).
Proof.
  induction 1 as [|b l Hs IH Hb]; intros Ha; simpl.
  - constructor; constructor.
  - apply List.Forall_cons_iff in Ha as [Hba Ha].
    constructor; [now apply IH|].
    apply List.Forall_app. split; [exact Hb|].
    constructor; [exact Hba|constructor].
Qed.

Lemma StronglySorted_rev {A} (R : A -> A -> Prop) l :
  StronglySorted R l -> StronglySorted (fun a b => R b a) (rev l).
Proof.
  induction 1 as [|a l Hs IH Ha]; simpl; [constructor|].
  apply StronglySorted_snoc; [exact IH|]. now apply List.Forall_rev.
Qed.

(** Of a listing in the order of S3, the folders kept, when each is
    named by a timestamp under the prefix, are in the order of their
    times. *)
Lemma kept_folders_by_time inv_prefix folders :
  List.Forall
    (fun folder =>
       re_search_report folder = true ->
       exists name,
         is_timestamp_name name = true /\ folder = inv_prefix +++ name)
    folders ->
  key_order folders ->
  StronglySorted (fun a b => batch_time a <= batch_time b)
    (List.filter re_search_report folders).
Proof.
  unfold key_order. induction 1 as [|folder folders Hf Hall IH]; intros Hs;
    cbn [List.filter]; [constructor|].
  apply StronglySorted_inv in Hs as [Hs Hhd].
  destruct (re_search_report folder) eqn:Hr; [|now apply IH].
  constructor; [now apply IH|].
  destruct (Hf eq_refl) as (name & Hn & ->).
  rewrite List.Forall_forall in *.
  intros other Ho. apply List.filter_In in Ho as [Ho Hro].
  destruct (Hall other Ho Hro) as (name' & Hn' & ->).
  apply key_order_is_time_order; auto.
Qed.



(** ** C9: the folders that count as report batches *)

(** C9, as the specification words it, fails: a folder whose name only
    ends like a timestamp is kept as a report batch. *)
Lemma longer_name_is_retained :
  list_reports [["inv/b/cfg/old-2024-01-01T00-00Z/"]]
  = ["inv/b/cfg/old-2024-01-01T00-00Z/manifest.json"]
  /\ folder_name "inv/b/cfg/old-2024-01-01T00-00Z/" = "old-2024-01-01T00-00Z/"
  /\ is_timestamp_name (folder_name "inv/b/cfg/old-2024-01-01T00-00Z/") = false.
Proof. vm_compute. auto. Qed.

(** C9, amended. A listed folder is kept as a report batch exactly when
    its path ends with a timestamp of the form [YYYY-MM-DDTHH-MMZ/] (or
    with one followed by a single newline, which no listing with the
    delimiter [/] gives); what precedes the timestamp is not looked at.
    So a folder named by a timestamp is kept, and the hive and data
    folders are not. *)
Theorem report_folders_end_with_timestamp :
  (forall pages report,
      In report (list_reports pages)
      <-> exists folder,
            In folder (concat pages)
            /\ report = folder +++ "manifest.json"
            /\ exists before name,
                 is_timestamp_name name = true
                 /\ (folder = before +++ name
                     \/ folder = before +++ name +++ String "010" ""))
  /\ (forall inv_prefix name,
         is_timestamp_name name = true ->
         re_search_report (inv_prefix +++ name) = true)
  /\ re_search_report "inv/b/cfg/hive/" = false
  /\ re_search_report "inv/b/cfg/data/" = false.
Proof.
  assert (forall folder,
             re_search_report folder = true
             <-> exists before name,
                   is_timestamp_name name = true
                   /\ (folder = before +++ name
                       \/ folder = before +++ name +++ String "010" "")) as Hs.
  { intros folder. rewrite re_search_report_spec. split.
    - intros (before & rest & -> & Hm).
      apply match_here_spec in Hm as (name & Hn & [->| ->]); eauto 6.
    - intros (before & name & Hn & [->| ->]).
      + exists before, name. split; [reflexivity|].
        apply match_here_spec. eauto.
      + exists before, (name +++ String "010" ""). split; [reflexivity|].
        apply match_here_spec. eauto. }
  split; [|split; [|split; reflexivity]].
  - intros pages report. unfold list_reports. rewrite in_map_iff. split.
    + intros (folder & <- & Hin). apply filter_In in Hin as [Hin Hr].
      exists folder. split; [exact Hin|]. split; [reflexivity|]. now apply Hs.
    + intros (folder & Hin & -> & Hr). exists folder. split; [reflexivity|].
      apply filter_In. split; [exact Hin|]. now apply Hs.
  - intros inv_prefix name Hn. apply Hs. eauto.
Qed.

Lemma report_folders_end_with_timestamp_witness :
  re_search_report ("inv/b/cfg/" +++ "2024-01-01T00-00Z/") = true.
Proof.
  destruct report_folders_end_with_timestamp as (_ & H & _).
  apply H. reflexivity.
Defined.

(** ** The rows of an inventory report *)

Section InventoryRows.
Variable int_of_str : string -> result Z.
Variable unquote : string -> string.
Variable prefix : string.

Local Abbreviation gives := (row_gives int_of_str unquote prefix).

Local Abbreviation body :=
  (fun (_ : unit) row =>
     inventory_row int_of_str unquote prefix (String.length prefix) row).

Lemma inventory_row_Ok row evs :
  inventory_row int_of_str unquote prefix (String.length prefix) row
  = (evs, Ok tt) ->
  exists recs, gives row recs /\ evs = map Yielded recs.
Proof.
  unfold inventory_row, startswith.
  destruct (row !! "Key") as [quoted|] eqn:Hk; simpl; [|discriminate].
  destruct (String.prefix prefix (unquote quoted)) eqn:Hp.
  - destruct (row !! "Size") as [text|] eqn:Hs; simpl; [|discriminate].
    destruct (int_of_str text) as [size|] eqn:Hi; simpl; [|discriminate].
    intros [= <-]. eexists. split; [eapply row_emitted; eauto|reflexivity].
  - intros [= <-]. exists []. split; [eapply row_dropped; eauto|reflexivity].
Qed.

Lemma inventory_row_Raise row evs e :
  inventory_row int_of_str unquote prefix (String.length prefix) row
  = (evs, Raise e) -> evs = [].
Proof.
  unfold inventory_row, startswith.
  destruct (row !! "Key") as [quoted|]; simpl; [|now intros [= <-]].
  destruct (String.prefix prefix (unquote quoted)); [|discriminate].
  destruct (row !! "Size") as [text|]; simpl; [|now intros [= <-]].
  destruct (int_of_str text) as [size|]; simpl; [discriminate|].
  now intros [= <-].
Qed.

Lemma inventory_row_gives row recs :
  gives row recs ->
  inventory_row int_of_str unquote prefix (String.length prefix) row
  = (map Yielded recs, Ok tt).
Proof.
  unfold inventory_row, startswith.
  intros [quoted text size Hk Hp Hs Hi|quoted Hk Hp]; rewrite Hk; simpl;
    rewrite Hp.
  - rewrite Hs. simpl. rewrite Hi. reflexivity.
  - reflexivity.
Qed.

(** Every row gives its records: all of them are yielded, and the loop
    ends without an error. *)
Lemma pipe_rows_all evs recs :
  Forall2 gives (yields evs) recs ->
  let out := gen_pipe_events evs body tt in
  yields (fst out) = concat recs /\ snd out = Ok tt.
Proof.
  revert recs. induction evs as [|[b k|row] evs IH]; intros recs H;
    cbn [gen_pipe_events].
  - inversion H; subst. now split.
  - rewrite gen_bind_emit. simpl. now apply IH.
  - simpl in H. inversion H as [|? recs1 ? recs' Hg Hrest]; subst.
    rewrite (inventory_row_gives _ _ Hg), gen_bind_Ok. simpl.
    destruct (IH _ Hrest) as [H1 H2].
    rewrite yields_app, yields_map, H1, H2. now split.
Qed.

(** A row fails: the records of the rows before it are yielded, and the
    loop ends with the error of that row. *)
Lemma pipe_rows_fail evs before bad after recs e :
  yields evs = before ++ bad :: after ->
  Forall2 gives before recs ->
  inventory_row int_of_str unquote prefix (String.length prefix) bad
  = ([], Raise e) ->
  let out := gen_pipe_events evs body tt in
  yields (fst out) = concat recs /\ snd out = Raise e.
Proof.
  revert before recs.
  induction evs as [|[b k|row] evs IH]; intros before recs Hy Hb He;
    cbn [gen_pipe_events].
  - destruct before; discriminate.
  - rewrite gen_bind_emit. simpl. now apply (IH before).
  - simpl in Hy. destruct before as [|b before].
    + injection Hy as -> Hy. inversion Hb; subst. rewrite He. now split.
    + injection Hy as -> Hy. inversion Hb as [|? recs1 ? recs' Hg Hrest]; subst.
      rewrite (inventory_row_gives _ _ Hg), gen_bind_Ok. simpl.
      destruct (IH _ _ Hy Hrest He) as [H1 H2].
      rewrite yields_app, yields_map, H1, H2. now split.
Qed.

(** The rows taken in before the scan ends, and what each gave. *)
Lemma pipe_rows evs :
  let out := gen_pipe_events evs body tt in
  exists taken left recs,
    yields evs = taken ++ left
    /\ Forall2 gives taken recs
    /\ yields (fst out) = concat recs
    /\ (snd out = Ok tt -> left = []).
Proof.
  induction evs as [|[b k|row] evs IH]; cbn [gen_pipe_events].
  - exists [], [], []. repeat split; constructor.
  - destruct IH as (taken & left & recs & H1 & H2 & H3 & H4).
    exists taken, left, recs. rewrite gen_bind_emit. simpl.
    repeat split; assumption.
  - destruct (inventory_row _ _ _ _ row) as [evs1 [[]|e]] eqn:Hr.
    + destruct IH as (taken & left & recs & H1 & H2 & H3 & H4).
      apply inventory_row_Ok in Hr as (recs1 & Hg & ->).
      exists (row :: taken), left, (recs1 :: recs).
      rewrite gen_bind_Ok. simpl. rewrite yields_app, yields_map, H1, H3.
      repeat split; [now constructor|assumption].
    + apply inventory_row_Raise in Hr as ->.
      exists [], (row :: yields evs), []. rewrite gen_bind_Raise. simpl.
      repeat split; [constructor|discriminate].
Qed.
End InventoryRows.

(** ** The loop of the single-bucket scan *)

Section ScanLoop.
Variable costs : option (gmap string float).

Lemma scan_object_Ok totals cur v :
  contribution costs cur = Ok v ->
  scan_object costs totals cur
  = ([Yielded (pair_of cur v)], Ok (add_totals totals v)).
Proof. intros H. unfold scan_object. now rewrite H. Qed.

Lemma scan_object_Raise totals cur e :
  contribution costs cur = Raise e ->
  scan_object costs totals cur = ([], Raise e).
Proof. intros H. unfold scan_object. now rewrite H. Qed.

(** Every record has a size or a cost: all of them are yielded. *)
Lemma pipe_scan_succeeds evs vals totals :
  Forall2 (fun cur v => contribution costs cur = Ok v) (yields evs) vals ->
  let out := gen_pipe_events evs (scan_object costs) totals in
  yields (fst out) = zip_with pair_of (yields evs) vals
  /\ snd out = Ok (fold_left add_totals vals totals).
Proof.
  revert vals totals.
  induction evs as [|[b k|cur] evs IH]; intros vals totals H;
    cbn [gen_pipe_events].
  - inversion H; subst. now split.
  - rewrite gen_bind_emit. simpl. now apply IH.
  - simpl in H. inversion H as [|? v ? vals' Hc Hrest]; subst.
    rewrite (scan_object_Ok _ _ _ Hc), gen_bind_Ok. simpl.
    destruct (IH _ (add_totals totals v) Hrest) as [H1 H2].
    now rewrite H1, H2.
Qed.

(** A record has none: the records before it are yielded, and the scan
    ends with the error of that record. *)
Lemma pipe_scan_fails evs before cur after vals totals e :
  yields evs = before ++ cur :: after ->
  Forall2 (fun cur v => contribution costs cur = Ok v) before vals ->
  contribution costs cur = Raise e ->
  let out := gen_pipe_events evs (scan_object costs) totals in
  yields (fst out) = zip_with pair_of before vals /\ snd out = Raise e.
Proof.
  revert before vals totals.
  induction evs as [|[b k|first] evs IH]; intros before vals totals Hy Hb He;
    cbn [gen_pipe_events].
  - destruct before; discriminate.
  - rewrite gen_bind_emit. simpl. now apply IH.
  - simpl in Hy. destruct before as [|b before].
    + injection Hy as -> Hy. inversion Hb; subst.
      rewrite (scan_object_Raise _ _ _ He). now split.
    + injection Hy as -> Hy. inversion Hb as [|? v ? vals' Hc Hrest]; subst.
      rewrite (scan_object_Ok _ _ _ Hc), gen_bind_Ok. simpl.
      destruct (IH _ _ (add_totals totals v) Hy Hrest He) as [H1 H2].
      now rewrite H1, H2.
Qed.
End ScanLoop.

(** ** C10: the records of an inventory report, and the totals *)

Lemma map_Yielded_inj {A} (l l' : list A) :
  map (@Yielded A) l = map Yielded l' -> l = l'.
Proof.
  revert l'. induction l as [|a l IH]; intros [|a' l'] H; try discriminate;
    [reflexivity|].
  simpl in H. injection H as -> H. f_equal. now apply IH.
Qed.

Lemma fold_add_totals_sizes (records : list ObjectRecord) (n t : Z) :
  fold_left add_totals (map (fun cur => PInt (Size cur)) records)
            (PInt n, PInt t)
  = (PInt (n + Z.of_nat (List.length records)),
     PInt (t + fold_right Z.add 0 (map Size records))).
Proof.
  revert n t. induction records as [|cur records IH]; intros n t.
  - simpl. now rewrite !Z.add_0_r.
  - cbn [map fold_left List.length fold_right]. unfold add_totals at 2.
    cbn [fst snd num_add]. rewrite IH. f_equal; f_equal; lia.
Qed.

Section InventoryListing.
Variable S3_COST_CLASSES : list CostClass.
Variable pricing_data : gmap string (gmap string string).
Variable float_of_str : string -> result float.
Variable int_of_str : string -> result Z.
Variable unquote : string -> string.
Variable json_loads_manifest : string -> result Manifest.
Variable read_csv_gz : string -> stream (list string).
Variable boto3_s3 : string -> option string -> result S3.

Local Abbreviation lister :=
  (s3_list_objects int_of_str unquote json_loads_manifest read_csv_gz).
Local Abbreviation scan :=
  (scan_bucket S3_COST_CLASSES pricing_data float_of_str int_of_str unquote
     json_loads_manifest read_csv_gz boto3_s3).

(** In size mode the scan yields one pair for each record of the lister,
    and its totals are the number of the records and the sum of their
    sizes. *)
Lemma size_scan_totals (opts : Opts) (s3 : S3) (bucket : string) :
  truthy (s3_cost opts) = false ->
  get_s3 boto3_s3 (PyOpts opts) = Ok s3 ->
  let records := yields (fst (lister opts s3)) in
  yields (fst (scan opts bucket))
  = map (fun cur => (split_on "/" (Key cur), Plain (PInt (Size cur)))) records
  /\ (snd (lister opts s3) = Ok tt ->
      snd (scan opts bucket)
      = Ok (PInt (Z.of_nat (List.length records)),
            PInt (fold_right Z.add 0 (map Size records)))).
Proof.
  intros Hcost Hs3 records. unfold scan_bucket.
  rewrite Hs3, gen_bind_lift_Ok, Hcost, gen_bind_ret. unfold gen_pipe.
  assert (Forall2 (fun cur v => contribution None cur = Ok v) records
            (map (fun cur => PInt (Size cur)) records)) as Hall.
  { clear. induction records; constructor; auto. }
  destruct (pipe_scan_succeeds None _ _ (PInt 0, PInt 0) Hall) as [H1 H2].
  fold records in H1.
  destruct (gen_pipe_events (fst (lister opts s3)) _ _) as [evs r].
  simpl in H1, H2. subst r. rewrite gen_bind_Ok.
  assert (zip_with pair_of records (map (fun cur => PInt (Size cur)) records)
          = map (fun cur => (split_on "/" (Key cur), Plain (PInt (Size cur))))
                records) as Hz.
  { clear. induction records as [|cur records IH]; simpl; [reflexivity|].
    now rewrite IH. }
  destruct (snd (lister opts s3)) as [[]|e]; simpl.
  - rewrite !app_nil_r, H1, Hz. split; [reflexivity|]. intros _.
    now rewrite fold_add_totals_sizes.
  - rewrite app_nil_r, H1, Hz. split; [reflexivity|discriminate].
Qed.

(** C10. In inventory mode the key of a row is decoded by [unquote]
    before it is compared.  A row whose decoded key starts with the
    requested prefix, and whose size reads as an integer, yields one
    record: its key is the decoded key less the prefix, its size is that
    integer, and its storage class is the one of the row, or the empty
    string for a row without that field.  A row whose decoded key does
    not start with the prefix yields nothing and raises nothing, whatever
    its other fields.  When every row of the report is of one of these
    two kinds, the lister yields the records of the rows, in their order,
    and ends as the report ends.  Any other row raises and yields
    nothing: it has no key, or its key starts with the prefix and its
    size is missing or does not read as an integer; at the first such
    row the lister ends with that error, the records of the rows before
    it yielded.  The scan
    yields and counts the records only: a row that is dropped adds
    nothing to the output or to the totals. *)
Theorem inventory_rows_filtered_by_prefix (opts : Opts) (s3 : S3)
  (bucket : string) :
  truthy (s3_inventory opts) = true ->
  s3_bucket opts = Some bucket ->
  let prefix := default "" (s3_prefix opts) in
  let report :=
    get_bucket_inventory json_loads_manifest read_csv_gz s3 bucket
      (fields_needed opts) prefix in
  let out := lister opts s3 in
  let of_row :=
    inventory_row int_of_str unquote prefix (String.length prefix) in
  (forall row quoted text size,
      row !! "Key" = Some quoted ->
      String.prefix prefix (unquote quoted) = true ->
      row !! "Size" = Some text ->
      int_of_str text = Ok size ->
      exists key,
        unquote quoted = prefix +++ key
        /\ of_row row
           = ([Yielded {| Key := key; Size := size;
                          StorageClass := default "" (row !! "StorageClass") |}],
              Ok tt)
        /\ (row !! "StorageClass" = None ->
            of_row row
            = ([Yielded {| Key := key; Size := size; StorageClass := "" |}],
               Ok tt)))
  /\ (forall row quoted,
         row !! "Key" = Some quoted ->
         String.prefix prefix (unquote quoted) = false ->
         of_row row = ([], Ok tt))
  /\ (forall row recs,
         row_gives int_of_str unquote prefix row recs
         <-> of_row row = (map Yielded recs, Ok tt))
  /\ (forall row,
         (exists recs, row_gives int_of_str unquote prefix row recs)
         \/ (exists e, of_row row = ([], Raise e)))
  /\ (forall row,
         row !! "Key" = None -> of_row row = ([], Raise (KeyError "Key")))
  /\ (forall row quoted,
         row !! "Key" = Some quoted ->
         String.prefix prefix (unquote quoted) = true ->
         (row !! "Size" = None -> of_row row = ([], Raise (KeyError "Size")))
         /\ (forall text e,
                row !! "Size" = Some text -> int_of_str text = Raise e ->
                of_row row = ([], Raise e)))
  /\ (forall recs,
         Forall2 (row_gives int_of_str unquote prefix) (yields (fst report))
                 recs ->
         yields (fst out) = concat recs /\ snd out = snd report)
  /\ (forall before bad after recs e,
         yields (fst report) = before ++ bad :: after ->
         Forall2 (row_gives int_of_str unquote prefix) before recs ->
         of_row bad = ([], Raise e) ->
         yields (fst out) = concat recs /\ snd out = Raise e)
  /\ (truthy (s3_cost opts) = false ->
      get_s3 boto3_s3 (PyOpts opts) = Ok s3 ->
      yields (fst (scan opts bucket))
      = map (fun cur => (split_on "/" (Key cur), Plain (PInt (Size cur))))
            (yields (fst out))
      /\ (snd out = Ok tt ->
          snd (scan opts bucket)
          = Ok (PInt (Z.of_nat (List.length (yields (fst out)))),
                PInt (fold_right Z.add 0 (map Size (yields (fst out))))))).
Proof.
  intros Hinv Hb prefix report out of_row.
  assert (out = gen_pipe report (fun _ row => of_row row) tt) as Hout.
  { subst out. unfold s3_list_objects. rewrite Hinv, Hb. cbn [item].
    now rewrite gen_bind_lift_Ok. }
  split; [|split; [|split; [|split; [|split; [|split; [|split; [|split]]]]]]].
  - intros row quoted text size Hk Hp Hs Hi.
    exists (slice_from (String.length prefix) (unquote quoted)).
    split; [symmetry; now apply prefix_slice|].
    assert (of_row row
            = ([Yielded
                  {| Key := slice_from (String.length prefix) (unquote quoted);
                     Size := size;
                     StorageClass := default "" (row !! "StorageClass") |}],
               Ok tt)) as Hrow.
    { apply (inventory_row_gives int_of_str unquote prefix row [_]).
      eapply row_emitted; eauto. }
    split; [exact Hrow|]. intros Hc. rewrite Hrow, Hc. reflexivity.
  - intros row quoted Hk Hp.
    apply (inventory_row_gives int_of_str unquote prefix row []).
    eapply row_dropped; eauto.
  - intros row recs. split; [apply inventory_row_gives|].
    intros H. apply inventory_row_Ok in H as (recs' & Hg & He).
    apply map_Yielded_inj in He. now subst.
  - intros row. destruct (of_row row) as [evs [[]|e]] eqn:Hr.
    + left. apply inventory_row_Ok in Hr as (recs & Hg & _). now exists recs.
    + right. exists e. now rewrite (inventory_row_Raise _ _ _ _ _ _ Hr).
  - intros row Hk. subst of_row. unfold inventory_row. now rewrite Hk.
  - intros row quoted Hk Hp. subst of_row. unfold inventory_row, startswith.
    rewrite Hk. cbn [item]. rewrite gen_bind_lift_Ok, Hp. split.
    + intros Hs. now rewrite Hs.
    + intros text e Hs Hi. rewrite Hs. cbn [item].
      rewrite gen_bind_lift_Ok, Hi. reflexivity.
  - intros recs Hall. rewrite Hout. unfold gen_pipe.
    destruct (pipe_rows_all int_of_str unquote prefix _ _ Hall) as [H1 H2].
    fold of_row in H1, H2.
    destruct (gen_pipe_events (fst report) _ tt) as [evs r].
    simpl in H1, H2. subst r. rewrite gen_bind_Ok.
    destruct (snd report) as [[]|e]; simpl; rewrite ?app_nil_r; now split.
  - intros before bad after recs e Hy Hbefore Hbad. rewrite Hout.
    unfold gen_pipe.
    destruct (pipe_rows_fail int_of_str unquote prefix _ _ _ _ _ _
                Hy Hbefore Hbad) as [H1 H2].
    fold of_row in H1, H2.
    destruct (gen_pipe_events (fst report) _ tt) as [evs r].
    simpl in H1, H2. subst r. rewrite gen_bind_Raise. now split.
  - intros Hcost Hs3. now apply size_scan_totals.
Qed.
End InventoryListing.

(** ** Two scans from end to end *)

Example scenario_A :
  demo_scan
    (listing_s3 [{| obj_Key := "data/a"; obj_Size := 100; obj_StorageClass := "STANDARD" |};
                 {| obj_Key := "data/sub/b"; obj_Size := 50; obj_StorageClass := "STANDARD" |}])
    no_cw (bucket_opts (Some "data/") None None)
  = ([Yielded (["a"], Plain (PInt 100)); Yielded (["sub"; "b"], Plain (PInt 50))],
     Ok (PInt 2, PInt 150)).
Proof. vm_compute. reflexivity. Qed.

Example scenario_inventory :
  demo_scan inventory_s3 no_cw (bucket_opts (Some "data/") None (Some true))
  = ([Fetched "inventory" "inv/b/data/2024-01-02T00-00Z/manifest.json";
      Fetched "inventory" "inv/b/data/2024-01-01T00-00Z/manifest.json";
      Fetched "inventory" "inv/b/data/data/part-1.csv.gz";
      Yielded (["a b"], Plain (PInt 100));
      Yielded (["sub"; "b"], Plain (PInt 50))],
     Ok (PInt 2, PInt 150)).
Proof. vm_compute. reflexivity. Qed.

(** ** C4: the cost of an object *)

Lemma GiB_pow2 : GiB = 2 ^ Z.log2 GiB.
Proof. reflexivity. Qed.

(** *** The quotient of a size by [2 ^ 30] *)

Lemma digits2_pos_lower p : 2 ^ (Z.pos (digits2_pos p) - 1) <= Z.pos p.
Proof.
  induction p as [p IH|p IH|]; simpl digits2_pos.
  - rewrite Pos2Z.inj_succ.
    replace (Z.succ (Z.pos (digits2_pos p)) - 1)
      with (Z.succ (Z.pos (digits2_pos p) - 1)) by lia.
    rewrite Z.pow_succ_r by lia. lia.
  - rewrite Pos2Z.inj_succ.
    replace (Z.succ (Z.pos (digits2_pos p)) - 1)
      with (Z.succ (Z.pos (digits2_pos p) - 1)) by lia.
    rewrite Z.pow_succ_r by lia. lia.
  - simpl. lia.
Qed.

Lemma digits2_pos_small p k :
  0 <= k -> Z.pos p < 2 ^ k -> Z.pos (digits2_pos p) <= k.
Proof.
  intros Hk Hp. pose proof (digits2_pos_lower p) as Hl.
  destruct (Z_le_gt_dec (Z.pos (digits2_pos p)) k) as [|Hgt]; [assumption|].
  exfalso.
  assert (2 ^ k <= 2 ^ (Z.pos (digits2_pos p) - 1))
    by (apply Z.pow_le_mono_r; lia).
  lia.
Qed.

Lemma iter_xO_digits p k :
  digits2_pos (Pos.iter xO p k) = (digits2_pos p + k)%positive.
Proof.
  induction k as [|k IH] using Pos.peano_ind.
  - simpl. lia.
  - rewrite Pos.iter_succ. simpl. rewrite IH. lia.
Qed.

Lemma iter_xO_value p k : Z.pos (Pos.iter xO p k) = Z.pos p * 2 ^ Z.pos k.
Proof.
  induction k as [|k IH] using Pos.peano_ind.
  - simpl. lia.
  - rewrite Pos.iter_succ, Pos2Z.inj_xO, IH, Pos2Z.inj_succ, Z.pow_succ_r
      by lia.
    ring.
Qed.

(** The rounding of [p * 2 ^ e], for [p] of at most 53 binary digits and
    [e] well inside the range of the exponents, is exact: the mantissa is
    [p] shifted to 53 digits, and the exponent is lowered as much. *)
Lemma binary_round_exact (s : bool) (p : positive) (e : Z) :
  Z.pos p < 2 ^ 53 -> -1000 <= e <= 900 ->
  exists m e',
    binary_round prec emax s p e = S754_finite s m e'
    /\ valid_binary (S754_finite s m e') = true
    /\ e' <= e /\ Z.pos m = Z.pos p * 2 ^ (e - e').
Proof.
  intros Hp He.
  pose proof (digits2_pos_small p 53 ltac:(lia) Hp) as Hd.
  assert (0 < Z.pos (digits2_pos p)) as Hd0 by lia.
  unfold binary_round, shl_align.
  assert (fexp prec emax (Z.pos (digits2_pos p) + e)
          = Z.pos (digits2_pos p) + e - 53) as Hf.
  { unfold fexp, emin, prec, emax. lia. }
  rewrite Hf.
  destruct (Z.pos (digits2_pos p) + e - 53 - e) as [|k|k] eqn:Hk; try lia.
  - exists p, e.
    unfold binary_round_aux, shr_fexp. cbn [Zdigits2 shr_record_of_loc].
    rewrite Hf. replace (Z.pos (digits2_pos p) + e - 53 - e) with 0 by lia.
    cbn [shr shr_m loc_of_shr_record round_nearest_even Zdigits2].
    rewrite Hf. replace (Z.pos (digits2_pos p) + e - 53 - e) with 0 by lia.
    cbn [shr shr_m].
    assert ((e <=? emax - prec) = true) as ->
        by (apply Z.leb_le; unfold emax, prec; lia).
    split; [reflexivity|]. split.
    + unfold valid_binary, SpecFloat.valid_binary, bounded, canonical_mantissa.
      rewrite Hf. apply andb_true_iff.
      split; [apply Z.eqb_eq; lia|apply Z.leb_le; unfold emax, prec; lia].
    + split; [lia|]. rewrite Z.sub_diag. simpl. lia.
  - exists (Pos.iter xO p k), (Z.pos (digits2_pos p) + e - 53).
    assert (fexp prec emax (Z.pos (digits2_pos (Pos.iter xO p k))
                            + (Z.pos (digits2_pos p) + e - 53))
            = Z.pos (digits2_pos p) + e - 53) as Hf'.
    { rewrite iter_xO_digits. unfold fexp, emin, prec, emax. lia. }
    unfold binary_round_aux, shr_fexp. cbn [Zdigits2 shr_record_of_loc].
    rewrite Hf', Z.sub_diag.
    cbn [shr shr_m loc_of_shr_record round_nearest_even Zdigits2].
    rewrite Hf', Z.sub_diag.
    cbn [shr shr_m].
    assert ((Z.pos (digits2_pos p) + e - 53 <=? emax - prec) = true) as ->
        by (apply Z.leb_le; unfold emax, prec; lia).
    split; [reflexivity|]. split.
    + unfold valid_binary, SpecFloat.valid_binary, bounded, canonical_mantissa.
      rewrite Hf'. apply andb_true_iff.
      split; [apply Z.eqb_eq; lia|apply Z.leb_le; unfold emax, prec; lia].
    + split; [lia|]. rewrite iter_xO_value. f_equal. f_equal. lia.
Qed.

Lemma is_infinity_finite s m e :
  valid_binary (S754_finite s m e) = true ->
  is_infinity (SF2Prim (S754_finite s m e)) = false.
Proof.
  intros Hv. unfold is_infinity.
  rewrite FloatAxioms.eqb_spec, abs_spec, Prim2SF_SF2Prim by exact Hv.
  reflexivity.
Qed.

(** Below [2 ^ 53] the division by [2 ^ 30] succeeds and does not
    round. *)
Lemma div_GiB_exact n :
  0 <= n < 2 ^ 53 ->
  exists q, div_GiB n = Ok q /\ is_quotient_pow2 q n 30.
Proof.
  intros Hn. unfold div_GiB, int_truediv_pow2.
  change (- Z.log2 GiB) with (-30).
  destruct n as [|p|p]; [| |lia].
  - exists 0%float. split; [reflexivity|]. unfold is_quotient_pow2.
    change (Prim2SF 0) with (S754_zero false). cbv beta iota. auto.
  - cbn [binary_normalize].
    destruct (binary_round_exact false p (-30) ltac:(lia) ltac:(lia))
      as (m & e' & -> & Hv & He & Hm).
    rewrite is_infinity_finite by exact Hv.
    eexists. split; [reflexivity|]. unfold is_quotient_pow2.
    rewrite Prim2SF_SF2Prim by exact Hv. split; [lia|].
    rewrite Hm. rewrite <- Z.mul_assoc, <- Z.pow_add_r by lia.
    f_equal. f_equal. lia.
Qed.

Lemma canonical_unique m1 e1 m2 e2 :
  valid_binary (S754_finite false m1 e1) = true ->
  valid_binary (S754_finite false m2 e2) = true ->
  e1 <= e2 ->
  Z.pos m1 = Z.pos m2 * 2 ^ (e2 - e1) ->
  m1 = m2 /\ e1 = e2.
Proof.
  unfold valid_binary, SpecFloat.valid_binary, bounded, canonical_mantissa.
  intros H1 H2 He Hm.
  apply andb_true_iff in H1 as [H1 _]. apply andb_true_iff in H2 as [H2 _].
  apply Z.eqb_eq in H1, H2.
  destruct (e2 - e1) as [|j|j] eqn:Hj; [| |lia].
  - split; [|lia]. simpl in Hm. lia.
  - exfalso. rewrite <- iter_xO_value in Hm. injection Hm as ->.
    rewrite iter_xO_digits in H1.
    unfold fexp in *. lia.
Qed.

(** One float at most is the exact quotient of [n] by [2 ^ k]. *)
Lemma is_quotient_pow2_unique q q' n k :
  0 <= k -> is_quotient_pow2 q n k -> is_quotient_pow2 q' n k -> q = q'.
Proof.
  unfold is_quotient_pow2. intros Hk H H'.
  apply Prim2SF_inj.
  pose proof (Prim2SF_valid q) as V. pose proof (Prim2SF_valid q') as V'.
  apply (Z.pow_pos_nonneg 2) in Hk; [|lia].
  destruct (Prim2SF q) as [s| | |s m e];
    destruct (Prim2SF q') as [s'| | |s' m' e']; try contradiction.
  - destruct H as [-> _], H' as [-> _]. reflexivity.
  - destruct H as [_ ->], H' as [He' Hm']. exfalso. destruct s'; nia.
  - destruct H' as [_ ->], H as [He Hm]. exfalso. destruct s; nia.
  - destruct H as [He Hm], H' as [He' Hm'].
    assert (0 < 2 ^ (- e)) by (apply Z.pow_pos_nonneg; lia).
    assert (0 < 2 ^ (- e')) by (apply Z.pow_pos_nonneg; lia).
    assert (s = s') as <-.
    { destruct s, s'; try reflexivity; exfalso; nia. }
    assert (Z.pos m * 2 ^ (- e') = Z.pos m' * 2 ^ (- e)) as Hv.
    { destruct s; nia. }
    assert (valid_binary (S754_finite false m e) = true) as Vm by exact V.
    assert (valid_binary (S754_finite false m' e') = true) as Vm' by exact V'.
    destruct (Z_le_gt_dec e e') as [Hle|Hgt].
    + destruct (canonical_unique m e m' e' Vm Vm' Hle) as [-> ->];
        [|reflexivity].
      replace (- e) with ((e' - e) + - e') in Hv by lia.
      rewrite Z.pow_add_r in Hv by lia. nia.
    + destruct (canonical_unique m' e' m e Vm' Vm ltac:(lia)) as [-> ->];
        [|reflexivity].
      replace (- e') with ((e - e') + - e) in Hv by lia.
      rewrite Z.pow_add_r in Hv by lia. nia.
Qed.

(** C4. In cost mode the scan yields, for a record, the float product of
    its size divided by 1073741824 and of the price of its storage class,
    and adds it to the total.  The divisor is [2 ^ 30], and for a size
    below [2 ^ 53] bytes (8 PiB, far more than S3 allows an object) the
    division succeeds and its quotient is the one float that is the size
    divided by [2 ^ 30], with no rounding: the product is the only
    operation that rounds.  So one byte gives the
    float [2 ^ -30] and 1610612736 bytes give 1.5.  With the price 0.023,
    an object of 1073741824 bytes costs 0.023 and one of 2147483648 bytes
    costs 0.046; scenario C yields that 0.046. *)
Theorem cost_is_GiB_times_price :
  (forall (costs : gmap string float) (totals : pynum * pynum)
          (cur : ObjectRecord) (gib price : float),
      div_GiB (Size cur) = Ok gib ->
      costs !! StorageClass cur = Some price ->
      scan_object (Some costs) totals cur
      = ([Yielded (split_on "/" (Key cur), Plain (PFloat (gib * price)))],
         Ok (num_add totals.1 (PInt 1),
             num_add totals.2 (PFloat (gib * price)))))
  /\ GiB = 2 ^ 30
  /\ (forall n : Z,
         0 <= n < 2 ^ 53 ->
         exists q,
           div_GiB n = Ok q
           /\ is_quotient_pow2 q n 30
           /\ forall q', is_quotient_pow2 q' n 30 -> q' = q)
  /\ (forall (costs : gmap string float) (totals : pynum * pynum)
             (cur : ObjectRecord) (price : float),
         0 <= Size cur < 2 ^ 53 ->
         costs !! StorageClass cur = Some price ->
         exists gib,
           is_quotient_pow2 gib (Size cur) 30
           /\ contribution (Some costs) cur = Ok (PFloat (gib * price))
           /\ scan_object (Some costs) totals cur
              = ([Yielded (split_on "/" (Key cur),
                           Plain (PFloat (gib * price)))],
                 Ok (num_add totals.1 (PInt 1),
                     num_add totals.2 (PFloat (gib * price)))))
  /\ div_GiB 1 = Ok (1 / 1073741824)%float
  /\ div_GiB 1610612736 = Ok 1.5%float
  /\ div_GiB 1073741824 = Ok 1%float
  /\ div_GiB 2147483648 = Ok 2%float
  /\ contribution (Some {["STANDARD" := 0.023%float]}) one_GiB_object
     = Ok (PFloat 0.023)
  /\ contribution (Some {["STANDARD" := 0.023%float]}) two_GiB_object
     = Ok (PFloat 0.046)
  /\ demo_scan
       (listing_s3 [{| obj_Key := "two"; obj_Size := 2147483648;
                       obj_StorageClass := "STANDARD" |}])
       no_cw (bucket_opts None (Some true) None)
     = ([Yielded (["two"], Plain (PFloat 0.046))],
        Ok (PInt 1, PFloat 0.046)).
Proof.
  assert (forall (costs : gmap string float) (totals : pynum * pynum)
                 (cur : ObjectRecord) (gib price : float),
             div_GiB (Size cur) = Ok gib ->
             costs !! StorageClass cur = Some price ->
             contribution (Some costs) cur = Ok (PFloat (gib * price))
             /\ scan_object (Some costs) totals cur
                = ([Yielded (split_on "/" (Key cur),
                             Plain (PFloat (gib * price)))],
                   Ok (num_add totals.1 (PInt 1),
                       num_add totals.2 (PFloat (gib * price))))) as Hscan.
  { intros costs totals cur gib price Hg Hp.
    assert (contribution (Some costs) cur = Ok (PFloat (gib * price))) as Hc
        by (unfold contribution; now rewrite Hg, Hp).
    split; [exact Hc|]. now apply scan_object_Ok. }
  split; [|split; [reflexivity|split; [|split]]].
  - intros costs totals cur gib price Hg Hp.
    now apply Hscan.
  - intros n Hn. destruct (div_GiB_exact n Hn) as (q & Hq & Hx).
    exists q. split; [exact Hq|]. split; [exact Hx|].
    intros q' Hx'. now apply (is_quotient_pow2_unique q' q n 30).
  - intros costs totals cur price Hn Hp.
    destruct (div_GiB_exact (Size cur) Hn) as (gib & Hg & Hx).
    exists gib. split; [exact Hx|]. now apply Hscan.
  - repeat split; vm_compute; reflexivity.
Qed.

Lemma cost_is_GiB_times_price_witness :
  scan_object (Some {["STANDARD" := 0.023%float]}) (PInt 0, PInt 0)
    two_GiB_object
  = ([Yielded (["two"], Plain (PFloat (2 * 0.023)))],
     Ok (PInt 1, PFloat (0 + 2 * 0.023)))
  /\ exists gib,
       is_quotient_pow2 gib 1610612736 30
       /\ contribution (Some {["STANDARD" := 0.023%float]})
            {| Key := "k"; Size := 1610612736; StorageClass := "STANDARD" |}
          = Ok (PFloat (gib * 0.023)).
Proof.
  destruct cost_is_GiB_times_price as (H & _ & _ & Hexact & _).
  split.
  - apply (H {["STANDARD" := 0.023%float]} (PInt 0, PInt 0) two_GiB_object
             2%float 0.023%float); vm_compute; reflexivity.
  - destruct (Hexact {["STANDARD" := 0.023%float]} (PInt 0, PInt 0)
                {| Key := "k"; Size := 1610612736; StorageClass := "STANDARD" |}
                0.023%float) as (gib & Hq & Hc & _).
    + split; [discriminate|reflexivity].
    + vm_compute. reflexivity.
    + exists gib. now split.
Defined.

(** ** C8: when the price failures come *)

(** C8, as the specification words it, fails: the first object is priced
    and yielded before the scan meets the second, whose storage class has
    no price. *)
Lemma output_before_unknown_class :
  demo_scan
    (listing_s3 [{| obj_Key := "a"; obj_Size := 1073741824;
                    obj_StorageClass := "STANDARD" |};
                 {| obj_Key := "b"; obj_Size := 5;
                    obj_StorageClass := "GLACIER" |}])
    no_cw (bucket_opts None (Some true) None)
  = ([Yielded (["a"], Plain (PFloat 0.023))], Raise (KeyError "GLACIER")).
Proof. vm_compute. reflexivity. Qed.

Section PriceFailures.
Variable S3_COST_CLASSES : list CostClass.
Variable pricing_data : gmap string (gmap string string).
Variable float_of_str : string -> result float.
Variable int_of_str : string -> result Z.
Variable unquote : string -> string.
Variable json_loads_manifest : string -> result Manifest.
Variable read_csv_gz : string -> stream (list string).
Variable boto3_s3 : string -> option string -> result S3.

Local Abbreviation scan :=
  (scan_bucket S3_COST_CLASSES pricing_data float_of_str int_of_str unquote
     json_loads_manifest read_csv_gz boto3_s3).
Local Abbreviation lister :=
  (s3_list_objects int_of_str unquote json_loads_manifest read_csv_gz).

(** C8, amended. In single-bucket cost mode a region without prices,
    or a cost class without a price in the region, ends the scan before
    anything is listed or yielded.  A record whose storage class has no
    price ends the scan when the scan reaches it: the pairs of the
    records before it have been yielded by then, and nothing is yielded
    for it or after it. *)
Theorem price_failures_are_fatal (opts : Opts) (bucket : string) (s3 : S3)
  (location : string) :
  truthy (s3_cost opts) = true ->
  get_s3 boto3_s3 (PyOpts opts) = Ok s3 ->
  get_bucket_location s3 bucket = Ok location ->
  (pricing_data !! location = None ->
   scan opts bucket = ([], Raise (unknown_region location)))
  /\ (forall e,
         pricing_data !! location <> None ->
         price_table S3_COST_CLASSES pricing_data float_of_str cc_s3 location
         = Raise e ->
         scan opts bucket = ([], Raise e))
  /\ (forall costs before cur after vals gib,
         pricing_data !! location <> None ->
         price_table S3_COST_CLASSES pricing_data float_of_str cc_s3 location
         = Ok costs ->
         yields (fst (lister opts s3)) = before ++ cur :: after ->
         Forall2 (fun cur v => contribution (Some costs) cur = Ok v)
                 before vals ->
         div_GiB (Size cur) = Ok gib ->
         costs !! StorageClass cur = None ->
         yields (fst (scan opts bucket)) = zip_with pair_of before vals
         /\ snd (scan opts bucket) = Raise (KeyError (StorageClass cur))).
Proof.
  intros Hcost Hs3 Hloc. unfold scan_bucket. rewrite Hs3, gen_bind_lift_Ok.
  rewrite Hcost, Hloc, gen_bind_lift_Ok.
  split; [|split].
  - intros ->. reflexivity.
  - intros e Hsome Hp.
    destruct (pricing_data !! location); [|congruence].
    rewrite Hp. reflexivity.
  - intros costs before cur after vals gib Hsome Hp Hy Hb Hg Hc.
    destruct (pricing_data !! location); [|congruence].
    rewrite Hp, gen_bind_lift_Ok, gen_bind_ret. unfold gen_pipe.
    assert (contribution (Some costs) cur = Raise (KeyError (StorageClass cur)))
      as He by (unfold contribution; now rewrite Hg, Hc).
    destruct (pipe_scan_fails (Some costs) _ _ _ _ _ (PInt 0, PInt 0) _
                Hy Hb He) as [H1 H2].
    destruct (gen_pipe_events _ _ _) as [evs r]. simpl in H1, H2. subst r.
    rewrite gen_bind_Raise. now split.
Qed.
End PriceFailures.

(** ** C7: the profiles of an account-wide scan *)

Lemma split_on_cons sep s : exists p ps, split_on sep s = p :: ps.
Proof.
  induction s as [|c s (p & ps & IH)]; simpl; [eauto|].
  destruct (Ascii.eqb c sep); [eauto|]. rewrite IH. eauto.
Qed.

Section Profiles.
Variable S3_COST_CLASSES : list CostClass.
Variable pricing_data : gmap string (gmap string string).
Variable float_of_str : string -> result float.
Variable int_of_str : string -> result Z.
Variable unquote : string -> string.
Variable json_loads_manifest : string -> result Manifest.
Variable read_csv_gz : string -> stream (list string).
Variable boto3_s3 : string -> option string -> result S3.
Variable imap_order :
  list (result (string * string)) -> list (result (string * string)).
Variable get_cw :
  string -> string -> result (list MetricDataQuery -> result (list MetricDataResult)).
Variable temp_cur : string.

(** C7 does not hold of the code. [get_profiles] makes the copy of the
    options with the profile put in, and yields the bare name instead;
    [get_s3] then fails on the first name, before any bucket is listed.
    So an account-wide scan, whatever its options, yields nothing and
    ends with that error. *)
Theorem account_scan_fails_on_first_profile (opts : Opts) :
  s3_bucket opts = None ->
  get_profiles opts = map PyStr (split_on "," (default "" (s3_profile opts)))
  /\ (forall profile, get_s3 boto3_s3 (PyStr profile)
                      = Raise (get_s3_on_name profile))
  /\ exists first others,
       split_on "," (default "" (s3_profile opts)) = first :: others
       /\ scan_folder S3_COST_CLASSES pricing_data float_of_str int_of_str
            unquote json_loads_manifest read_csv_gz boto3_s3 imap_order
            get_cw temp_cur opts
          = ([], Raise (get_s3_on_name first)).
Proof.
  intros Hb. split; [reflexivity|]. split.
  - intros profile. unfold get_s3, get_s3_on_name.
    now destruct (contains "s3_endpoint" profile).
  - destruct (split_on_cons "," (default "" (s3_profile opts)))
      as (first & others & Hs).
    exists first, others. split; [exact Hs|].
    unfold scan_folder. rewrite Hb. unfold scan_all_buckets, discover.
    unfold get_profiles. rewrite Hs. cbn [map result_for].
    unfold discover_profile at 1. unfold get_s3, get_s3_on_name.
    now destruct (contains "s3_endpoint" first).
Qed.
End Profiles.

Lemma account_scan_fails_on_first_profile_witness :
  demo_scan (listing_s3 []) no_cw two_profiles
  = ([], Raise (AttributeError "'str' object has no attribute 'get'")).
Proof.
  destruct (account_scan_fails_on_first_profile demo_classes demo_pricing
              demo_float_of_str demo_int_of_str demo_unquote demo_json_loads
              demo_read_csv_gz (fun _ _ => Ok (listing_s3 []))
              (fun results => results)
              (fun profile region => Ok (no_cw profile region))
              "2024-01-01" two_profiles eq_refl)
    as (_ & _ & first & others & Hs & H).
  vm_compute in Hs. injection Hs as <- <-. exact H.
Defined.

(** ** C6: the buckets of the closing loop *)

Lemma emit_bucket_finalized totals entry :
  finalized entry ->
  emit_bucket totals entry
  = if both_positive entry
    then ([Yielded (bucket_pair entry)], Ok (add_bucket_totals totals entry))
    else ([], Ok totals).
Proof.
  destruct entry as [bucket bs]. intros [[size Hs] [count Hc]].
  unfold emit_bucket, both_positive, bucket_pair, add_bucket_totals, final_size,
    final_count. simpl in *. rewrite Hs, Hc. simpl.
  destruct (num_pos size); [|reflexivity].
  destruct (num_pos count); reflexivity.
Qed.

Lemma emit_loop_finalized st totals :
  Forall finalized st ->
  gen_for st emit_bucket totals
  = (map Yielded (map bucket_pair (List.filter both_positive st)),
     Ok (fold_left add_bucket_totals (List.filter both_positive st) totals)).
Proof.
  intros H. revert totals. induction H as [|entry st He _ IH]; intros totals.
  - reflexivity.
  - cbn [gen_for List.filter]. rewrite (emit_bucket_finalized _ _ He).
    destruct (both_positive entry).
    + rewrite gen_bind_Ok, IH. reflexivity.
    + rewrite gen_bind_Ok, IH. reflexivity.
Qed.

(** C6, as the specification words it, fails: a bucket with a positive
    size and no object counted, and one with objects counted and no size,
    are both left out; only the bucket with both is yielded. *)
Lemma one_positive_is_not_enough :
  summaries (demo_aggregate no_opts
               [("p1", [("us-east-1", ["sizeonly"; "countonly"; "own"])])])
  = [("sizeonly", Some (PInt 100), Some (PInt 0));
     ("countonly", Some (PInt 0), Some (PInt 4));
     ("own", Some (PInt 50), Some (PInt 2))]
  /\ demo_scan_discovered no_opts
       [("p1", [("us-east-1", ["sizeonly"; "countonly"; "own"])])]
     = ([Yielded (["own"; ""], SizeCount (PInt 50) (PInt 2))],
        Ok (PInt 2, PInt 50)).
Proof. split; vm_compute; reflexivity. Qed.

(** C6, amended. Once every bucket has its summary, the closing loop
    yields, in the order of the statistics, exactly the buckets whose
    size and count are both positive, each once with its (size, count)
    pair, and the totals are the sums over those buckets.  A bucket with
    a size or a count that is not positive is left out. *)
Theorem emitted_when_both_positive (st : Stats) :
  Forall finalized st ->
  emit_buckets st
  = (map Yielded (map bucket_pair (List.filter both_positive st)),
     Ok (fold_left add_bucket_totals (List.filter both_positive st)
                   (PInt 0, PInt 0)))
  /\ (forall entry,
         In entry st ->
         (In entry (List.filter both_positive st)
          <-> num_pos (final_size entry) = true
              /\ num_pos (final_count entry) = true)).
Proof.
  intros H. split; [now apply emit_loop_finalized|].
  intros entry Hin. rewrite filter_In. unfold both_positive.
  rewrite andb_true_iff. tauto.
Qed.

Lemma emitted_when_both_positive_witness :
  emit_buckets [("sizeonly", {["_size" := PInt 100; "_count" := PInt 0]});
                ("own", {["_size" := PInt 50; "_count" := PInt 2]})]
  = ([Yielded (["own"; ""], SizeCount (PInt 50) (PInt 2))],
     Ok (PInt 2, PInt 50)).
Proof.
  destruct (emitted_when_both_positive
              [("sizeonly", {["_size" := PInt 100; "_count" := PInt 0]});
               ("own", {["_size" := PInt 50; "_count" := PInt 2]})]) as [H _].
  - repeat constructor; vm_compute; eauto.
  - rewrite H. vm_compute. reflexivity.
Defined.

(** ** C5: one summary for each bucket *)

Lemma od_get_alter {V} (f : option V -> V) (k k' : string)
  (d : list (string * V)) :
  od_get k' (od_alter f k d)
  = if String.eqb k' k then Some (f (od_get k d)) else od_get k' d.
Proof.
  induction d as [|[k0 v] d IH]; simpl.
  - reflexivity.
  - destruct (String.eqb_spec k k0) as [->|Hne]; simpl.
    + destruct (String.eqb k' k0); reflexivity.
    + rewrite IH. destruct (String.eqb_spec k' k0) as [->|Hne'].
      * destruct (String.eqb_spec k0 k); [congruence|reflexivity].
      * reflexivity.
Qed.

Lemma od_alter_keys {V} (f : option V -> V) (k : string)
  (d : list (string * V)) :
  List.NoDup (map fst d) ->
  List.NoDup (map fst (od_alter f k d))
  /\ forall k', In k' (map fst (od_alter f k d)) <-> k' = k \/ In k' (map fst d).
Proof.
  induction d as [|[k0 v] d IH]; simpl; intros Hnd.
  - split; [repeat constructor; auto|]. intros k'. intuition.
  - inversion Hnd as [|? ? Hnotin Hnd']; subst.
    destruct (IH Hnd') as [IH1 IH2].
    destruct (String.eqb_spec k k0) as [->|Hne]; simpl.
    + split; [assumption|]. intros k'. intuition.
    + split.
      * constructor; [|assumption]. rewrite IH2. intuition.
      * intros k'. rewrite IH2. intuition.
Qed.

Lemma od_alter_Forall {V} (Q : V -> Prop) (f : option V -> V) (k : string)
  (d : list (string * V)) :
  Q (f None) -> (forall v, Q v -> Q (f (Some v))) ->
  Forall (fun entry => Q entry.2) d ->
  Forall (fun entry => Q entry.2) (od_alter f k d).
Proof.
  intros Hn Hs. induction 1 as [|[k0 v] d Hv Hd IH]; simpl.
  - constructor; [exact Hn|constructor].
  - destruct (String.eqb k k0); constructor; simpl; auto.
Qed.

Lemma result_for_invariant {X S} (P : S -> Prop) (xs : list X)
  (body : S -> X -> result S) (s s' : S) :
  (forall s x s', In x xs -> P s -> body s x = Ok s' -> P s') ->
  P s -> result_for xs body s = Ok s' -> P s'.
Proof.
  revert s. induction xs as [|x xs IH]; intros s Hbody Hs H; simpl in H.
  - now injection H as <-.
  - invert_bind H. eapply IH; [| |exact H].
    + intros; eapply Hbody; eauto. now right.
    + eapply Hbody; eauto. now left.
Qed.

Lemma marker_set_stat st b storage x bucket key :
  storage <> key ->
  marker (set_stat b storage x st) bucket key = marker st bucket key.
Proof.
  intros Hne. unfold marker, set_stat. rewrite od_get_alter.
  destruct (String.eqb_spec bucket b) as [->|]; [|reflexivity].
  simpl. rewrite lookup_insert_ne by assumption.
  destruct (od_get b st); reflexivity.
Qed.

Lemma set_stat_consistent st b storage x :
  storage <> "_count" -> storage <> "_size" ->
  Forall (fun entry => consistent entry.2) st ->
  Forall (fun entry => consistent entry.2) (set_stat b storage x st).
Proof.
  intros H1 H2. unfold set_stat. apply od_alter_Forall.
  - unfold consistent. simpl. rewrite lookup_insert_ne by assumption.
    rewrite lookup_empty. intros [? [=]].
  - intros v Hv. unfold consistent in *. simpl.
    now rewrite !lookup_insert_ne by assumption.
Qed.

Section Dedup.
Variable S3_COST_CLASSES : list CostClass.
Variable pricing_data : gmap string (gmap string string).
Variable float_of_str : string -> result float.
Variable get_cw :
  string -> string -> result (list MetricDataQuery -> result (list MetricDataResult)).
Variable temp_cur : string.
Hypothesis reserved : reserved_free S3_COST_CLASSES.

Local Abbreviation pass :=
  (scan_profile S3_COST_CLASSES pricing_data float_of_str get_cw temp_cur).

Lemma storages_not_reserved s :
  In s (storages S3_COST_CLASSES) -> s.1.1 <> "_count" /\ s.1.1 <> "_size".
Proof.
  unfold storages. rewrite in_app_iff, in_map_iff.
  intros [(x & <- & Hx)|[<-|[]]]; simpl.
  - unfold reserved_free in reserved.
    rewrite List.Forall_forall in reserved. now apply reserved.
  - split; discriminate.
Qed.

(** What the statistics keep through the metrics of a region. *)
Lemma scan_region_invariant (P : Stats -> Prop) profile agg entry agg' :
  (forall st b s x, In s (storages S3_COST_CLASSES) ->
                    P st -> P (set_stat b s.1.1 x st)) ->
  P (stats agg) ->
  scan_region S3_COST_CLASSES get_cw temp_cur profile agg entry = Ok agg' ->
  P (stats agg').
Proof.
  intros Hset HP H. destruct entry as [region found]. unfold scan_region in H.
  invert_bind H. destruct (region_queries _ found) as [bucket_ids queries].
  invert_bind H. invert_bind H. injection H as <-. simpl.
  eapply result_for_invariant; [|exact HP|exact Ha1].
  intros st bucket st' _ Hst Hb. simpl in Hb.
  eapply result_for_invariant; [|exact Hst|exact Hb].
  intros st0 s st0' Hs Hst0 Hbody. simpl in Hbody.
  repeat invert_bind Hbody. injection Hbody as <-. now apply Hset.
Qed.

Lemma scan_regions_invariant (P : Stats -> Prop) profile regions agg agg' :
  (forall st b s x, In s (storages S3_COST_CLASSES) ->
                    P st -> P (set_stat b s.1.1 x st)) ->
  P (stats agg) ->
  result_for regions (scan_region S3_COST_CLASSES get_cw temp_cur profile) agg
  = Ok agg' ->
  P (stats agg').
Proof.
  intros Hset HP H.
  eapply (result_for_invariant (fun agg => P (stats agg))); [|exact HP|exact H].
  intros a entry a' _ Ha Hr. eapply scan_region_invariant; eauto.
Qed.

(** A bucket with its [_count] is left as it is. *)
Lemma summarize_skips costs to_region bucket bucket_stats :
  is_Some (bucket_stats !! "_count") ->
  summarize S3_COST_CLASSES costs to_region bucket bucket_stats
  = Ok bucket_stats.
Proof. intros [c Hc]. unfold summarize. now rewrite Hc. Qed.

Lemma summarize_finalizes costs to_region bucket bucket_stats done :
  consistent bucket_stats ->
  summarize S3_COST_CLASSES costs to_region bucket bucket_stats = Ok done ->
  finalized (bucket, done).
Proof.
  intros Hcons H. unfold summarize in H.
  destruct (bucket_stats !! "_count") as [c|] eqn:Hc.
  - injection H as <-. split; simpl; [apply Hcons|]; rewrite Hc; eauto.
  - invert_bind H. injection H as <-. split; simpl.
    + rewrite lookup_insert_eq. eauto.
    + rewrite lookup_insert_ne by discriminate. rewrite lookup_insert_eq. eauto.
Qed.

Lemma summarize_all_spec costs to_region st st' :
  summarize_all S3_COST_CLASSES costs to_region st = Ok st' ->
  map fst st' = map fst st
  /\ (Forall (fun entry => consistent entry.2) st -> Forall finalized st')
  /\ (forall bucket key,
         is_Some (marker st bucket "_count") ->
         marker st' bucket key = marker st bucket key).
Proof.
  revert st'. induction st as [|[b bs] st IH]; intros st' H; simpl in H.
  - injection H as <-. repeat split; auto.
  - invert_bind H. invert_bind H. injection H as <-.
    destruct (IH _ Ha0) as (IH1 & IH2 & IH3).
    split; [simpl; now f_equal|]. split.
    + intros Hc. inversion Hc; subst. constructor; [|auto].
      eapply summarize_finalizes; eauto.
    + intros bucket key. unfold marker. simpl.
      destruct (String.eqb bucket b).
      * simpl. intros Hsome. rewrite summarize_skips in Ha by assumption.
        now injection Ha as <-.
      * apply IH3.
Qed.

(** What one pass keeps: the summaries made before it, one entry for a
    bucket, and a summary for every bucket once it is over. *)
Lemma pass_spec opts agg entry agg' :
  pass opts agg entry = Ok agg' ->
  (forall bucket key v,
      key = "_size" \/ key = "_count" ->
      is_Some (marker (stats agg) bucket "_count") ->
      marker (stats agg) bucket key = Some v ->
      marker (stats agg') bucket key = Some v)
  /\ (List.NoDup (map fst (stats agg)) -> List.NoDup (map fst (stats agg')))
  /\ (Forall (fun entry => consistent entry.2) (stats agg) ->
      Forall finalized (stats agg')).
Proof.
  destruct entry as [profile regions]. unfold scan_profile. intros H.
  invert_bind H. invert_bind H. invert_bind H. injection H as <-. simpl.
  destruct (summarize_all_spec _ _ _ _ Ha1) as (Hkeys & Hfin & Hmark).
  split; [|split].
  - intros bucket key v Hkey Hsome Hv.
    assert (forall key', key' = "_size" \/ key' = "_count" ->
              marker (stats a) bucket key' = marker (stats agg) bucket key')
      as Hsame.
    { intros key' Hkey'.
      eapply (scan_regions_invariant
                (fun st => marker st bucket key' = marker (stats agg) bucket key'));
        [|reflexivity|exact Ha].
      intros st b s x Hs Hst. rewrite marker_set_stat; [exact Hst|].
      apply storages_not_reserved in Hs. destruct Hkey' as [->| ->]; tauto. }
    rewrite Hmark; [now rewrite Hsame|].
    rewrite Hsame by now right. exact Hsome.
  - intros Hnd. rewrite Hkeys.
    eapply (scan_regions_invariant (fun st => List.NoDup (map fst st)));
      [|exact Hnd|exact Ha].
    intros st b s x _ Hst. unfold set_stat. now apply od_alter_keys.
  - intros Hc. apply Hfin.
    eapply (scan_regions_invariant
              (fun st => Forall (fun entry => consistent entry.2) st));
      [|exact Hc|exact Ha].
    intros st b s x Hs Hst. apply storages_not_reserved in Hs.
    apply set_stat_consistent; tauto.
Qed.

Lemma passes_keep_summaries opts later agg agg' bucket key v :
  key = "_size" \/ key = "_count" ->
  is_Some (marker (stats agg) bucket "_count") ->
  marker (stats agg) bucket key = Some v ->
  result_for later (pass opts) agg = Ok agg' ->
  marker (stats agg') bucket key = Some v.
Proof.
  intros Hkey. revert agg. induction later as [|entry later IH];
    intros agg Hsome Hv H; simpl in H.
  - now injection H as <-.
  - invert_bind H. destruct (pass_spec _ _ _ _ Ha) as (Hkeep & _ & _).
    destruct Hsome as [c Hc]. eapply IH; [| |exact H].
    + rewrite (Hkeep bucket "_count" c); eauto.
    + apply Hkeep; eauto.
Qed.

Lemma finalized_consistent st :
  Forall finalized st -> Forall (fun entry => consistent entry.2) st.
Proof.
  intros H. eapply List.Forall_impl; [|exact H].
  intros entry [Hs _] _. exact Hs.
Qed.

Lemma aggregate_spec opts buckets agg :
  aggregate S3_COST_CLASSES pricing_data float_of_str get_cw temp_cur
    opts buckets = Ok agg ->
  List.NoDup (map fst (stats agg)) /\ Forall finalized (stats agg).
Proof.
  unfold aggregate. intros H.
  eapply (result_for_invariant
            (fun agg => List.NoDup (map fst (stats agg))
                        /\ Forall finalized (stats agg))); [| |exact H].
  - intros a entry a' _ [Hnd Hfin] Hp.
    destruct (pass_spec _ _ _ _ Hp) as (_ & Hnd' & Hfin').
    split; [auto|]. apply Hfin'. now apply finalized_consistent.
  - simpl. split; constructor.
Qed.

Lemma filter_keys_NoDup {V} (f : string * V -> bool) (l : list (string * V)) :
  List.NoDup (map fst l) -> List.NoDup (map fst (List.filter f l)).
Proof.
  induction l as [|entry l IH]; simpl; intros H; [constructor|].
  inversion H as [|? ? Hnotin Hnd]; subst.
  destruct (f entry); simpl; [|auto].
  constructor; [|auto]. intros Hin. apply Hnotin.
  apply in_map_iff in Hin as (e & He & Hin). apply in_map_iff.
  exists e. split; [exact He|]. now apply filter_In in Hin.
Qed.

Lemma bucket_pairs_NoDup (l : Stats) :
  List.NoDup (map fst l) -> List.NoDup (map fst (map bucket_pair l)).
Proof.
  induction l as [|entry l IH]; simpl; intros H; [constructor|].
  inversion H as [|? ? Hnotin Hnd]; subst.
  constructor; [|auto]. intros Hin. apply Hnotin.
  rewrite map_map in Hin. apply in_map_iff in Hin as (e & He & Hin).
  simpl in He. injection He as He. apply in_map_iff. eauto.
Qed.

End Dedup.

Example scenario_shared_bucket :
  summaries (demo_aggregate no_opts [("p1", [("us-east-1", ["shared"])])])
  = [("shared", Some (PInt 100), Some (PInt 3))]
  /\ summaries (demo_aggregate no_opts shared_buckets)
     = [("shared", Some (PInt 100), Some (PInt 3));
        ("own", Some (PInt 50), Some (PInt 2))]
  /\ final_stat (demo_aggregate no_opts shared_buckets) "shared"
       "StandardStorage" = Some (PInt 999)
  /\ demo_scan_discovered no_opts shared_buckets
     = ([Yielded (["shared"; ""], SizeCount (PInt 100) (PInt 3));
         Yielded (["own"; ""], SizeCount (PInt 50) (PInt 2))],
        Ok (PInt 5, PInt 150)).
Proof. repeat split; vm_compute; reflexivity. Qed.


(** ** The scenarios of the reader, the lister and the price failures *)


Lemma inventory_rows_filtered_by_prefix_witness :
  yields (fst (s3_list_objects demo_int_of_str demo_unquote demo_json_loads
                 demo_read_csv_gz (bucket_opts (Some "data/") None (Some true))
                 inventory_s3))
  = [{| Key := "a b"; Size := 100; StorageClass := "" |};
     {| Key := "sub/b"; Size := 50; StorageClass := "" |}]
  /\ snd (s3_list_objects demo_int_of_str demo_unquote demo_json_loads
            demo_read_csv_gz (bucket_opts (Some "data/") None (Some true))
            inventory_s3)
     = Ok tt.
Proof.
  destruct (inventory_rows_filtered_by_prefix demo_classes demo_pricing
              demo_float_of_str demo_int_of_str demo_unquote
              demo_json_loads demo_read_csv_gz (fun _ _ => Ok inventory_s3)
              (bucket_opts (Some "data/") None (Some true)) inventory_s3 "b"
              eq_refl eq_refl) as (_ & _ & _ & _ & _ & _ & H & _).
  destruct (H [[{| Key := "a b"; Size := 100; StorageClass := "" |}]; [];
               [{| Key := "sub/b"; Size := 50; StorageClass := "" |}]])
    as [Hy Hs].
  - repeat constructor.
    + match goal with
      | |- row_gives _ _ ?p ?r _ =>
          assert (r !! "Key" = Some "data/a%20b") as Hk
            by (vm_compute; reflexivity);
          assert (r !! "Size" = Some "100") as Hs by (vm_compute; reflexivity);
          exact (row_emitted demo_int_of_str demo_unquote p r "data/a%20b"
                   "100" 100 Hk eq_refl Hs eq_refl)
      end.
    + match goal with
      | |- row_gives _ _ ?p ?r _ =>
          assert (r !! "Key" = Some "other/c") as Hk
            by (vm_compute; reflexivity);
          exact (row_dropped demo_int_of_str demo_unquote p r "other/c" Hk
                   eq_refl)
      end.
    + match goal with
      | |- row_gives _ _ ?p ?r _ =>
          assert (r !! "Key" = Some "data/sub/b") as Hk
            by (vm_compute; reflexivity);
          assert (r !! "Size" = Some "50") as Hs by (vm_compute; reflexivity);
          exact (row_emitted demo_int_of_str demo_unquote p r "data/sub/b"
                   "50" 50 Hk eq_refl Hs eq_refl)
      end.
  - split; [exact Hy|]. rewrite Hs. vm_compute. reflexivity.
Defined.

Example scenario_inventory_records :
  yields (fst (s3_list_objects demo_int_of_str demo_unquote demo_json_loads
                 demo_read_csv_gz (bucket_opts (Some "data/") None (Some true))
                 inventory_s3))
  = [{| Key := "a b"; Size := 100; StorageClass := "" |};
     {| Key := "sub/b"; Size := 50; StorageClass := "" |}].
Proof. vm_compute. reflexivity. Qed.

Lemma price_failures_are_fatal_witness :
  yields (fst (scan_bucket demo_classes demo_pricing demo_float_of_str
                 demo_int_of_str demo_unquote demo_json_loads demo_read_csv_gz
                 (fun _ _ => Ok (listing_s3 priced_and_unpriced))
                 (bucket_opts None (Some true) None) "b"))
  = [(["a"], Plain (PFloat 0.023))]
  /\ snd (scan_bucket demo_classes demo_pricing demo_float_of_str
            demo_int_of_str demo_unquote demo_json_loads demo_read_csv_gz
            (fun _ _ => Ok (listing_s3 priced_and_unpriced))
            (bucket_opts None (Some true) None) "b")
     = Raise (KeyError "GLACIER").
Proof.
  destruct (price_failures_are_fatal demo_classes demo_pricing
              demo_float_of_str demo_int_of_str demo_unquote demo_json_loads
              demo_read_csv_gz (fun _ _ => Ok (listing_s3 priced_and_unpriced))
              (bucket_opts None (Some true) None) "b"
              (listing_s3 priced_and_unpriced) "us-east-1"
              eq_refl eq_refl eq_refl) as (_ & _ & H).
  apply (H {["STANDARD" := 0.023%float]}
           [{| Key := "a"; Size := 1073741824; StorageClass := "STANDARD" |}]
           {| Key := "b"; Size := 5; StorageClass := "GLACIER" |}
           [] [PFloat 0.023] (5 / 1073741824)%float).
  - vm_compute. discriminate.
  - vm_compute. reflexivity.
  - vm_compute. reflexivity.
  - repeat constructor.
  - vm_compute. reflexivity.
  - vm_compute. reflexivity.
Defined.

(** * Further properties of the code *)

(** ** [split] and [join] *)

Lemma join_cons_String sep c w ws :
  join sep (String c w :: ws) = String c (join sep (w :: ws)).
Proof. destruct ws; reflexivity. Qed.

Lemma split_on_sep sep s : split_on sep (String sep s) = "" :: split_on sep s.
Proof. simpl. now rewrite Ascii.eqb_refl. Qed.

Lemma split_on_other sep c s :
  c <> sep ->
  split_on sep (String c s)
  = match split_on sep s with
    | w :: ws => String c w :: ws
    | [] => [String c ""]
    end.
Proof.
  intros Hne. simpl. destruct (Ascii.eqb_spec c sep); [contradiction|reflexivity].
Qed.

(** X1. Joining the segments of a path with the separator gives the path
    back, whatever the path: [join(split(path)) == path]. *)
Theorem join_split_path (path : string) : join_path (split_path path) = path.
Proof.
  unfold join_path, split_path. induction path as [|c path IH].
  - reflexivity.
  - destruct (Ascii.eqb_spec c "/") as [->|Hne].
    + rewrite split_on_sep.
      destruct (split_on_cons "/" path) as (p & ps & Hs).
      rewrite Hs in *.
      change (join "/" ("" :: p :: ps)) with (String "/" (join "/" (p :: ps))).
      now rewrite IH.
    + rewrite split_on_other by assumption.
      destruct (split_on_cons "/" path) as (p & ps & Hs).
      rewrite Hs in *. rewrite join_cons_String. now rewrite IH.
Qed.

Lemma split_on_no_sep sep s :
  has_char sep s = false -> split_on sep s = [s].
Proof.
  induction s as [|c s IH]; [reflexivity|]. cbn [has_char].
  intros H. apply orb_false_iff in H as [Hc Hs].
  rewrite split_on_other by (intros ->; now rewrite Ascii.eqb_refl in Hc).
  now rewrite IH.
Qed.

Lemma split_on_append sep p s :
  has_char sep p = false ->
  split_on sep (p +++ String sep s) = p :: split_on sep s.
Proof.
  induction p as [|c p IH]; intros H.
  - rewrite append_empty_l. apply split_on_sep.
  - cbn [has_char] in H. apply orb_false_iff in H as [Hc Hs].
    rewrite append_String.
    rewrite split_on_other by (intros ->; now rewrite Ascii.eqb_refl in Hc).
    now rewrite IH.
Qed.

(** X2. Splitting the path made of segments gives the segments back,
    when there is at least one segment and none holds the separator:
    [split(join(segments)) == segments]. *)
Theorem split_join_path (segments : list string) :
  segments <> [] ->
  Forall (fun p => has_char "/" p = false) segments ->
  split_path (join_path segments) = segments.
Proof.
  unfold split_path, join_path. intros Hne H.
  induction H as [|p ps Hp Hps IH]; [contradiction|].
  destruct ps as [|q ps].
  - cbn [join]. now apply split_on_no_sep.
  - change (join "/" (p :: q :: ps)) with (p +++ String "/" (join "/" (q :: ps))).
    rewrite split_on_append by assumption. f_equal. now apply IH.
Qed.

Lemma split_join_path_witness :
  split_path (join_path ["base"; "other"; ""; "001"])
  = ["base"; "other"; ""; "001"].
Proof.
  apply split_join_path; [discriminate|].
  repeat constructor.
Defined.

(** ** [handle_args] *)

Lemma parse_args_unfold o args :
  parse_args o args
  = match parse_step o args with
    | Some (o', rest) => parse_args o' rest
    | None => (o, args)
    end.
Proof.
  destruct args as [|a [|v rest]]; [reflexivity| |]; cbn [parse_args parse_step].
  - destruct (String.eqb a "--all_buckets"); [reflexivity|].
    destruct (String.eqb a "--cost"); [reflexivity|].
    destruct (String.eqb a "--inventory"); reflexivity.
  - destruct (String.eqb_spec a "--profile") as [->|]; [reflexivity|].
    destruct (String.eqb_spec a "--bucket") as [->|]; [reflexivity|].
    destruct (String.eqb_spec a "--prefix") as [->|]; [reflexivity|].
    destruct (String.eqb a "--all_buckets"); [reflexivity|].
    destruct (String.eqb a "--cost"); [reflexivity|].
    destruct (String.eqb a "--inventory"); [reflexivity|].
    destruct (String.eqb a "--endpoint"); reflexivity.
Qed.

Lemma parse_step_consumes o args o' rest :
  parse_step o args = Some (o', rest) ->
  (exists consumed, consumed <> [] /\ args = consumed ++ rest)
  /\ options_kept o o'.
Proof.
  unfold parse_step, options_kept. intros H.
  destruct args as [|a tl]; [discriminate|].
  repeat match type of H with
         | (if ?c then _ else _) = _ => destruct c
         | match ?l with [] => _ | _ :: _ => _ end = _ => destruct l
         | Some _ = Some _ => injection H as <- <-
         | None = Some _ => discriminate
         end;
    (split; [first [ now exists [a] | now eexists [a; _] ]
            | simpl; repeat split; eauto ]).
Qed.

(** What [parse_args] keeps, from a property that each turn of the loop
    keeps. *)
Lemma parse_args_ind (P : Opts -> list string -> Opts -> list string -> Prop) :
  (forall o args, parse_step o args = None -> P o args o args) ->
  (forall o args o1 args1 o2 args2,
      parse_step o args = Some (o1, args1) ->
      P o1 args1 o2 args2 -> P o args o2 args2) ->
  forall o args, P o args (parse_args o args).1 (parse_args o args).2.
Proof.
  intros Hstop Hstep o args. remember (List.length args) as n eqn:Hn.
  revert o args Hn. induction n as [n IH] using lt_wf_ind. intros o args Hn.
  rewrite parse_args_unfold.
  destruct (parse_step o args) as [[o1 args1]|] eqn:Hs.
  - eapply Hstep; [exact Hs|]. eapply IH; [|reflexivity].
    apply parse_step_consumes in Hs as [(consumed & Hne & ->) _].
    subst n. rewrite length_app. destruct consumed; [contradiction|simpl; lia].
  - now apply Hstop.
Qed.

Lemma parse_args_spec o args :
  (exists consumed, args = consumed ++ (parse_args o args).2)
  /\ parse_step (parse_args o args).1 (parse_args o args).2 = None
  /\ options_kept o (parse_args o args).1.
Proof.
  apply (parse_args_ind
           (fun o args o' rest =>
              (exists consumed, args = consumed ++ rest)
              /\ parse_step o' rest = None
              /\ options_kept o o')).
  - intros o0 args0 Hs. split; [now exists []|]. split; [exact Hs|].
    unfold options_kept. tauto.
  - intros o0 args0 o1 args1 o2 args2 Hs ((consumed & ->) & Hstop & Hkept).
    apply parse_step_consumes in Hs as [(consumed' & _ & ->) Hkept'].
    split; [exists (consumed' ++ consumed); now rewrite app_assoc|].
    split; [exact Hstop|]. unfold options_kept in *. tauto.
Qed.

Lemma parse_step_known o args o' rest :
  parse_step o args = Some (o', rest)
  <-> exists taken set,
        known_option taken set /\ args = taken ++ rest /\ o' = set o.
Proof.
  split.
  - unfold parse_step. intros H.
    destruct args as [|a tl]; [discriminate|].
    destruct (String.eqb_spec a "--all_buckets") as [->|];
      [injection H as <- <-; eexists _, _;
       split; [apply opt_all_buckets|now split]|].
    destruct (String.eqb_spec a "--cost") as [->|];
      [injection H as <- <-; eexists _, _;
       split; [apply opt_cost|now split]|].
    destruct (String.eqb_spec a "--inventory") as [->|];
      [injection H as <- <-; eexists _, _;
       split; [apply opt_inventory|now split]|].
    destruct tl as [|v tl]; [discriminate|].
    destruct (String.eqb_spec a "--profile") as [->|];
      [injection H as <- <-; eexists _, _;
       split; [apply (opt_profile v)|now split]|].
    destruct (String.eqb_spec a "--bucket") as [->|];
      [injection H as <- <-; eexists _, _;
       split; [apply (opt_bucket v)|now split]|].
    destruct (String.eqb_spec a "--prefix") as [->|];
      [injection H as <- <-; eexists _, _;
       split; [apply (opt_prefix v)|now split]|].
    destruct (String.eqb_spec a "--endpoint") as [->|];
      [injection H as <- <-; eexists _, _;
       split; [apply (opt_endpoint v)|now split]|].
    discriminate.
  - intros (taken & set & Hk & -> & ->). destruct Hk; reflexivity.
Qed.

Lemma parse_step_None o args :
  parse_step o args = None <-> ~ starts_with_option args.
Proof.
  split.
  - intros H (taken & set & rest & Hk & Ha).
    assert (parse_step o args = Some (set o, rest)) as H'
        by (apply parse_step_known; eauto).
    congruence.
  - intros H. destruct (parse_step o args) as [[o' rest]|] eqn:Hs;
      [|reflexivity].
    exfalso. apply H.
    apply parse_step_known in Hs as (taken & set & Hk & Ha & _).
    now exists taken, set, rest.
Qed.

Lemma parse_args_known o args :
  exists taken,
    args = taken ++ (parse_args o args).2
    /\ known_options o taken (parse_args o args).1
    /\ ~ starts_with_option (parse_args o args).2.
Proof.
  apply (parse_args_ind
           (fun o args o' rest =>
              exists taken,
                args = taken ++ rest /\ known_options o taken o'
                /\ ~ starts_with_option rest)).
  - intros o0 args0 Hs. exists []. split; [reflexivity|].
    split; [constructor|]. now apply (parse_step_None o0).
  - intros o0 args0 o1 args1 o2 args2 Hs (taken & -> & Hk & Hstop).
    apply parse_step_known in Hs as (taken1 & set & Hk1 & -> & ->).
    exists (taken1 ++ taken). split; [now rewrite app_assoc|].
    split; [now apply options_cons with (set := set)|exact Hstop].
Qed.

(** X3. Called with the imports in place and no help asked for,
    [handle_args] takes from the front of its arguments a run of the
    options it knows, each with its value when it has one, sets them in
    turn, and returns the arguments that follow the run; what it returns
    does not start with an option it knows.  Called with help asked for,
    or without the imports, it takes nothing: it returns its arguments
    whole and leaves the options as they are.  In every case, handed
    what it returned, it returns it whole. *)
Theorem handle_args_returns_the_rest (st : ArgState) (args : list string) :
  (show_help st = false ->
   exists taken,
     args = taken ++ (handle_args true st args).2
     /\ known_options (arg_opts st) taken
          (arg_opts (handle_args true st args).1)
     /\ ~ starts_with_option (handle_args true st args).2)
  /\ (show_help st = true ->
      (handle_args true st args).2 = args
      /\ arg_opts (handle_args true st args).1 = arg_opts st)
  /\ (handle_args false st args).2 = args
  /\ arg_opts (handle_args false st args).1 = arg_opts st
  /\ (forall imports_ok,
         (handle_args imports_ok (handle_args imports_ok st args).1
                      (handle_args imports_ok st args).2).2
         = (handle_args imports_ok st args).2).
Proof.
  split; [|split; [|split; [|split]]].
  - unfold handle_args. cbn [show_help arg_opts negb].
    intros ->. cbn [negb].
    destruct (parse_args_known (arg_opts st) args) as (taken & H1 & H2 & H3).
    destruct (parse_args (arg_opts st) args) as [o rest].
    cbn [fst snd arg_opts] in *.
    now exists taken.
  - unfold handle_args. cbn [show_help arg_opts negb].
    intros ->. cbn [negb]. split; reflexivity.
  - reflexivity.
  - reflexivity.
  - intros imports_ok. unfold handle_args.
    destruct imports_ok; cbn [show_help arg_opts negb];
      [destruct (show_help st) eqn:Hh; cbn [negb]|]; try reflexivity.
    destruct (parse_args_spec (arg_opts st) args) as (_ & Hstop & _).
    destruct (parse_args (arg_opts st) args) as [o rest]. cbn [fst snd] in *.
    destruct (negb (bool_decide (exclusive_errors o = []))); [reflexivity|].
    cbn [show_help arg_opts printed negb fst snd].
    rewrite parse_args_unfold, Hstop. reflexivity.
Qed.

Lemma handle_args_returns_the_rest_witness :
  exists taken,
    ["--bucket"; "b"; "--cost"; "--prefix"; "--cost"; "--prefix"]
    = taken
      ++ (handle_args true
            {| arg_opts := no_opts; show_help := false; printed := [] |}
            ["--bucket"; "b"; "--cost"; "--prefix"; "--cost"; "--prefix"]).2
    /\ known_options no_opts taken
         (arg_opts
            (handle_args true
               {| arg_opts := no_opts; show_help := false; printed := [] |}
               ["--bucket"; "b"; "--cost"; "--prefix"; "--cost"; "--prefix"]).1)
    /\ ~ starts_with_option
           (handle_args true
              {| arg_opts := no_opts; show_help := false; printed := [] |}
              ["--bucket"; "b"; "--cost"; "--prefix"; "--cost"; "--prefix"]).2.
Proof.
  destruct (handle_args_returns_the_rest
              {| arg_opts := no_opts; show_help := false; printed := [] |}
              ["--bucket"; "b"; "--cost"; "--prefix"; "--cost"; "--prefix"])
    as [H _].
  apply H. reflexivity.
Defined.

(** X4. [handle_args] never takes an option away: an option that is set
    when it is called is set when it returns. *)
Theorem handle_args_keeps_options (imports_ok : bool) (st : ArgState)
  (args : list string) :
  options_kept (arg_opts st) (arg_opts (handle_args imports_ok st args).1).
Proof.
  unfold handle_args.
  destruct imports_ok; cbn [show_help arg_opts negb];
    [destruct (show_help st) eqn:Hh; cbn [negb]|];
    try (unfold options_kept; simpl; tauto).
  destruct (parse_args_spec (arg_opts st) args) as (_ & _ & Hkept).
  destruct (parse_args (arg_opts st) args) as [o rest]. exact Hkept.
Qed.

(** X5. When [handle_args] is called with the imports in place and no
    help asked for, help is asked for on return exactly when
    [all_buckets] is set together with [bucket], [prefix] or [inventory];
    the messages it prints are those of the exclusion table, and none of
    the checks for a missing bucket or for a custom endpoint is made. *)
Theorem handle_args_exclusions (st : ArgState) (args : list string) :
  show_help st = false ->
  let st' := (handle_args true st args).1 in
  let o := arg_opts st' in
  (show_help st' = true
   <-> is_Some (s3_all_buckets o)
       /\ (is_Some (s3_bucket o) \/ is_Some (s3_prefix o)
           \/ is_Some (s3_inventory o)))
  /\ printed st' = printed st ++ exclusive_errors o
  /\ o = (parse_args (arg_opts st) args).1.
Proof.
  intros Hh st' o. subst o st'. unfold handle_args. rewrite Hh. cbn [negb].
  destruct (parse_args (arg_opts st) args) as [o rest].
  cbn [fst snd arg_opts show_help printed].
  split; [|split; reflexivity].
  destruct o as [profile [bucket|] [prefix|] [all_buckets|] cost
                   [inventory|] endpoint];
    vm_compute;
    (split; intros H;
     [ first [ discriminate H
             | split;
               [ eexists; reflexivity
               | first [ left; eexists; reflexivity
                       | right; left; eexists; reflexivity
                       | right; right; eexists; reflexivity ] ] ]
     | first [ reflexivity
             | destruct H as [[? ?] [[? ?]|[[? ?]|[? ?]]]]; discriminate ] ]).
Qed.

Lemma handle_args_exclusions_witness :
  show_help
    (handle_args true
       {| arg_opts := no_opts; show_help := false; printed := [] |}
       ["--endpoint"; "http://host"; "--inventory"; "extra"]).1 = false.
Proof.
  destruct (handle_args_exclusions
              {| arg_opts := no_opts; show_help := false; printed := [] |}
              ["--endpoint"; "http://host"; "--inventory"; "extra"] eq_refl)
    as (H & _ & _).
  destruct (show_help _) eqn:E; [|reflexivity].
  destruct (proj1 H eq_refl) as [[x Hx] _]. vm_compute in Hx. discriminate.
Defined.

(** ** The selector: what it returns, and when *)

Lemma well_formed_is_valid required_fields prefix cur :
  (config_format cur = "CSV" -> is_Some (OptionalFields cur)) ->
  is_valid required_fields prefix cur
  = Ok (kept required_fields prefix cur).
Proof.
  intros H. unfold kept, is_valid.
  destruct (String.eqb_spec (config_format cur) "CSV") as [Hf|Hf];
    cbn [negb]; [|reflexivity].
  destruct (H Hf) as [fields ->]. cbn [item result_bind].
  repeat match goal with
         | |- context [if ?c then _ else _] => destruct c
         end; reflexivity.
Qed.

Lemma possible_configs_well_formed required_fields prefix configs :
  well_formed configs ->
  possible_configs required_fields prefix (configs, None)
  = Ok (List.filter (kept required_fields prefix) configs).
Proof.
  intros H. unfold possible_configs. cbn [fst snd].
  assert (forall acc,
             result_for configs
               (fun possible cur =>
                  let! valid := is_valid required_fields prefix cur in
                  Ok (if valid then possible ++ [cur] else possible)) acc
             = Ok (acc ++ List.filter (kept required_fields prefix) configs))
    as Hloop.
  { induction H as [|cur configs Hc _ IH]; intros acc; cbn [result_for].
    - simpl. now rewrite app_nil_r.
    - rewrite (well_formed_is_valid _ _ _ Hc). cbn [result_bind List.filter].
      rewrite IH. destruct (kept required_fields prefix cur);
        [now rewrite <- app_assoc|reflexivity]. }
  rewrite Hloop. reflexivity.
Qed.

Section SelectorOutcomes.
Variable json_loads_manifest : string -> result Manifest.
Variable read_csv_gz : string -> stream (list string).
Variable s3 : S3.
Variable bucket : string.
Variable required_fields : gset string.
Variable prefix : string.

Local Abbreviation listed := (list_bucket_inventory_configurations s3 bucket).

(** X6. When the listing of the configurations ends without an error,
    every listed configuration of the CSV format has its optional fields,
    and no listed configuration passes the checks, [get_bucket_inventory]
    asks S3 for no object and raises its "Unable to find S3 Inventory
    report" error, whose text names the bucket, the prefix when there is
    one, and the required fields, each once, in some order. *)
Theorem no_compatible_config_is_an_error :
  snd listed = None ->
  well_formed (fst listed) ->
  Forall (fun cur => ~ compatible required_fields prefix cur) (fst listed) ->
  exists fields,
    Permutation fields (elements required_fields)
    /\ get_bucket_inventory json_loads_manifest read_csv_gz s3 bucket
         required_fields prefix
       = ([], Raise (Exception (no_config_text bucket prefix fields))).
Proof.
  intros Herr Hwf Hnone. exists (elements required_fields).
  split; [reflexivity|].
  unfold get_bucket_inventory, select_config.
  destruct listed as [configs err] eqn:Hl. cbn [fst snd] in *. subst err.
  rewrite possible_configs_well_formed by assumption.
  assert (List.filter (kept required_fields prefix) configs = []) as ->.
  { clear Hl Hwf. induction Hnone as [|cur configs Hc _ IH]; [reflexivity|].
    cbn [List.filter]. rewrite IH.
    destruct (kept required_fields prefix cur) eqn:Hk; [|reflexivity].
    exfalso. apply Hc, is_valid_true. unfold kept in Hk.
    destruct (is_valid required_fields prefix cur) as [[]|]; congruence. }
  reflexivity.
Qed.

(** X7. When the listing ends without an error and an enabled
    configuration passes the checks, the selector returns a
    configuration, one of those that pass. *)
Theorem compatible_config_is_selected (cur : InventoryConfiguration) :
  snd listed = None ->
  well_formed (fst listed) ->
  In cur (fst listed) ->
  compatible required_fields prefix cur ->
  exists config,
    select_config s3 bucket required_fields prefix = Ok config
    /\ In config (survivors s3 bucket required_fields prefix).
Proof.
  intros Herr Hwf Hin Hc.
  assert (possible_configs required_fields prefix listed
          = Ok (survivors s3 bucket required_fields prefix)) as Hp.
  { unfold survivors. destruct listed as [configs err]. cbn [fst snd] in *.
    subst err. now apply possible_configs_well_formed. }
  destruct (select_config_returns _ _ _ _ _ Hp) as [config Hs].
  - intros Hnil. assert (In cur (survivors s3 bucket required_fields prefix)) as H.
    { unfold survivors. apply filter_In. split; [exact Hin|].
      unfold kept. now rewrite (compatible_is_valid _ _ _ Hc). }
    rewrite Hnil in H. destruct H.
  - exists config. split; [exact Hs|].
    now apply (selected_is_longest _ _ _ _ _ Hs).
Qed.

(** X8. Among the configurations that pass the checks and have a filter
    prefix as long as that of the one returned, a daily schedule goes
    first, then the current versions only, and then, as the key is
    written, the larger number of optional fields. *)
Theorem selector_tie_breaks (config other : InventoryConfiguration) :
  select_config s3 bucket required_fields prefix = Ok config ->
  In other (survivors s3 bucket required_fields prefix) ->
  String.length (config_prefix other) = String.length (config_prefix config) ->
  (is_daily other = true -> is_daily config = true)
  /\ (is_daily other = is_daily config ->
      (is_current other = true -> is_current config = true)
      /\ (is_current other = is_current config ->
          (field_count other <= field_count config)%nat)).
Proof.
  intros Hs Ho Hlen.
  apply select_config_Ok in Hs as (possible & rest & Hp & Hsort).
  apply possible_configs_Ok in Hp.
  fold (survivors s3 bucket required_fields prefix) in Hp. subst possible.
  pose proof (sort_by_head_least _ _ _ _ Hsort other Ho) as Hk.
  apply not_true_iff_false in Hk. rewrite key_ltb_spec in Hk.
  unfold sort_key in Hk. fold (is_daily other) (is_daily config)
    (is_current other) (is_current config) (field_count other)
    (field_count config) in Hk.
  destruct (is_daily other), (is_daily config), (is_current other),
    (is_current config); repeat split; intros; try reflexivity;
    try discriminate; lia.
Qed.

(** X9. Of the configurations that are equal under the sort key, the one
    listed first is returned: the configuration returned is the first in
    the listing, among those that pass the checks, to have its key. *)
Theorem selector_takes_first_listed (config : InventoryConfiguration) :
  select_config s3 bucket required_fields prefix = Ok config ->
  exists before after,
    survivors s3 bucket required_fields prefix = before ++ config :: after
    /\ Forall (fun cur => sort_key cur <> sort_key config) before.
Proof.
  intros Hs.
  apply select_config_Ok in Hs as (possible & rest & Hp & Hsort).
  apply possible_configs_Ok in Hp.
  fold (survivors s3 bucket required_fields prefix) in Hp. subst possible.
  pose proof (sort_by_stable sort_key (sort_key config)
                (survivors s3 bucket required_fields prefix)) as Hst.
  rewrite Hsort in Hst. cbn [List.filter] in Hst.
  rewrite bool_decide_eq_true_2 in Hst by reflexivity.
  revert Hst. generalize (survivors s3 bucket required_fields prefix).
  generalize (List.filter
                (fun y => bool_decide (sort_key y = sort_key config)) rest).
  intros tail l. induction l as [|x l IH]; cbn [List.filter]; [discriminate|].
  destruct (bool_decide_reflect (sort_key x = sort_key config)) as [Hx|Hx].
  - intros [= <- _]. exists [], l. split; [reflexivity|constructor].
  - intros H. destruct (IH H) as (before & after & -> & Hb).
    exists (x :: before), after. split; [reflexivity|]. now constructor.
Qed.
End SelectorOutcomes.

Lemma no_compatible_config_is_an_error_witness :
  exists fields,
    Permutation fields (elements ({["Size"]} : gset string))
    /\ get_bucket_inventory demo_json_loads demo_read_csv_gz
         (s3_listing [config_daily_data]) "b" {["Size"]} "logs/"
       = ([], Raise (Exception (no_config_text "b" "logs/" fields))).
Proof.
  apply no_compatible_config_is_an_error.
  - reflexivity.
  - repeat constructor. intros _. vm_compute. eauto.
  - repeat constructor. intros (_ & _ & Hp). vm_compute in Hp. discriminate.
Defined.

Lemma compatible_config_is_selected_witness :
  exists config,
    select_config (s3_listing [config_weekly_all; config_daily_data]) "b"
      {["Size"]} "data/" = Ok config
    /\ In config (survivors (s3_listing [config_weekly_all; config_daily_data])
                            "b" {["Size"]} "data/").
Proof.
  apply (compatible_config_is_selected
           (s3_listing [config_weekly_all; config_daily_data]) "b" {["Size"]}
           "data/" config_daily_data).
  - reflexivity.
  - repeat constructor; intros _; vm_compute; eauto.
  - vm_compute. auto.
  - split; [|split].
    + eexists. split; reflexivity.
    + eexists. split; [reflexivity|]. set_solver.
    + reflexivity.
Defined.

Lemma selector_tie_breaks_witness :
  (is_daily config_weekly_data = true -> is_daily config_daily_data = true)
  /\ (is_daily config_weekly_data = is_daily config_daily_data ->
      (is_current config_weekly_data = true ->
       is_current config_daily_data = true)
      /\ (is_current config_weekly_data = is_current config_daily_data ->
          (field_count config_weekly_data <= field_count config_daily_data)%nat)).
Proof.
  apply (selector_tie_breaks
           (s3_listing [config_weekly_data; config_daily_data]) "b" {["Size"]}
           "data/" config_daily_data config_weekly_data).
  - vm_compute. reflexivity.
  - vm_compute. auto.
  - reflexivity.
Defined.

Lemma selector_takes_first_listed_witness :
  exists before after,
    survivors (s3_listing [config_weekly_all; config_daily_data;
                           config_daily_data]) "b" {["Size"]} "data/"
    = before ++ config_daily_data :: after
    /\ Forall (fun cur => sort_key cur <> sort_key config_daily_data) before.
Proof.
  apply selector_takes_first_listed. vm_compute. reflexivity.
Defined.

(** ** The reader: where the reports are, the schema and the rows *)

(** X10. For a destination given by the ARN [arn:aws:s3:::name], the
    reports are looked for in the bucket [name], under the destination
    prefix (when it is not empty), the scanned bucket and the id of the
    configuration, each followed by a slash; a destination given by a
    bare name without colons is an [IndexError]. *)
Theorem report_location_of_arn (bucket name : string)
  (config : InventoryConfiguration) (dest : S3BucketDestination) :
  Destination config = Some dest ->
  has_char ":" name = false ->
  (forall dest_prefix,
      dest_Bucket dest = Some ("arn:aws:s3:::" +++ name) ->
      dest_Prefix dest = Some dest_prefix ->
      report_location bucket config
      = Ok (name,
            (if String.eqb dest_prefix "" then "" else dest_prefix +++ "/")
            +++ bucket +++ "/" +++ Id config +++ "/"))
  /\ (dest_Bucket dest = Some name ->
      report_location bucket config
      = Raise (IndexError "list index out of range")).
Proof.
  intros Hd Hname. unfold report_location. rewrite Hd. cbn [item result_bind].
  split.
  - intros dest_prefix Hb Hp. rewrite Hb, Hp. cbn [item result_bind].
    change ("arn:aws:s3:::" +++ name)
      with ("arn" +++ String ":" ("aws" +++ String ":" ("s3" +++ String ":"
              ("" +++ String ":" ("" +++ String ":" name))))).
    rewrite !split_on_append by reflexivity.
    rewrite split_on_no_sep by assumption. cbn [lookup list_lookup].
    cbn [result_bind]. destruct dest_prefix; reflexivity.
  - intros Hb. rewrite Hb. cbn [item result_bind].
    rewrite split_on_no_sep by assumption. reflexivity.
Qed.

Lemma report_location_of_arn_witness :
  report_location "b" config_daily_data = Ok ("inventory", "inv/b/data/").
Proof.
  destruct (report_location_of_arn "b" "inventory" config_daily_data
              csv_destination eq_refl eq_refl) as [H _].
  apply (H "inv"); reflexivity.
Defined.

Lemma row_dict_loop_other (schema row : list string) (d : gmap string string)
  (k : string) :
  k ∉ schema ->
  foldl (fun d xy => <[xy.1 := xy.2]> d) d (zip schema row) !! k = d !! k.
Proof.
  revert row d. induction schema as [|x schema IH]; intros row d Hk;
    [reflexivity|].
  destruct row as [|v row]; [reflexivity|]. cbn [zip zip_with foldl].
  rewrite IH by set_solver. cbn [fst snd]. apply lookup_insert_ne. set_solver.
Qed.

(** X11. When the names of the schema are distinct, the row read under
    it gives, for each name, the value at the position of that name, and
    nothing for a name whose position lies beyond the end of the row. *)
Theorem row_dict_lookup (schema row : list string) (i : nat) (k : string) :
  NoDup schema ->
  schema !! i = Some k ->
  row_dict schema row !! k = row !! i.
Proof.
  unfold row_dict. intros Hnd Hi.
  assert (forall d : gmap string string,
             foldl (fun d xy => <[xy.1 := xy.2]> d) d (zip schema row) !! k
             = match row !! i with Some v => Some v | None => d !! k end)
    as H.
  { revert row i Hi. induction Hnd as [|x schema Hx Hnd IH]; intros row i Hi d;
      [discriminate|].
    destruct row as [|v row]; [reflexivity|]. cbn [zip zip_with foldl fst snd].
    destruct i as [|i]; cbn [lookup list_lookup] in *.
    - injection Hi as ->. rewrite row_dict_loop_other by assumption.
      apply lookup_insert_eq.
    - rewrite (IH row i Hi). destruct (row !! i) as [w|]; [reflexivity|].
      apply lookup_insert_ne. intros ->. apply Hx.
      eapply list_elem_of_lookup_2; eauto. }
  rewrite H. destruct (row !! i); [reflexivity|apply lookup_empty].
Qed.

Lemma row_dict_lookup_witness :
  row_dict ["Bucket"; "Key"; "Size"] ["b"; "data/a"] !! "Size" = None
  /\ row_dict ["Bucket"; "Key"; "Size"] ["b"; "data/a"] !! "Key"
     = Some "data/a".
Proof.
  assert (NoDup ["Bucket"; "Key"; "Size"]) as Hnd.
  { repeat constructor; set_solver. }
  split.
  - rewrite (row_dict_lookup _ _ 2%nat "Size" Hnd) by reflexivity. reflexivity.
  - rewrite (row_dict_lookup _ _ 1%nat "Key" Hnd) by reflexivity. reflexivity.
Defined.

Lemma strip_after_space (w : string) : strip (String " " w) = strip w.
Proof. reflexivity. Qed.

(** X12. The schema of a manifest written as names joined by a comma and
    a space is read back as those names, when there is at least one name,
    no name holds a comma and no name starts or ends with white space. *)
Theorem schema_names_round_trip (names : list string) :
  names <> [] ->
  Forall (fun n => has_char "," n = false /\ strip n = n) names ->
  map strip (split_on "," (join ", " names)) = names.
Proof.
  intros Hne H. induction H as [|p ps [Hp Hs] Hps IH]; [contradiction|].
  destruct ps as [|q ps].
  - cbn [join]. rewrite split_on_no_sep by assumption. cbn [map]. now rewrite Hs.
  - change (join ", " (p :: q :: ps))
      with (p +++ String "," (String " " (join ", " (q :: ps)))).
    rewrite split_on_append by assumption.
    rewrite split_on_other by discriminate.
    specialize (IH ltac:(discriminate)).
    destruct (split_on_cons "," (join ", " (q :: ps))) as (w & ws & Hw).
    rewrite Hw in *. cbn [map] in *. rewrite strip_after_space, Hs.
    now rewrite IH.
Qed.

Lemma schema_names_round_trip_witness :
  map strip (split_on "," (join ", " ["Bucket"; "Key"; "Size"]))
  = ["Bucket"; "Key"; "Size"].
Proof.
  apply schema_names_round_trip; [discriminate|].
  repeat constructor.
Defined.

Lemma gen_for_yield_all {A B} (f : A -> B) (xs : list A) :
  gen_for xs (fun (_ : unit) x => gen_emit (Yielded (f x))) tt
  = (map (fun x => Yielded (f x)) xs, Ok tt).
Proof.
  induction xs as [|x xs IH]; [reflexivity|].
  cbn [gen_for]. now rewrite gen_bind_emit, IH.
Qed.

Section ReaderSuccess.
Variable json_loads_manifest : string -> result Manifest.
Variable read_csv_gz : string -> stream (list string).
Variable s3 : S3.
Variable inv_bucket : string.

Local Abbreviation file_events := (file_events inv_bucket).

Lemma read_data_file_rows schema key csv_gz rows :
  get_object s3 inv_bucket key = Ok csv_gz ->
  read_csv_gz csv_gz = (rows, None) ->
  read_data_file read_csv_gz s3 inv_bucket schema key
  = (file_events schema key rows, Ok tt).
Proof.
  intros Hg Hr. unfold read_data_file, file_events.
  rewrite gen_bind_emit, Hg, gen_bind_lift_Ok. unfold gen_for_stream.
  rewrite Hr. cbn [fst snd]. rewrite gen_for_yield_all, gen_bind_Ok.
  cbn [fst snd gen_ret]. now rewrite app_nil_r.
Qed.

End ReaderSuccess.


(** ** The direct listing and the totals of a scan by size *)

Section Listing.
Variable S3_COST_CLASSES : list CostClass.
Variable pricing_data : gmap string (gmap string string).
Variable float_of_str : string -> result float.
Variable int_of_str : string -> result Z.
Variable unquote : string -> string.
Variable json_loads_manifest : string -> result Manifest.
Variable read_csv_gz : string -> stream (list string).
Variable boto3_s3 : string -> option string -> result S3.
Variable imap_order :
  list (result (string * string)) -> list (result (string * string)).
Variable get_cw :
  string -> string -> result (list MetricDataQuery -> result (list MetricDataResult)).
Variable temp_cur : string.

Local Abbreviation lister :=
  (s3_list_objects int_of_str unquote json_loads_manifest read_csv_gz).

Lemma listing_page_records prefix_len contents :
  listing_page prefix_len (Some contents)
  = (map Yielded (map (listed_record prefix_len) contents), Ok tt).
Proof.
  unfold listing_page. cbn [item]. rewrite gen_bind_lift_Ok.
  rewrite (gen_for_yield_all (listed_record prefix_len)). now rewrite map_map.
Qed.

Lemma listing_pages_records prefix_len pages later :
  gen_for (map Some pages ++ later)
          (fun (_ : unit) page => listing_page prefix_len page) tt
  = (map Yielded (map (listed_record prefix_len) (concat pages))
     ++ fst (gen_for later
               (fun (_ : unit) page => listing_page prefix_len page) tt),
     snd (gen_for later
            (fun (_ : unit) page => listing_page prefix_len page) tt)).
Proof.
  induction pages as [|contents pages IH].
  - cbn [map concat app]. now destruct (gen_for later _ tt).
  - cbn [map app gen_for concat]. rewrite listing_page_records, gen_bind_Ok.
    rewrite IH. cbn [fst snd]. now rewrite !map_app, app_assoc.
Qed.

Lemma listing_page_missing prefix_len :
  listing_page prefix_len None = ([], Raise (KeyError "Contents")).
Proof. reflexivity. Qed.

Lemma lister_of_listing (opts : Opts) (s3 : S3) (bucket : string)
  (pages : list (list ObjectSummary)) :
  truthy (s3_inventory opts) = false ->
  s3_bucket opts = Some bucket ->
  object_pages s3 bucket (s3_prefix opts) = (map Some pages, None) ->
  lister opts s3
  = (map Yielded
       (map (listed_record (String.length (default "" (s3_prefix opts))))
            (concat pages)),
     Ok tt).
Proof.
  intros Hinv Hb Hpages.
  unfold s3_list_objects. rewrite Hinv, Hb. cbn [item].
  rewrite gen_bind_lift_Ok. unfold gen_for_stream. rewrite Hpages.
  cbn [fst snd]. rewrite <- (app_nil_r (map Some pages)).
  rewrite listing_pages_records. cbn [gen_for gen_ret fst snd].
  rewrite gen_bind_Ok. cbn [fst snd]. now rewrite !app_nil_r.
Qed.

(** X14. A direct listing whose pages all have their [Contents] and that
    ends without an error yields one record for each object, in the order
    of the pages, with the size and the storage class of the object and
    its key less as many characters as the prefix has; for an object
    whose key starts with the prefix, the prefix followed by the key of
    the record is the key of the object. *)
Theorem listing_yields_every_object (opts : Opts) (s3 : S3) (bucket : string)
  (pages : list (list ObjectSummary)) :
  truthy (s3_inventory opts) = false ->
  s3_bucket opts = Some bucket ->
  object_pages s3 bucket (s3_prefix opts) = (map Some pages, None) ->
  let prefix := default "" (s3_prefix opts) in
  lister opts s3
  = (map Yielded (map (listed_record (String.length prefix)) (concat pages)),
     Ok tt)
  /\ (forall cur,
         String.prefix prefix (obj_Key cur) = true ->
         prefix +++ Key (listed_record (String.length prefix) cur)
         = obj_Key cur).
Proof.
  intros Hinv Hb Hpages prefix. split.
  - now apply (lister_of_listing opts s3 bucket pages).
  - intros cur Hp. now apply prefix_slice.
Qed.

(** X15. A page of a direct listing that has no [Contents] ends the scan
    with [KeyError('Contents')]: the records of the pages before it have
    been yielded, and nothing of the pages after it is. *)
Theorem page_without_contents_is_a_KeyError (opts : Opts) (s3 : S3)
  (bucket : string) (before : list (list ObjectSummary))
  (after : list (option (list ObjectSummary))) (err : option exn) :
  truthy (s3_inventory opts) = false ->
  s3_bucket opts = Some bucket ->
  object_pages s3 bucket (s3_prefix opts)
  = (map Some before ++ None :: after, err) ->
  lister opts s3
  = (map Yielded
       (map (listed_record (String.length (default "" (s3_prefix opts))))
            (concat before)),
     Raise (KeyError "Contents")).
Proof.
  intros Hinv Hb Hpages.
  unfold s3_list_objects. rewrite Hinv, Hb. cbn [item].
  rewrite gen_bind_lift_Ok. unfold gen_for_stream. rewrite Hpages.
  cbn [fst snd]. rewrite listing_pages_records. cbn [gen_for].
  rewrite listing_page_missing, gen_bind_Raise. cbn [fst snd].
  rewrite gen_bind_Raise. now rewrite app_nil_r.
Qed.

(** X16. A scan of one bucket by size, over a direct listing that ends
    well, yields for each object the segments of its key (less the
    prefix) with its size, and reports as totals the number of the
    objects and the sum of their sizes. *)
Theorem size_scan_of_a_listing (opts : Opts) (s3 : S3) (bucket : string)
  (pages : list (list ObjectSummary)) :
  s3_bucket opts = Some bucket ->
  truthy (s3_cost opts) = false ->
  truthy (s3_inventory opts) = false ->
  get_s3 boto3_s3 (PyOpts opts) = Ok s3 ->
  object_pages s3 bucket (s3_prefix opts) = (map Some pages, None) ->
  let prefix_len := String.length (default "" (s3_prefix opts)) in
  let out :=
    scan_folder S3_COST_CLASSES pricing_data float_of_str int_of_str unquote
      json_loads_manifest read_csv_gz boto3_s3 imap_order get_cw temp_cur
      opts in
  yields (fst out)
  = map (fun cur => (split_on "/" (slice_from prefix_len (obj_Key cur)),
                     Plain (PInt (obj_Size cur))))
        (concat pages)
  /\ snd out
     = Ok (PInt (Z.of_nat (List.length (concat pages))),
           PInt (fold_right Z.add 0 (map obj_Size (concat pages)))).
Proof.
  intros Hb Hcost Hinv Hs3 Hpages prefix_len out. subst out.
  unfold scan_folder. rewrite Hb.
  pose proof (lister_of_listing opts s3 bucket pages Hinv Hb Hpages) as Hl.
  destruct (size_scan_totals S3_COST_CLASSES pricing_data float_of_str
              int_of_str unquote json_loads_manifest read_csv_gz boto3_s3
              opts s3 bucket Hcost Hs3) as [Hy Ht].
  rewrite Hl in Hy, Ht. cbn [fst snd] in Hy, Ht.
  rewrite yields_map in Hy, Ht. split.
  - rewrite Hy, map_map. reflexivity.
  - rewrite (Ht eq_refl), length_map, map_map. reflexivity.
Qed.
End Listing.

Lemma listing_yields_every_object_witness :
  s3_list_objects demo_int_of_str demo_unquote demo_json_loads
    demo_read_csv_gz (listing_opts (Some "data/")) (listing_s3 two_objects)
  = ([Yielded {| Key := "a"; Size := 100; StorageClass := "STANDARD" |};
      Yielded {| Key := "sub/b"; Size := 50; StorageClass := "STANDARD" |}],
     Ok tt).
Proof.
  destruct (listing_yields_every_object demo_int_of_str demo_unquote
              demo_json_loads demo_read_csv_gz (listing_opts (Some "data/"))
              (listing_s3 two_objects) "b" [two_objects]
              eq_refl eq_refl eq_refl) as [H _].
  exact H.
Defined.

(** A listing of two pages, of which the second has no [Contents]. *)
Lemma page_without_contents_is_a_KeyError_witness :
  s3_list_objects demo_int_of_str demo_unquote demo_json_loads
    demo_read_csv_gz (listing_opts None)
    {| inventory_pages := fun _ => ([], None);
       common_prefix_pages := fun _ _ => Ok [];
       object_pages := fun _ _ => ([Some two_objects; None], None);
       get_object := fun _ _ => Raise (ClientError "NoSuchKey");
       location_constraint := fun _ => Ok None;
       list_buckets := Ok [] |}
  = ([Yielded {| Key := "data/a"; Size := 100; StorageClass := "STANDARD" |};
      Yielded {| Key := "data/sub/b"; Size := 50; StorageClass := "STANDARD" |}],
     Raise (KeyError "Contents")).
Proof.
  apply (page_without_contents_is_a_KeyError demo_int_of_str demo_unquote
           demo_json_loads demo_read_csv_gz (listing_opts None) _ "b"
           [two_objects] [] None); reflexivity.
Defined.

Lemma size_scan_of_a_listing_witness :
  snd (demo_scan (listing_s3 two_objects) no_cw (listing_opts (Some "data/")))
  = Ok (PInt 2, PInt 150).
Proof.
  apply (size_scan_of_a_listing demo_classes demo_pricing demo_float_of_str
           demo_int_of_str demo_unquote demo_json_loads demo_read_csv_gz
           (fun _ _ => Ok (listing_s3 two_objects)) (fun results => results)
           (fun profile region => Ok (no_cw profile region)) "2024-01-01"
           (listing_opts (Some "data/")) (listing_s3 two_objects) "b"
           [two_objects]); reflexivity.
Defined.

(** ** The metrics and the summaries of the account-wide scan *)

(** X17. The value taken from the observations of a metric is the one at
    the position of the first timestamp of the day of the scan; it is
    [0.0] when no timestamp is of that day, and an [IndexError] when the
    values stop before that position. *)
Theorem day_value_is_first_of_the_day (temp_cur : string)
  (timestamps : list string) (values : list float) :
  (temp_cur ∉ timestamps -> day_value temp_cur timestamps values = Ok 0%float)
  /\ (forall i,
         timestamps !! i = Some temp_cur ->
         temp_cur ∉ take i timestamps ->
         day_value temp_cur timestamps values
         = match values !! i with
           | Some v => Ok v
           | None => Raise (IndexError "list index out of range")
           end).
Proof.
  split.
  - revert values. induction timestamps as [|t ts IH]; intros values Hnot;
      [reflexivity|].
    cbn [day_value]. destruct (String.eqb_spec t temp_cur) as [->|Hne].
    + exfalso. apply Hnot. now left.
    + apply IH. intros Hin. apply Hnot. now right.
  - revert values. induction timestamps as [|t ts IH]; intros values i Hi Hnot;
      [discriminate|].
    cbn [day_value]. destruct i as [|i].
    + injection Hi as ->. rewrite String.eqb_refl. now destruct values.
    + cbn [take] in Hnot. destruct (String.eqb_spec t temp_cur) as [->|Hne].
      * exfalso. apply Hnot. now left.
      * rewrite (IH (tail values) i Hi).
        -- now destruct values.
        -- intros Hin. apply Hnot. now right.
Qed.

Lemma day_value_is_first_of_the_day_witness :
  day_value "2024-01-01" ["2023-12-31"; "2024-01-01"; "2024-01-01"]
    [1%float; 2%float; 3%float] = Ok 2%float.
Proof.
  destruct (day_value_is_first_of_the_day "2024-01-01"
              ["2023-12-31"; "2024-01-01"; "2024-01-01"]
              [1%float; 2%float; 3%float]) as [_ H].
  apply (H 1%nat); [reflexivity|]. set_solver.
Defined.

Lemma result_for_app {X S} (xs ys : list X) (body : S -> X -> result S)
  (s : S) :
  result_for (xs ++ ys) body s
  = let! s' := result_for xs body s in result_for ys body s'.
Proof.
  revert s. induction xs as [|x xs IH]; intros s; cbn [app result_for].
  - reflexivity.
  - destruct (body s x) as [s'|e]; cbn [result_bind]; [apply IH|reflexivity].
Qed.

Lemma stat_of_ints bucket_stats key :
  all_ints bucket_stats ->
  default (PInt 0) (bucket_stats !! key) = PInt (int_stat bucket_stats key).
Proof.
  intros H. unfold int_stat. specialize (H key).
  destruct (bucket_stats !! key) as [[n|f]|]; try reflexivity.
  now destruct (H f).
Qed.

(** X18. In size mode the summary of a bucket that has none yet gives it,
    as [_size], the sum over the cost classes of the byte metric of each
    class and, as [_count], its object-count metric, a metric the bucket
    does not have counting for [0]; nothing else of the bucket changes. *)
Theorem size_summary_is_the_sum (classes : list CostClass)
  (to_region : gmap string string) (bucket : string)
  (bucket_stats : gmap string pynum) :
  bucket_stats !! "_count" = None ->
  all_ints bucket_stats ->
  summarize classes None to_region bucket bucket_stats
  = Ok (<["_size" :=
            PInt (fold_right Z.add 0
                    (map (fun x => int_stat bucket_stats (cc_cw x)) classes))]>
          (<["_count" := PInt (int_stat bucket_stats "AllStorageTypes")]>
             bucket_stats)).
Proof.
  intros Hc Hints. unfold summarize. rewrite Hc. unfold storages.
  rewrite result_for_app.
  assert (forall a c,
             result_for
               (map (fun x => (cc_cw x, "BucketSizeBytes", true)) classes)
               (fun (totals : pynum * pynum) (s : string * string * bool) =>
                  let stat := default (PInt 0) (bucket_stats !! s.1.1) in
                  if s.2 : bool
                  then Ok (num_add totals.1 stat, totals.2)
                  else Ok (totals.1, num_add totals.2 stat))
               (PInt a, c)
             = Ok (PInt (a + fold_right Z.add 0
                               (map (fun x => int_stat bucket_stats (cc_cw x))
                                    classes)), c)) as Hloop.
  { induction classes as [|x classes IH]; intros a c; cbn [map result_for].
    - simpl. now rewrite Z.add_0_r.
    - cbn [fst snd result_bind]. rewrite stat_of_ints by assumption.
      cbn [num_add]. rewrite IH. cbn [fold_right]. do 3 f_equal. lia. }
  rewrite Hloop. cbn [result_bind result_for fst snd].
  rewrite stat_of_ints by assumption. reflexivity.
Qed.

Lemma size_summary_is_the_sum_witness :
  summarize demo_classes None ∅ "b"
    {["StandardStorage" := PInt 100; "AllStorageTypes" := PInt 3]}
  = Ok {["_size" := PInt 100; "_count" := PInt 3;
         "StandardStorage" := PInt 100; "AllStorageTypes" := PInt 3]}.
Proof.
  rewrite size_summary_is_the_sum.
  - vm_compute. reflexivity.
  - reflexivity.
  - intros key f H. apply lookup_insert_Some in H as [[_ H]|[_ H]];
      [discriminate|].
    apply lookup_singleton_Some in H as [_ H]. discriminate.
Defined.

Section ProfileCosts.
Variable S3_COST_CLASSES : list CostClass.
Variable pricing_data : gmap string (gmap string string).
Variable float_of_str : string -> result float.

Local Abbreviation costs_of :=
  (profile_costs S3_COST_CLASSES pricing_data float_of_str).

(** X19. In size mode the pricing data is not looked at.  In cost mode
    the regions of a profile are gone through in order, and the first one
    that the pricing data lacks is the error "Unknown costs for region",
    when the price tables of the regions before it could be made. *)
Theorem unknown_region_of_a_profile (opts : Opts)
  (before : list string) (region : string) (after : list string) :
  (truthy (s3_cost opts) = false ->
   costs_of opts (before ++ region :: after) = Ok None)
  /\ (truthy (s3_cost opts) = true ->
      Forall (fun r => is_Some (pricing_data !! r)
                       /\ exists table,
                            price_table S3_COST_CLASSES pricing_data
                              float_of_str cc_cw r = Ok table) before ->
      pricing_data !! region = None ->
      costs_of opts (before ++ region :: after)
      = Raise (unknown_region region)).
Proof.
  unfold profile_costs. split; [now intros ->|].
  intros -> Hbefore Hr. rewrite result_for_app.
  assert (forall costs : gmap string (gmap string float),
             exists costs',
               result_for before
                 (fun costs region =>
                    match pricing_data !! region with
                    | None => Raise (unknown_region region)
                    | Some _ =>
                        let! table :=
                          price_table S3_COST_CLASSES pricing_data
                            float_of_str cc_cw region in
                        Ok (<[region := table]> costs)
                    end) costs = Ok costs') as Hloop.
  { induction Hbefore as [|r rs [[prices Hp] [table Ht]] _ IH]; intros costs;
      cbn [result_for]; [eauto|].
    rewrite Hp, Ht. cbn [result_bind]. apply IH. }
  destruct (Hloop ∅) as [costs' ->]. cbn [result_bind result_for].
  now rewrite Hr.
Qed.
End ProfileCosts.

Lemma unknown_region_of_a_profile_witness :
  profile_costs demo_classes demo_pricing demo_float_of_str
    (bucket_opts None (Some true) None) (["us-east-1"] ++ "eu-west-9" :: [])
  = Raise (unknown_region "eu-west-9").
Proof.
  destruct (unknown_region_of_a_profile demo_classes demo_pricing
              demo_float_of_str (bucket_opts None (Some true) None)
              ["us-east-1"] "eu-west-9" []) as [_ H].
  apply H.
  - reflexivity.
  - repeat constructor; vm_compute; eauto.
  - reflexivity.
Defined.

(** ** Profiles, regions and required fields *)

Lemma join_split_on (sep : ascii) (s : string) :
  join (String sep "") (split_on sep s) = s.
Proof.
  induction s as [|c s IH]; [reflexivity|].
  destruct (split_on_cons sep s) as (p & ps & Hs).
  destruct (Ascii.eqb_spec c sep) as [->|Hne].
  - rewrite split_on_sep, Hs in *.
    change (join (String sep "") ("" :: p :: ps))
      with (String sep (join (String sep "") (p :: ps))).
    now rewrite IH.
  - rewrite split_on_other by assumption. rewrite Hs in *.
    rewrite join_cons_String. now rewrite IH.
Qed.

Lemma split_on_pieces (sep : ascii) (s : string) :
  Forall (fun p => has_char sep p = false) (split_on sep s).
Proof.
  induction s as [|c s IH]; [repeat constructor|].
  destruct (Ascii.eqb_spec c sep) as [->|Hne].
  - rewrite split_on_sep. now constructor.
  - rewrite split_on_other by assumption.
    destruct (split_on sep s) as [|w ws]; [repeat constructor|].
    + cbn [has_char]. destruct (Ascii.eqb_spec c sep); [contradiction|reflexivity].
    + inversion IH; subst. constructor; [|assumption].
      cbn [has_char]. destruct (Ascii.eqb_spec c sep); [contradiction|assumption].
Qed.

(** X20. [get_profiles] yields the names between the commas of the
    profile option: at least one (the empty name when the option is
    absent or empty), none holding a comma, which joined by commas give
    the option back; and each is yielded as a bare name. *)
Theorem get_profiles_splits_at_commas (opts : Opts) :
  exists names,
    get_profiles opts = map PyStr names
    /\ names <> []
    /\ join "," names = default "" (s3_profile opts)
    /\ Forall (fun name => has_char "," name = false) names.
Proof.
  exists (split_on "," (default "" (s3_profile opts))).
  split; [reflexivity|]. split; [|split].
  - destruct (split_on_cons "," (default "" (s3_profile opts)))
      as (p & ps & ->). discriminate.
  - apply (join_split_on ","%char).
  - apply split_on_pieces.
Qed.

(** X21. [get_bucket_location] answers with the name of a region: the
    answer of the service when it names one, [us-east-1] for no
    constraint and [eu-west-1] for [EU]; it never answers [EU], and an
    error of the service is its error. *)
Theorem bucket_location_is_a_region (s3 : S3) (bucket : string) :
  (forall location,
      get_bucket_location s3 bucket = Ok location ->
      location <> "EU"
      /\ (location_constraint s3 bucket = Ok (Some location)
          \/ location_constraint s3 bucket = Ok None
             /\ location = "us-east-1"
          \/ location_constraint s3 bucket = Ok (Some "EU")
             /\ location = "eu-west-1"))
  /\ (forall e,
         get_bucket_location s3 bucket = Raise e
         <-> location_constraint s3 bucket = Raise e).
Proof.
  unfold get_bucket_location.
  destruct (location_constraint s3 bucket) as [[l|]|e]; cbn [result_bind].
  - destruct (String.eqb_spec l "EU") as [->|Hne].
    + split; [|split; discriminate]. intros location [= <-].
      split; [discriminate|auto].
    + split; [|split; discriminate]. intros location [= <-]. auto.
  - split; [|split; discriminate]. intros location [= <-].
    split; [discriminate|auto].
  - split; [discriminate|]. intros e'. split; intros [= ->]; reflexivity.
Qed.

Lemma bucket_location_is_a_region_witness :
  get_bucket_location (listing_s3 []) "b" = Ok "us-east-1"
  /\ "us-east-1" <> "EU".
Proof.
  destruct (bucket_location_is_a_region (listing_s3 []) "b") as [H _].
  destruct (H "us-east-1" eq_refl) as [Hne _].
  split; [reflexivity|exact Hne].
Defined.

(** X22. The configuration whose report [s3_list_objects] reads has
    [Size] among its optional fields, and [StorageClass] too when the
    scan is by cost. *)
Theorem selected_report_has_the_fields (opts : Opts) (s3 : S3)
  (bucket prefix : string) (config : InventoryConfiguration) :
  select_config s3 bucket (fields_needed opts) prefix = Ok config ->
  exists fields,
    OptionalFields config = Some fields
    /\ In "Size" fields
    /\ (truthy (s3_cost opts) = true -> In "StorageClass" fields).
Proof.
  intros H. apply select_config_Ok in H as (possible & rest & Hp & Hs).
  apply possible_configs_Ok in Hp. apply sort_by_head_in in Hs.
  rewrite Hp in Hs. apply filter_In in Hs as [_ Hk].
  assert (compatible (fields_needed opts) prefix config)
    as (_ & (fields & Hf & Hsub) & _).
  { apply is_valid_true. unfold kept in Hk.
    destruct (is_valid (fields_needed opts) prefix config) as [[]|];
      congruence. }
  exists fields. split; [exact Hf|]. unfold fields_needed in Hsub.
  split.
  - apply list_elem_of_In, (elem_of_list_to_set (C:=gset string)).
    destruct (truthy (s3_cost opts)); set_solver.
  - intros Hc. rewrite Hc in Hsub.
    apply list_elem_of_In, (elem_of_list_to_set (C:=gset string)). set_solver.
Qed.

Lemma selected_report_has_the_fields_witness :
  exists fields,
    OptionalFields config_daily_data = Some fields
    /\ In "Size" fields
    /\ (truthy (Some true) = true -> In "StorageClass" fields).
Proof.
  apply (selected_report_has_the_fields (bucket_opts None (Some true) None)
           (s3_listing [config_weekly_all; config_daily_data]) "b" "data/").
  vm_compute. reflexivity.
Defined.

(** ** The metrics of a region *)

Lemma result_for_establishes {X S} (Q : X -> S -> Prop) (xs : list X)
  (body : S -> X -> result S) (s s' : S) :
  (forall s x s', In x xs -> body s x = Ok s' -> Q x s') ->
  (forall s x y s', In x xs -> In y xs -> Q x s -> body s y = Ok s' -> Q x s') ->
  result_for xs body s = Ok s' ->
  forall x, In x xs -> Q x s'.
Proof.
  revert s. induction xs as [|y xs IH]; intros s Hest Hkeep H x Hx;
    [destruct Hx|].
  cbn [result_for] in H. invert_bind H.
  destruct Hx as [<-|Hx].
  - eapply (result_for_invariant (Q y)); [|eapply Hest; [now left|exact Ha]|exact H].
    intros s0 z s0' Hz Hq Hb.
    apply (Hkeep s0 y z s0'); [now left|now right|exact Hq|exact Hb].
  - eapply IH; [| |exact H|exact Hx].
    + intros s0 z s0' Hz. apply Hest. now right.
    + intros s0 z w s0' Hz Hw. apply (Hkeep s0 z w s0'); now right.
Qed.

Lemma marker_set_stat_full st b' k' x b k :
  marker (set_stat b' k' x st) b k
  = if String.eqb b b' && String.eqb k k' then Some x else marker st b k.
Proof.
  unfold marker, set_stat. rewrite od_get_alter.
  destruct (String.eqb_spec b b') as [->|]; [|reflexivity].
  cbn [andb mbind option_bind].
  destruct (String.eqb_spec k k') as [->|Hne].
  - apply lookup_insert_eq.
  - rewrite lookup_insert_ne by congruence.
    destruct (od_get b' st); [reflexivity|apply lookup_empty].
Qed.

Lemma to_region_of_found (region : string) (found : list string)
  (m : gmap string string) (bucket : string) :
  In bucket found ->
  foldl (fun m b => <[b := region]> m) m found !! bucket = Some region.
Proof.
  revert m. induction found as [|b found IH]; intros m Hin; [destruct Hin|].
  cbn [foldl]. destruct (in_dec String.string_dec bucket found) as [Hf|Hf].
  - now apply IH.
  - destruct Hin as [->|Hin]; [|contradiction].
    clear IH. revert m. induction found as [|c found IH]; intros m.
    + apply lookup_insert_eq.
    + cbn [foldl]. 
      assert (bucket <> c) as Hne by (intros ->; apply Hf; now left).
      assert (~ In bucket found) as Hf' by (intros H; apply Hf; now right).
      rewrite insert_insert_ne by congruence. apply (IH Hf').
Qed.

(** X23. When the metrics of a region have been taken, each bucket of
    the region is recorded as being of that region, and has in the
    statistics an integer for every storage type asked for: the byte
    metric of each cost class and the object count. *)
Theorem region_metrics_are_integers (classes : list CostClass)
  (get_cw :
     string -> string ->
     result (list MetricDataQuery -> result (list MetricDataResult)))
  (temp_cur profile region : string) (found : list string)
  (agg agg' : Aggregate) :
  scan_region classes get_cw temp_cur profile agg (region, found) = Ok agg' ->
  forall bucket,
    In bucket found ->
    bucket_to_region agg' !! bucket = Some region
    /\ forall s, In s (storages classes) ->
                 exists n, marker (stats agg') bucket s.1.1 = Some (PInt n).
Proof.
  intros H bucket Hin. unfold scan_region in H.
  invert_bind H. destruct (region_queries _ found) as [bucket_ids queries].
  invert_bind H. invert_bind H. injection H as <-.
  cbn [bucket_to_region stats]. split; [now apply to_region_of_found|].
  revert bucket Hin.
  eapply (result_for_establishes
            (fun bucket st =>
               forall s, In s (storages classes) ->
                         exists n, marker st bucket s.1.1 = Some (PInt n)));
    [| |exact Ha1].
  - intros st b st' _ Hb. cbn beta in Hb.
    eapply (result_for_establishes
              (fun s st => exists n, marker st b s.1.1 = Some (PInt n)));
      [| |exact Hb].
    + intros st0 s st0' _ Hbody. cbn beta in Hbody.
      repeat invert_bind Hbody. injection Hbody as <-.
      eexists. rewrite marker_set_stat_full, !String.eqb_refl. reflexivity.
    + intros st0 s s' st0' _ _ [n Hn] Hbody. cbn beta in Hbody.
      repeat invert_bind Hbody. injection Hbody as <-.
      rewrite marker_set_stat_full, String.eqb_refl. cbn [andb].
      destruct (String.eqb s.1.1 s'.1.1); eauto.
  - intros st b y st' _ _ Hq Hb s Hs. cbn beta in Hb.
    eapply (result_for_invariant
              (fun st => exists n, marker st b s.1.1 = Some (PInt n)));
      [|exact (Hq s Hs)|exact Hb].
    intros st0 s' st0' _ [n Hn] Hbody. cbn beta in Hbody.
    repeat invert_bind Hbody. injection Hbody as <-.
    rewrite marker_set_stat_full.
    destruct (String.eqb b y && String.eqb s.1.1 s'.1.1); eauto.
Qed.

Lemma region_metrics_are_integers_witness :
  exists n,
    final_stat (scan_region demo_classes
                  (fun profile region => Ok (demo_cw profile region))
                  "2024-01-01" "p1"
                  {| stats := []; bucket_to_region := ∅ |}
                  ("us-east-1", ["own"]))
      "own" "AllStorageTypes" = Some (PInt n).
Proof.
  destruct (scan_region demo_classes
              (fun profile region => Ok (demo_cw profile region))
              "2024-01-01" "p1" {| stats := []; bucket_to_region := ∅ |}
              ("us-east-1", ["own"])) as [agg'|e] eqn:Hs;
    [|vm_compute in Hs; discriminate].
  destruct (region_metrics_are_integers _ _ _ _ _ _ _ _ Hs "own")
    as [_ H]; [now left|].
  apply (H ("AllStorageTypes", "NumberOfObjects", false)).
  vm_compute. auto.
Defined.
